(** * Label printing cost calculator: cylinder search and costing pipeline

    A shallow embedding of [calculation.py].  The Python code computes on
    numbers that are [float] (binary64) for every measured quantity and
    [int] for counts.  The embedding is written once over an interface
    [Number] of the operations the code applies to its numbers, and the
    interface has two instances:

    - [Binary64]: Rocq's primitive IEEE 754 binary64 floats, the numbers
      the interpreter really computes with;
    - [Exact]: the rationals [Q], the arithmetic the quantities are meant
      to follow, with no rounding.

    Properties that depend only on the control flow of the code are proved
    for every instance, hence for both.  Properties of the arithmetic are
    proved on [Binary64], from the specification of the primitive
    operations: the sign of a product or a quotient, and that rounding to
    nearest keeps the order of sums, products by 2 and quotients.
    [Exact] is the reference the code is compared with: what is proved
    on it stands beside its binary64 counterpart, or beside the input at
    which binary64 departs from it, with both results evaluated. *)

From Stdlib Require Import ZArith QArith Qround Qabs Qpower Qminmax Lqa.
From Stdlib Require Import Floats Bool Lia.
From Stdlib Require Import String Ascii DecimalString DecimalPos DecimalZ.
From Stdlib Require Import List Sorted Permutation.
Import ListNotations.

(* ================================================================== *)
(** ** Exceptions *)

(** The two exceptions the numeric builtins used by the code can raise:
    [math.floor] and [round] raise [ValueError] on NaN and
    [OverflowError] on an infinity. *)
Inductive exn : Type :=
| ValueError
| OverflowError.

Inductive result (A : Type) : Type :=
| Ok (a : A)
| Raise (e : exn).

Arguments Ok {A} a.
Arguments Raise {A} e.

Definition bind {A B : Type} (c : result A) (k : A -> result B) : result B :=
  match c with
  | Ok a => k a
  | Raise e => Raise e
  end.

Declare Scope py_scope.
Delimit Scope py_scope with py.

Notation "x <- c ;; k" := (bind c (fun x => k))
  (at level 61, c at next level, right associativity) : py_scope.

(** Running a fallible step on every element, left to right, stopping at
    the first exception: the shape of a [for] loop whose body may raise. *)
Fixpoint for_each {A B : Type} (body : A -> result B) (l : list A)
  : result (list B) :=
  match l with
  | [] => Ok []
  | a :: l' =>
      match body a with
      | Raise e => Raise e
      | Ok b =>
          match for_each body l' with
          | Raise e => Raise e
          | Ok bs => Ok (b :: bs)
          end
      end
  end.

(* ================================================================== *)
(** ** Integers and strings *)

(** [range(lo, hi)]. *)
Definition range (lo hi : Z) : list Z :=
  map (fun i => (lo + Z.of_nat i)%Z) (seq 0 (Z.to_nat (hi - lo))).

(** [str(n)] for an [int]. *)
Definition str_of_int (n : Z) : string :=
  NilZero.string_of_int (Z.to_int n).

(** [needle in haystack] on strings. *)
Fixpoint str_in (needle haystack : string) : bool :=
  if String.prefix needle haystack then true
  else match haystack with
       | EmptyString => false
       | String _ rest => str_in needle rest
       end.

Fixpoint zeros (n : nat) : string :=
  match n with
  | O => EmptyString
  | S n' => String "0" (zeros n')
  end.

(** Left padding with ['0'] up to [width] characters. *)
Definition zero_pad (width : nat) (s : string) : string :=
  (zeros (width - String.length s) ++ s)%string.

(* ================================================================== *)
(** ** Rounding on exact values *)

(** Round half to even: the rule of the builtin [round] and of the
    [f] presentation type of [format]. *)
Definition round_half_even (q : Q) : Z :=
  let f := Qfloor q in
  let r := (q - inject_Z f)%Q in
  match Qcompare r (1 # 2) with
  | Lt => f
  | Gt => (f + 1)%Z
  | Eq => if Z.even f then f else (f + 1)%Z
  end.

(** The digits of [format(x, ".<d>f")] for a finite [x] of absolute value
    [a], with [neg] telling whether a sign is printed. *)
Definition format_fixed_digits (d : nat) (neg : bool) (a : Q) : string :=
  let scale := (10 ^ Z.of_nat d)%Z in
  let n := round_half_even (a * inject_Z scale) in
  ((if neg then "-" else "")
   ++ str_of_int (n / scale)
   ++ match d with
      | O => ""
      | S _ => "." ++ zero_pad d (str_of_int (n mod scale))
      end)%string.

(* ================================================================== *)
(** ** The numbers of the program *)

Class Number (T : Type) : Type := {
  add : T -> T -> T;
  sub : T -> T -> T;
  mul : T -> T -> T;
  (** True division.  Every division of the program is by a constant, by a
      loop index that is at least 1, or behind a guard that its divisor is
      positive, so [ZeroDivisionError] is not modelled. *)
  div : T -> T -> T;
  leb : T -> T -> bool;
  ltb : T -> T -> bool;
  eqb : T -> T -> bool;
  (** An [int] operand promoted in mixed arithmetic. *)
  of_int : Z -> T;
  (** The value of a decimal literal of the source text. *)
  literal : Q -> T;
  (** [math.floor]. *)
  math_floor : T -> result Z;
  (** [round] with one argument. *)
  py_round : T -> result Z;
  (** [format(x, ".<d>f")]. *)
  format_fixed : nat -> T -> string
}.

(** The reference arithmetic: exact rationals, which the interpreter does
    not compute with. *)
Module Exact.

Definition lt_bool (x y : Q) : bool := negb (Qle_bool y x).

Definition format (d : nat) (q : Q) : string :=
  format_fixed_digits d (lt_bool q 0) (Qabs q).

#[global] Instance number : Number Q := {|
  add := Qplus;
  sub := Qminus;
  mul := Qmult;
  div := Qdiv;
  leb := Qle_bool;
  ltb := lt_bool;
  eqb := Qeq_bool;
  of_int := inject_Z;
  literal := fun q => q;
  math_floor := fun q => Ok (Qfloor q);
  py_round := fun q => Ok (round_half_even q);
  format_fixed := format
|}.

End Exact.

Module Binary64.

(** Conversion of an [int], correctly rounded (to nearest, ties to
    even).  The counts of the program are far below [2^53], where it is
    exact; an [int] beyond the range of a float, which the interpreter
    refuses to convert, becomes an infinity here. *)
Definition from_int (z : Z) : float :=
  SF2Prim (binary_normalize prec emax z 0 false).

(** A decimal literal [p/q] denotes the binary64 nearest to it, which is
    the correctly rounded quotient of [p] and [q] when both are exact. *)
Definition from_literal (q : Q) : float :=
  PrimFloat.div (from_int (Qnum q)) (from_int (Zpos (Qden q))).

(** The rational a finite float stands for and its sign bit; the
    exception the integer conversions raise otherwise. *)
Definition exact_value (x : float) : result (bool * Q) :=
  match Prim2SF x with
  | S754_zero s => Ok (s, inject_Z 0)
  | S754_finite s m e =>
      let n := if s then Zneg m else Zpos m in
      Ok (s, match e with
             | Z0 => inject_Z n
             | Zpos k => inject_Z (n * Z.pow_pos 2 k)
             | Zneg k => Qmake n (Pos.pow 2 k)
             end)
  | S754_infinity _ => Raise OverflowError
  | S754_nan => Raise ValueError
  end.

Definition floor (x : float) : result Z :=
  match exact_value x with
  | Ok (_, q) => Ok (Qfloor q)
  | Raise e => Raise e
  end.

Definition round (x : float) : result Z :=
  match exact_value x with
  | Ok (_, q) => Ok (round_half_even q)
  | Raise e => Raise e
  end.

Definition format (d : nat) (x : float) : string :=
  match Prim2SF x with
  | S754_nan => "nan"
  | S754_infinity s => if s then "-inf" else "inf"
  | _ =>
      match exact_value x with
      | Ok (s, q) => format_fixed_digits d s (Qabs q)
      | Raise _ => ""
      end
  end.

#[global] Instance number : Number float := {|
  add := PrimFloat.add;
  sub := PrimFloat.sub;
  mul := PrimFloat.mul;
  div := PrimFloat.div;
  leb := PrimFloat.leb;
  ltb := PrimFloat.ltb;
  eqb := PrimFloat.eqb;
  of_int := from_int;
  literal := from_literal;
  math_floor := floor;
  py_round := round;
  format_fixed := format
|}.

End Binary64.

Notation "x + y" := (add x y) : py_scope.
Notation "x - y" := (sub x y) : py_scope.
Notation "x * y" := (mul x y) : py_scope.
Notation "x / y" := (div x y) : py_scope.
Notation "x <=? y" := (leb x y) : py_scope.
Notation "x <? y" := (ltb x y) : py_scope.
Notation "x =? y" := (eqb x y) : py_scope.

Open Scope string_scope.

(* ================================================================== *)
(** ** Constants *)

Definition Z_MIN : Z := 70.
Definition Z_MAX : Z := 140.
Definition TOTAL_CYLINDER_WIDTH : Z := 200.
Definition WORKING_WIDTH : Z := 190.
Definition WIDTH_GAP : Z := 5.
Definition WIDTH_WASTE : Z := 10.
Definition MAX_MATERIAL_WIDTH : Z := 200.
Definition SETUP_TIME_PER_COLOR_OR_BASE : Z := 30.
Definition CLEANUP_TIME_MIN : Z := 30.
Definition MACHINE_SPEED_DEFAULT : Z := 30.
Definition MACHINE_SPEED_MIN : Z := 10.
Definition MACHINE_SPEED_MAX : Z := 120.

Section Program.

Context {T : Type} {num : Number T}.

Local Open Scope py_scope.

Definition PITCH : T := literal 3.175.
Definition GAP_MIN : T := literal 2.5.
Definition GAP_MAX : T := literal 4.0.
Definition BASE_WASTE_LENGTH : T := literal 50.0.
Definition WASTE_LENGTH_PER_COLOR : T := literal 50.0.
Definition GRAMS_INK_PER_M2 : T := literal 3.0.
Definition GRAMS_VARNISH_PER_M2 : T := literal 4.0.

(** The tolerance [1e-9], written three times in the source. *)
Definition tolerance : T := literal 1e-9.

(* ---------------------------------------------------------------- *)
(** *** Geometry search *)

(** The dictionary appended to [valid_solutions]. *)
Record Solution : Type := {
  number_of_teeth_Z : Z;
  circumference_mm : T;
  templates_N_circumference : Z;
  gap_G_circumference_mm : T
}.

(** The test on the gap, a chained comparison. *)
Definition gap_accepted (gap_G_circumference : T) : bool :=
  ((GAP_MIN - tolerance) <=? gap_G_circumference)
  && (gap_G_circumference <=? (GAP_MAX + tolerance)).

(** One pass of the inner loop body, for repeat count [n]. *)
Definition try_repeat (template_width_W : T) (z : Z) (circumference_C : T)
  (n : Z) : list Solution :=
  if (n =? 0)%Z then []
  else
    let gap_G_circumference :=
      (circumference_C / of_int n) - template_width_W in
    if gap_accepted gap_G_circumference
    then [ {| number_of_teeth_Z := z;
              circumference_mm := circumference_C;
              templates_N_circumference := n;
              gap_G_circumference_mm := gap_G_circumference |} ]
    else [].

(** One pass of the outer loop body, for tooth count [z]: the solutions
    it appends. *)
Definition try_teeth (template_width_W : T) (z : Z)
  : result (list Solution) :=
  let circumference_C := of_int z * PITCH in
  if (template_width_W + GAP_MIN) <=? tolerance then Ok []
  else
    n_max_possible <-
      math_floor (circumference_C / (template_width_W + GAP_MIN)) ;;
    Ok (flat_map (try_repeat template_width_W z circumference_C)
          (range 1 (n_max_possible + 1))).

(** [valid_solutions] when the outer loop ends. *)
Definition enumerate_solutions (template_width_W : T)
  : result (list Solution) :=
  per_z <- for_each (try_teeth template_width_W) (range Z_MIN (Z_MAX + 1)) ;;
  Ok (concat per_z).

(** The sort key [(Z, -N)] and the order of Python tuples on it. *)
Definition sort_key (s : Solution) : Z * Z :=
  (number_of_teeth_Z s, (- templates_N_circumference s)%Z).

Definition key_lt (a b : Z * Z) : bool :=
  if (fst a =? fst b)%Z then (snd a <? snd b)%Z else (fst a <? fst b)%Z.

(** [list.sort(key=...)] is a stable sort: elements with equal keys keep
    their order.  Insertion from the right end, each element going in
    front of the first one that is not smaller, is stable.  The collected
    solutions have pairwise different keys, so every sorting method gives
    the same list ([sort_by_key_canonical] below). *)
Fixpoint insert_by_key (x : Solution) (l : list Solution) : list Solution :=
  match l with
  | [] => [x]
  | y :: l' =>
      if key_lt (sort_key y) (sort_key x)
      then y :: insert_by_key x l'
      else x :: l
  end.

Definition sort_by_key (l : list Solution) : list Solution :=
  fold_right insert_by_key [] l.

Definition no_cylinder_message (template_width_W : T) : string :=
  "No cylinder found (" ++ str_of_int Z_MIN ++ "-" ++ str_of_int Z_MAX
  ++ " teeth) for W=" ++ format_fixed 3 template_width_W
  ++ "mm with G=" ++ format_fixed 1 GAP_MIN ++ "-"
  ++ format_fixed 1 GAP_MAX ++ "mm.".

Definition find_cylinder_specifications (template_width_W : T)
  : result (option Solution * list Solution * string) :=
  if template_width_W <=? of_int 0
  then Ok (None, [], "Error: Template width must be > 0.")
  else
    valid_solutions <- enumerate_solutions template_width_W ;;
    match valid_solutions with
    | [] => Ok (None, [], no_cylinder_message template_width_W)
    | _ :: _ =>
        let sorted := sort_by_key valid_solutions in
        Ok (hd_error sorted, sorted, "Circumference calculation OK.")
    end.

(* ---------------------------------------------------------------- *)
(** *** Width layout *)

Definition calculate_number_across_width
  (template_height_H working_width width_gap : T) : result Z :=
  if template_height_H <=? of_int 0 then Ok 0%Z
  else if working_width <? template_height_H then Ok 0%Z
  else if (template_height_H <=? working_width)
          && (working_width <? (template_height_H * of_int 2 + width_gap))
  then Ok 1%Z
  else
    let denominator := template_height_H + width_gap in
    if denominator <=? tolerance then Ok 0%Z
    else math_floor ((working_width + width_gap) / denominator).

Definition calculate_material_width (number_across_width_y : Z)
  (template_height_H width_gap width_waste : T) : T :=
  if (number_across_width_y <=? 0)%Z then of_int 0
  else
    let total_template_width :=
      of_int number_across_width_y * template_height_H in
    let total_gap_width :=
      of_int (Z.max 0 (number_across_width_y - 1)) * width_gap in
    total_template_width + total_gap_width + width_waste.

(* ---------------------------------------------------------------- *)
(** *** Time formatting *)

Definition format_time (total_minutes : T) : result string :=
  if total_minutes <? of_int 0 then Ok "N/A"
  else
    total_minutes <- py_round total_minutes ;;
    if (total_minutes =? 0)%Z then Ok "0 min"
    else if (total_minutes <? 60)%Z
    then Ok (str_of_int total_minutes ++ " min")
    else
      let hours := (total_minutes / 60)%Z in
      let minutes := (total_minutes mod 60)%Z in
      if (minutes =? 0)%Z then Ok (str_of_int hours ++ " h")
      else Ok (str_of_int hours ++ " h " ++ str_of_int minutes ++ " min").

(* ---------------------------------------------------------------- *)
(** *** The costing pipeline *)

(** The options of the tool radio button. *)
Inductive ToolKey : Type :=
| ToolNone
| Semirotary
| Rotary.

(** Everything the script reads from the sidebar.  Each price widget
    writes its value back to the session state before the calculation,
    so the session price read later is the widget's value. *)
Record Inputs : Type := {
  template_width_W_input : T;
  template_height_H_input : T;
  quantity_input : Z;
  is_blank : bool;
  num_colors_input : Z;
  is_uv_varnish_input : bool;
  ink_price_per_kg : T;
  varnish_price_per_kg : T;
  plate_price_per_color : T;
  machine_speed_m_min : Z;
  machine_labor_price_per_hour : T;
  selected_tool_key : ToolKey;
  tool_price_semirotary : T;
  tool_price_rotary : T;
  selected_material : string;
  price_per_m2_input : T;
  profit_coefficient_input : T
}.

(** The variables of the calculation that later steps or the display
    read. *)
Record Quote : Type := {
  number_across_width_y : Z;
  number_circumference_x : Z;
  total_templates_per_cycle : Z;
  valid_num_colors_for_calc : Z;
  required_material_width_mm : T;
  material_width_exceeded : bool;
  total_production_length_m : T;
  total_production_area_m2 : T;
  production_consumption_message : string;
  waste_length_m : T;
  num_colors_for_waste_time : Z;
  waste_area_m2 : T;
  total_final_length_m : T;
  total_final_area_m2 : T;
  setup_time_min : Z;
  production_time_min : T;
  cleanup_time_min : Z;
  total_time_min : T;
  total_ink_varnish_cost_rsd : T;
  total_plate_cost_rsd : T;
  total_material_cost_rsd : T;
  total_machine_labor_cost_rsd : T;
  total_tool_cost_rsd : T;
  total_production_cost_rsd : T;
  profit_rsd : T;
  total_selling_price_rsd : T;
  selling_price_per_piece_rsd : T
}.

(** Truth value of a number: it is not zero. *)
Definition truthy (x : T) : bool := negb (x =? of_int 0).

Definition inputs_valid (i : Inputs) : bool :=
  truthy (template_width_W_input i)
  && truthy (template_height_H_input i)
  && (0 <? quantity_input i)%Z
  && negb (machine_speed_m_min i =? 0)%Z
  && negb (String.eqb (selected_material i) "").

(** Step 5, the colour count and the waste length. *)
Definition colors_for_calc (blank : bool) (num_colors : Z) : Z :=
  if blank then 0%Z
  else if (1 <=? num_colors)%Z then num_colors else 1%Z.

Definition colors_for_waste_time (blank : bool) (num_colors : Z) : Z :=
  if blank then 1%Z else colors_for_calc blank num_colors.

Definition waste_length (blank : bool) (num_colors : Z) : T :=
  if blank then BASE_WASTE_LENGTH
  else BASE_WASTE_LENGTH
       + (of_int (colors_for_calc blank num_colors) * WASTE_LENGTH_PER_COLOR).

(** Step 7, the set-up time. *)
Definition setup_time (blank : bool) (num_colors : Z) : Z :=
  (colors_for_waste_time blank num_colors * SETUP_TIME_PER_COLOR_OR_BASE)%Z.

(** Step 10. *)
Definition material_cost (total_final_area price_per_m2 : T) : T :=
  if (of_int 0 <? total_final_area) && (of_int 0 <=? price_per_m2)
  then total_final_area * price_per_m2
  else literal 0.0.

(** Step 11. *)
Definition machine_labor_cost (total_time labor_price_per_hour : T) : T :=
  if (of_int 0 <? total_time) && (of_int 0 <=? labor_price_per_hour)
  then (total_time / literal 60.0) * labor_price_per_hour
  else literal 0.0.

(** Step 14. *)
Definition profit (total_material_cost profit_coefficient : T) : T :=
  if (of_int 0 <? total_material_cost) && (of_int 0 <? profit_coefficient)
  then total_material_cost * profit_coefficient
  else literal 0.0.

(** The body of [if best_circumference_solution:], steps 1 to 15. *)
Definition compute_quote (i : Inputs) (best : Solution) (y : Z) : Quote :=
  let W := template_width_W_input i in
  let H := template_height_H_input i in
  let x := templates_N_circumference best in
  let gap_G := gap_G_circumference_mm best in
  let colors := colors_for_calc (is_blank i) (num_colors_input i) in
  (* 3 *)
  let required_width :=
    calculate_material_width y H (of_int WIDTH_GAP) (of_int WIDTH_WASTE) in
  (* 4 *)
  let production_length :=
    if (0 <? y)%Z
    then (of_int (quantity_input i) / of_int y) * (W + gap_G) / of_int 1000
    else literal 0.0 in
  let production_area :=
    if (of_int 0 <? required_width) && (0 <? y)%Z
    then production_length * (required_width / of_int 1000)
    else literal 0.0 in
  let consumption_message :=
    if (of_int 0 <? required_width) && (0 <? y)%Z then ""
    else if (0 <? y)%Z then "Width=0, area N/A."
    else "y=0, consumption N/A." in
  (* 5 *)
  let waste_len := waste_length (is_blank i) (num_colors_input i) in
  let waste_area :=
    if of_int 0 <? required_width
    then waste_len * (required_width / of_int 1000)
    else literal 0.0 in
  (* 6 *)
  let final_length := production_length + waste_len in
  let final_area := production_area + waste_area in
  (* 7 *)
  let setup := setup_time (is_blank i) (num_colors_input i) in
  let production_time :=
    if (of_int 0 <? production_length) && (0 <? machine_speed_m_min i)%Z
    then production_length / of_int (machine_speed_m_min i)
    else literal 0.0 in
  let total_time :=
    of_int setup + production_time + of_int CLEANUP_TIME_MIN in
  (* 8 *)
  let ink_cost :=
    if negb (is_blank i) && (0 <? colors)%Z && (of_int 0 <? production_area)
    then (production_area * of_int colors * GRAMS_INK_PER_M2)
         / literal 1000.0 * ink_price_per_kg i
    else literal 0.0 in
  let varnish_cost :=
    if is_uv_varnish_input i && (of_int 0 <? production_area)
    then (production_area * GRAMS_VARNISH_PER_M2)
         / literal 1000.0 * varnish_price_per_kg i
    else literal 0.0 in
  let ink_varnish := ink_cost + varnish_cost in
  (* 9 *)
  let plate_cost :=
    if negb (is_blank i) && (0 <? colors)%Z
    then of_int colors * plate_price_per_color i
    else literal 0.0 in
  (* 10, 11 *)
  let material := material_cost final_area (price_per_m2_input i) in
  let labor := machine_labor_cost total_time (machine_labor_price_per_hour i) in
  (* 12 *)
  let tool_cost :=
    match selected_tool_key i with
    | Semirotary => tool_price_semirotary i
    | Rotary => tool_price_rotary i
    | ToolNone => literal 0.0
    end in
  (* 13, 14, 15 *)
  let production_cost :=
    ink_varnish + plate_cost + material + labor + tool_cost in
  let profit_value := profit material (profit_coefficient_input i) in
  let selling_price := production_cost + profit_value in
  {| number_across_width_y := y;
     number_circumference_x := x;
     total_templates_per_cycle := (y * x)%Z;
     valid_num_colors_for_calc := colors;
     required_material_width_mm := required_width;
     material_width_exceeded := of_int MAX_MATERIAL_WIDTH <? required_width;
     total_production_length_m := production_length;
     total_production_area_m2 := production_area;
     production_consumption_message := consumption_message;
     waste_length_m := waste_len;
     num_colors_for_waste_time :=
       colors_for_waste_time (is_blank i) (num_colors_input i);
     waste_area_m2 := waste_area;
     total_final_length_m := final_length;
     total_final_area_m2 := final_area;
     setup_time_min := setup;
     production_time_min := production_time;
     cleanup_time_min := CLEANUP_TIME_MIN;
     total_time_min := total_time;
     total_ink_varnish_cost_rsd := ink_varnish;
     total_plate_cost_rsd := plate_cost;
     total_material_cost_rsd := material;
     total_machine_labor_cost_rsd := labor;
     total_tool_cost_rsd := tool_cost;
     total_production_cost_rsd := production_cost;
     profit_rsd := profit_value;
     total_selling_price_rsd := selling_price;
     selling_price_per_piece_rsd :=
       if (0 <? quantity_input i)%Z
       then selling_price / of_int (quantity_input i)
       else literal 0.0 |}.

(** What one run of the script shows. *)
Inductive Page : Type :=
| Results (best : Solution) (all : list Solution) (q : Quote)
| ShowError (error_msg : string)
| ShowWarning (error_msg : string)
| EnterParameters.

Definition calculation (i : Inputs) : result Page :=
  if inputs_valid i then
    found <- find_cylinder_specifications (template_width_W_input i) ;;
    let '(best_circumference_solution, all_circumference_solutions,
          circumference_message) := found in
    y <- calculate_number_across_width (template_height_H_input i)
           (of_int WORKING_WIDTH) (of_int WIDTH_GAP) ;;
    match best_circumference_solution with
    | Some best =>
        Ok (Results best all_circumference_solutions (compute_quote i best y))
    | None =>
        let error_msg :=
          if negb (String.eqb circumference_message "")
             && str_in "No cylinder found" circumference_message
          then no_cylinder_message (template_width_W_input i)
          else "Calculation error: " ++ circumference_message in
        if str_in "Error" circumference_message
        then Ok (ShowError error_msg)
        else Ok (ShowWarning error_msg)
    end
  else Ok EnterParameters.

End Program.

Arguments Solution T : clear implicits.
Arguments Inputs T : clear implicits.
Arguments Quote T : clear implicits.
Arguments Page T : clear implicits.

(* ================================================================== *)
(** ** Vocabulary of the properties *)

Section Vocabulary.

Context {T : Type} {num : Number T}.

Local Open Scope py_scope.

(** What the double loop appends for width [W]: the pairs [(z, n)] with
    [z] a tooth count of the range, [n] between 1 and the bound computed
    for [z], and an accepted gap. *)
Definition enumerated (W : T) (s : Solution T) : Prop :=
  let z := number_of_teeth_Z s in
  let n := templates_N_circumference s in
  (Z_MIN <= z <= Z_MAX)%Z
  /\ ((W + GAP_MIN) <=? tolerance) = false
  /\ (exists n_max, math_floor (of_int z * PITCH / (W + GAP_MIN)) = Ok n_max
                    /\ (1 <= n <= n_max)%Z)
  /\ circumference_mm s = of_int z * PITCH
  /\ gap_G_circumference_mm s = circumference_mm s / of_int n - W
  /\ gap_accepted (gap_G_circumference_mm s) = true.

(** [a] may stand before [b] in a list sorted by [Z] ascending, then by
    [N] descending. *)
Definition before (a b : Solution T) : Prop :=
  (number_of_teeth_Z a < number_of_teeth_Z b)%Z
  \/ (number_of_teeth_Z a = number_of_teeth_Z b
      /\ (templates_N_circumference b <= templates_N_circumference a)%Z).

(** The order in which the double loop appends: by [Z] ascending, then by
    [N] ascending. *)
Definition enumerated_before (a b : Solution T) : Prop :=
  (number_of_teeth_Z a < number_of_teeth_Z b)%Z
  \/ (number_of_teeth_Z a = number_of_teeth_Z b
      /\ (templates_N_circumference a < templates_N_circumference b)%Z).

(** [before] between solutions of different pairs. *)
Definition strictly_before (a b : Solution T) : Prop :=
  (number_of_teeth_Z a < number_of_teeth_Z b)%Z
  \/ (number_of_teeth_Z a = number_of_teeth_Z b
      /\ (templates_N_circumference b < templates_N_circumference a)%Z).

(** The diagnostic of a width that is not positive. *)
Definition width_error : string := "Error: Template width must be > 0.".

(** The Cylinder Solution of the pair [(z, n)] for width [W]. *)
Definition solution_of (W : T) (z n : Z) : Solution T :=
  let circumference_C := of_int z * PITCH in
  {| number_of_teeth_Z := z;
     circumference_mm := circumference_C;
     templates_N_circumference := n;
     gap_G_circumference_mm := circumference_C / of_int n - W |}.

(** Completeness as the specification words it: every pair of a tooth
    count of the range and a repeat count of at least 1 whose gap passes
    the tolerance test is in the returned sequence. *)
Definition returns_every_accepted_pair (W : T) : Prop :=
  forall z n : Z,
    (Z_MIN <= z <= Z_MAX)%Z -> (1 <= n)%Z ->
    gap_accepted (of_int z * PITCH / of_int n - W) = true ->
    exists best sols msg,
      find_cylinder_specifications W = Ok (best, sols, msg)
      /\ In (solution_of W z n) sols.

(** The Solution Set as the specification defines it: the pairs of a
    tooth count of the range and a repeat count of at least 1 whose gap
    passes the tolerance test. *)
Definition in_solution_set (W : T) (z n : Z) : Prop :=
  (Z_MIN <= z <= Z_MAX)%Z /\ (1 <= n)%Z
  /\ gap_accepted (of_int z * PITCH / of_int n - W) = true.

(** The selection as the specification words it: when the Solution Set is
    not empty, a best solution is returned, it is an element of the
    Solution Set, and no element has a smaller tooth count or, at its
    tooth count, a greater repeat count. *)
Definition best_is_least_of_solution_set (W : T) : Prop :=
  forall z n : Z,
    in_solution_set W z n ->
    exists best sols msg,
      find_cylinder_specifications W = Ok (Some best, sols, msg)
      /\ in_solution_set W (number_of_teeth_Z best)
           (templates_N_circumference best)
      /\ ((number_of_teeth_Z best < z)%Z
          \/ (number_of_teeth_Z best = z
              /\ (n <= templates_N_circumference best)%Z)).

(** The layout count as the specification words it: 0 when the label
    does not fit, 1 when one fits and two do not, the quotient of the
    packing formula otherwise. *)
Definition number_across_width_spec (H usable_width width_gap : T)
  : result Z :=
  if (H <=? of_int 0) || (usable_width <? H) then Ok 0%Z
  else if usable_width <? (H * of_int 2 + width_gap) then Ok 1%Z
  else math_floor ((usable_width + width_gap) / (H + width_gap)).

(** Monotonicity of the layout count as the specification words it. *)
Definition number_across_width_non_increasing : Prop :=
  forall H1 H2 usable_width width_gap : T,
    (H1 <=? H2) = true ->
    forall n1 n2 : Z,
      calculate_number_across_width H1 usable_width width_gap = Ok n1 ->
      calculate_number_across_width H2 usable_width width_gap = Ok n2 ->
      (n2 <= n1)%Z.

End Vocabulary.

(** The search on binary64 for the width 76.0, the default of the width
    field. *)
Definition solutions_76 : list (Solution float) :=
  Eval vm_compute in
    match find_cylinder_specifications 76%float with
    | Ok (_, sols, _) => sols
    | Raise _ => []
    end.

(** The values the sidebar starts with, for a blank job or a job in
    [colors] colours. *)
Definition default_inputs (blank : bool) (colors : Z) : Inputs float :=
  {| template_width_W_input := 76%float;
     template_height_H_input := 76%float;
     quantity_input := 100000;
     is_blank := blank;
     num_colors_input := colors;
     is_uv_varnish_input := false;
     ink_price_per_kg := 2350%float;
     varnish_price_per_kg := 1800%float;
     plate_price_per_color := 2000%float;
     machine_speed_m_min := MACHINE_SPEED_DEFAULT;
     machine_labor_price_per_hour := 3000%float;
     selected_tool_key := ToolNone;
     tool_price_semirotary := 6000%float;
     tool_price_rotary := 8000%float;
     selected_material := "Paper (chrome)";
     price_per_m2_input := Binary64.from_literal 39.95;
     profit_coefficient_input := Binary64.from_literal 0.20 |}.

(** The sidebar's starting values with a material price and a labour price
    below zero, which the price fields themselves do not let through. *)
Definition negative_price_inputs : Inputs float :=
  {| template_width_W_input := 76%float;
     template_height_H_input := 76%float;
     quantity_input := 100000;
     is_blank := false;
     num_colors_input := 1;
     is_uv_varnish_input := false;
     ink_price_per_kg := 2350%float;
     varnish_price_per_kg := 1800%float;
     plate_price_per_color := 2000%float;
     machine_speed_m_min := MACHINE_SPEED_DEFAULT;
     machine_labor_price_per_hour := (-3000)%float;
     selected_tool_key := ToolNone;
     tool_price_semirotary := 6000%float;
     tool_price_rotary := 8000%float;
     selected_material := "Paper (chrome)";
     price_per_m2_input := (-40)%float;
     profit_coefficient_input := Binary64.from_literal 0.20 |}.

(** Widths at which a pair whose gap is the least allowed gap is lost.
    For 149.9 the pair (96, 2) has circumference 304.8, a repeat length of
    152.4 and a gap of exactly 2.5; for 86.4 the pair (84, 3) has
    circumference 266.7, a repeat length of 88.9 and a gap of exactly
    2.5. *)
Definition width_149_9 : float := Binary64.from_literal 149.9.
Definition width_86_4 : float := Binary64.from_literal 86.4.

(** A width just above 219.75: the pair (70, 1) has the gap
    222.25 - W, which is below [GAP_MIN] by about 5e-10 and passes the
    tolerance test, but the bound [floor(222.25 / (W + GAP_MIN))] is 0, so
    the inner loop never reaches [n = 1]. *)
Definition width_below_bound : float :=
  Binary64.from_literal 219.7500000005.

(** A height of half a nanometre with no gap between labels: the label
    fits 380000000000 times by the packing formula, and the guard on the
    denominator answers 0. *)
Definition height_below_tolerance : float := Binary64.from_literal 5e-10.

(** *** Signs of binary64 values *)

(** Zero of either sign, NaN, or a value with a clear sign bit: what is
    not below zero. *)
Definition sign_clear (x : spec_float) : Prop :=
  match x with
  | S754_zero _ | S754_nan => True
  | S754_infinity s | S754_finite s _ _ => s = false
  end.

(** A finite value or an infinity above zero. *)
Definition above_zero (x : spec_float) : Prop :=
  match x with
  | S754_zero _ | S754_nan => False
  | S754_infinity s | S754_finite s _ _ => s = false
  end.

(* ================================================================== *)
(** ** The list of alternatives and further vocabulary *)

Section Alternatives.

Context {T : Type} {num : Number T}.

Local Open Scope py_scope.

(** [sol == best] on two solution dictionaries: the same keys, and equal
    values under each key.  The interpreter takes two values that are the
    same object for equal before it compares them, which differs from [=?]
    on a NaN only; no returned circumference or gap is one (shown with
    [other_solutions_are_the_rest]). *)
Definition solution_eqb (a b : Solution T) : bool :=
  (number_of_teeth_Z a =? number_of_teeth_Z b)%Z
  && (circumference_mm a =? circumference_mm b)
  && (templates_N_circumference a =? templates_N_circumference b)%Z
  && (gap_G_circumference_mm a =? gap_G_circumference_mm b).

(** [[sol for sol in all_circumference_solutions if sol !=
    best_circumference_solution]], the rows of the table of other possible
    solutions. *)
Definition other_solutions_data (best : Solution T)
  (all_circumference_solutions : list (Solution T)) : list (Solution T) :=
  filter (fun sol => negb (solution_eqb sol best)) all_circumference_solutions.

(** What a page of the script tells about the inputs it was computed
    from. *)
Definition page_explained (i : Inputs T) (page : Page T) : Prop :=
  let W := template_width_W_input i in
  match page with
  | EnterParameters => inputs_valid i = false
  | ShowError error_msg =>
      inputs_valid i = true
      /\ (W <=? of_int 0) = true
      /\ error_msg = "Calculation error: Error: Template width must be > 0."
  | ShowWarning error_msg =>
      inputs_valid i = true
      /\ (W <=? of_int 0) = false
      /\ find_cylinder_specifications W = Ok (None, [], error_msg)
      /\ error_msg = no_cylinder_message W
  | Results best all q =>
      inputs_valid i = true
      /\ (W <=? of_int 0) = false
      /\ find_cylinder_specifications W
         = Ok (Some best, all, "Circumference calculation OK.")
      /\ exists y : Z,
          calculate_number_across_width (template_height_H_input i)
            (of_int WORKING_WIDTH) (of_int WIDTH_GAP) = Ok y
          /\ q = compute_quote i best y
  end.

(** Section 3 of the details, under its two metrics: the warning that is
    shown, if one is. *)
Definition production_warning (q : Quote T) : option string :=
  let msg := production_consumption_message q in
  if (0 <? number_across_width_y q)%Z
  then if negb (String.eqb msg "") && negb (str_in "N/A" msg)
       then Some msg else None
  else Some msg.

End Alternatives.

(* ---------------------------------------------------------------- *)
(** *** The material prices of the session *)

Section Materials.

Context {T : Type} {num : Number T}.

Local Open Scope py_scope.

(** A dictionary with string keys, in insertion order. *)
Definition dict : Type := list (string * T).

(** [d.get(k, default)]. *)
Fixpoint dict_get (d : dict) (k : string) (default : T) : T :=
  match d with
  | [] => default
  | (k', v) :: rest => if String.eqb k' k then v else dict_get rest k default
  end.

(** [d[k] = v]: the value under an existing key is replaced in place, a
    new key is added at the end. *)
Fixpoint dict_set (d : dict) (k : string) (v : T) : dict :=
  match d with
  | [] => [(k, v)]
  | (k', v') :: rest =>
      if String.eqb k' k then (k', v) :: rest
      else (k', v') :: dict_set rest k v
  end.

(** [list(d.keys())]. *)
Definition dict_keys (d : dict) : list string := map fst d.

Definition DEFAULT_MATERIALS_PRICES : dict :=
  [("Paper (chrome)", literal 39.95);
   ("Plastic (PPW)", literal 54.05);
   ("Thermal Paper", literal 49.35)].

(** The material block of the sidebar in one run of the script, on the
    material prices [d] of the session: the select box offers the keys and
    gives the one chosen ([None] when there is none to choose), the price
    field gives [price_per_m2_input], and a price that differs from the
    stored one is written back.  The result is the selected material and
    the material prices after the run. *)
Definition material_block (d : dict) (choice : nat) (price_per_m2_input : T)
  : option string * dict :=
  let material_list := dict_keys d in
  match nth_error material_list choice with
  | None => (None, d)
  | Some selected_material =>
      let current_material_price :=
        dict_get d selected_material (literal 0.0) in
      (Some selected_material,
       if negb (price_per_m2_input =? current_material_price)
       then dict_set d selected_material price_per_m2_input
       else d)
  end.

(** The material prices after a sequence of runs, each with a choice and
    a price, starting from a copy of the defaults. *)
Definition material_prices_after (runs : list (nat * T)) : dict :=
  fold_left (fun d run => snd (material_block d (fst run) (snd run))) runs
    DEFAULT_MATERIALS_PRICES.

End Materials.

(** The text [format_time] makes of the rounded count. *)
Definition format_minutes (total_minutes : Z) : string :=
  if (total_minutes =? 0)%Z then "0 min"
  else if (total_minutes <? 60)%Z
  then str_of_int total_minutes ++ " min"
  else
    let hours := (total_minutes / 60)%Z in
    let minutes := (total_minutes mod 60)%Z in
    if (minutes =? 0)%Z then str_of_int hours ++ " h"
    else str_of_int hours ++ " h " ++ str_of_int minutes ++ " min".

(** [c in s] for a character [c]. *)
Fixpoint has_char (c : ascii) (s : string) : bool :=
  match s with
  | EmptyString => false
  | String a rest => Ascii.eqb a c || has_char c rest
  end.

(** The characters a formatted number is made of. *)
Definition number_chars : string := "0123456789-.naif".

(** The sidebar's starting values with another label width and height. *)
Definition inputs_of_size (W H : float) : Inputs float :=
  {| template_width_W_input := W;
     template_height_H_input := H;
     quantity_input := 100000;
     is_blank := false;
     num_colors_input := 1;
     is_uv_varnish_input := false;
     ink_price_per_kg := 2350%float;
     varnish_price_per_kg := 1800%float;
     plate_price_per_color := 2000%float;
     machine_speed_m_min := MACHINE_SPEED_DEFAULT;
     machine_labor_price_per_hour := 3000%float;
     selected_tool_key := ToolNone;
     tool_price_semirotary := 6000%float;
     tool_price_rotary := 8000%float;
     selected_material := "Paper (chrome)";
     price_per_m2_input := Binary64.from_literal 39.95;
     profit_coefficient_input := Binary64.from_literal 0.20 |}.

(** A height just above 60, for which rounding decides the layout. *)
Definition height_60_up : float := Binary64.from_literal 60.00000000000001.

(* ================================================================== *)
(** ** Binary64: the values of the floats and their rounding *)

(** Powers of two, of any integer exponent. *)
Definition bpow (e : Z) : Q := (2 ^ e)%Q.

Arguments bpow : simpl never.

(** The record [(m, r, s)] at exponent [e] tells where [v] lies in the
    step [[m * 2^e, (m + 1) * 2^e)]: on its lower end, in its lower half,
    on its middle or in its upper half. *)
Definition located (v : Q) (e : Z) (mrs : shr_record) : Prop :=
  let lo := (inject_Z (shr_m mrs) * bpow e)%Q in
  match shr_r mrs, shr_s mrs with
  | false, false => (v == lo)%Q
  | false, true => (lo < v < lo + bpow e * (1 # 2))%Q
  | true, false => (v == lo + bpow e * (1 # 2))%Q
  | true, true => (lo + bpow e * (1 # 2) < v < lo + bpow e)%Q
  end.

(** Where [v] lies as a location. *)
Definition located_at (v : Q) (e : Z) (m : Z) (l : location) : Prop :=
  located v e (shr_record_of_loc m l).

(** The end of [binary_round_aux]: the rounded mantissa is brought back
    to its format and the result is built. *)
Definition finish (sx : bool) (m1 e' : Z) : spec_float :=
  let '(mrs'', e'') := shr_fexp prec emax m1 e' loc_Exact in
  match shr_m mrs'' with
  | Z0 => S754_zero sx
  | Zpos m =>
      if (e'' <=? emax - prec)%Z then S754_finite sx m e''
      else S754_infinity sx
  | Zneg _ => S754_nan
  end.

(** The mantissa a positive [v] of binade [k] is rounded to. *)
Definition rounded_mantissa (v : Q) (k : Z) : Z :=
  round_half_even (v / bpow (fexp prec emax k)).

(** The float of a mantissa and an exponent: an infinity when the
    exponent is beyond the format. *)
Definition build (sx : bool) (m e : Z) : spec_float :=
  match m with
  | Z0 => S754_zero sx
  | Zpos p =>
      if (e <=? emax - prec)%Z then S754_finite sx p e
      else S754_infinity sx
  | Zneg _ => S754_nan
  end.

(** The place of a float in the order of the nonnegative ones: its
    value, and [2^1024] for an infinity, which stands above every finite
    float. *)
Definition xval (x : spec_float) : Q :=
  match x with
  | S754_zero _ => 0
  | S754_finite _ m e => inject_Z (Zpos m) * bpow e
  | S754_infinity _ => bpow 1024
  | S754_nan => 0
  end.

(** A zero, a finite float above zero or the infinity above zero. *)
Definition nonneg_float (x : spec_float) : Prop :=
  match x with
  | S754_zero _ | S754_finite false _ _ | S754_infinity false => True
  | _ => False
  end.

(** A finite float above zero or the infinity above zero. *)
Definition pos_float (x : spec_float) : Prop :=
  match x with
  | S754_finite false _ _ | S754_infinity false => True
  | _ => False
  end.

(** A zero or a finite float: what [math.floor] accepts. *)
Definition finite_float (x : spec_float) : Prop :=
  match x with
  | S754_zero _ | S754_finite _ _ _ => True
  | _ => False
  end.

(** A positive [v] of binade [k] rounded to the format, as a rational. *)
Definition rnd (v : Q) (k : Z) : Q :=
  (inject_Z (rounded_mantissa v k) * bpow (fexp prec emax k))%Q.

(** [out] is the float the positive rational [v] is rounded to. *)
Definition rounds_to (v : Q) (out : spec_float) : Prop :=
  exists k : Z,
    (bpow (k - 1) <= v < bpow k)%Q
    /\ out = finish false (rounded_mantissa v k) (fexp prec emax k).

(** The output of a rounding carries the sign it was given. *)
Definition signed_as (sx : bool) (x : spec_float) : Prop :=
  match x with
  | S754_zero s | S754_finite s _ _ | S754_infinity s => s = sx
  | S754_nan => True
  end.

(** The signed value of a finite float. *)
Definition sval (x : spec_float) : Q :=
  match x with
  | S754_finite s m e =>
      if s then (- (inject_Z (Zpos m) * bpow e))%Q
      else (inject_Z (Zpos m) * bpow e)%Q
  | _ => 0
  end.

(** The floats 1.0 and 2.0. *)
Definition float_one : spec_float :=
  S754_finite false 4503599627370496 (-52).

Definition float_two : spec_float :=
  S754_finite false 4503599627370496 (-51).

(** The constants of the layout and of the search as binary64 values. *)
Definition sf_gap : spec_float :=
  Eval vm_compute in Prim2SF (Binary64.from_int WIDTH_GAP).

Definition sf_working_width : spec_float :=
  Eval vm_compute in Prim2SF (Binary64.from_int WORKING_WIDTH).

Definition sf_195 : spec_float :=
  Eval vm_compute in SFadd prec emax sf_working_width sf_gap.

Definition sf_tolerance : spec_float :=
  Eval vm_compute in Prim2SF (@tolerance float Binary64.number).



(* ================================================================== *)
(** * Properties *)

(** ** Loops *)

Lemma in_range (lo hi i : Z) : In i (range lo hi) <-> (lo <= i < hi)%Z.
Proof.
  unfold range. rewrite in_map_iff. split.
  - intros (k & <- & Hk). apply in_seq in Hk. lia.
  - intros Hi. exists (Z.to_nat (i - lo)). split; [lia|].
    apply in_seq. lia.
Qed.

Lemma range_sorted (lo hi : Z) : StronglySorted Z.lt (range lo hi).
Proof.
  unfold range. generalize (Z.to_nat (hi - lo)) as n.
  generalize 0%nat as start. intros start n. revert start.
  induction n as [|n IH]; intros start; simpl.
  - constructor.
  - constructor; [apply IH|].
    apply Forall_forall. intros x Hx. apply in_map_iff in Hx.
    destruct Hx as (i & <- & Hi). apply in_seq in Hi. lia.
Qed.

Lemma sorted_app {A : Type} (R : A -> A -> Prop) (l1 l2 : list A) :
  StronglySorted R l1 -> StronglySorted R l2 ->
  (forall a b, In a l1 -> In b l2 -> R a b) ->
  StronglySorted R (l1 ++ l2).
Proof.
  induction 1 as [|a l1 Hl1 IH Ha]; intros Hl2 Hcross; simpl.
  - assumption.
  - constructor.
    + apply IH; [assumption|]. intros x y Hx Hy. apply Hcross; simpl; auto.
    + apply Forall_app. split; [assumption|].
      apply Forall_forall. intros y Hy. apply Hcross; simpl; auto.
Qed.

Lemma bind_Ok {A B : Type} (c : result A) (k : A -> result B) (b : B) :
  bind c k = Ok b -> exists a, c = Ok a /\ k a = Ok b.
Proof.
  destruct c as [a|e]; simpl; intros H; [eauto | discriminate].
Qed.

Section ForEach.

Context {A B : Type} (body : A -> result B).

Lemma for_each_in_result (l : list A) (bs : list B) :
  for_each body l = Ok bs ->
  forall b, In b bs -> exists a, In a l /\ body a = Ok b.
Proof.
  revert bs. induction l as [|a l IH]; simpl; intros bs H b Hb.
  - injection H as <-. destruct Hb.
  - destruct (body a) as [b0|] eqn:Ea; [|discriminate].
    destruct (for_each body l) as [bs0|] eqn:El; [|discriminate].
    injection H as <-. destruct Hb as [<-|Hb].
    + exists a. auto.
    + destruct (IH bs0 eq_refl b Hb) as (a' & Ha' & Eb). exists a'. auto.
Qed.

Lemma for_each_in_input (l : list A) (bs : list B) :
  for_each body l = Ok bs ->
  forall a, In a l -> exists b, In b bs /\ body a = Ok b.
Proof.
  revert bs. induction l as [|a0 l IH]; simpl; intros bs H a Ha.
  - destruct Ha.
  - destruct (body a0) as [b0|] eqn:Ea; [|discriminate].
    destruct (for_each body l) as [bs0|] eqn:El; [|discriminate].
    injection H as <-. destruct Ha as [<-|Ha].
    + exists b0. simpl. auto.
    + destruct (IH bs0 eq_refl a Ha) as (b & Hb & Eb). exists b. simpl. auto.
Qed.

Lemma for_each_total (l : list A) :
  (forall a, In a l -> exists b, body a = Ok b) ->
  exists bs, for_each body l = Ok bs.
Proof.
  induction l as [|a l IH]; intros H; simpl.
  - eauto.
  - destruct (H a (or_introl eq_refl)) as (b & ->).
    destruct IH as (bs & ->); [intros a' Ha'; apply H; right; assumption|].
    eauto.
Qed.

End ForEach.

(** ** Exact arithmetic: the tests of the code as order on [Q] *)

Lemma Qle_bool_spec (x y : Q) : BoolSpec (x <= y)%Q (y < x)%Q (Qle_bool x y).
Proof.
  destruct (Qle_bool x y) eqn:E; constructor.
  - apply Qle_bool_iff, E.
  - apply Qnot_le_lt. intros H. apply Qle_bool_iff in H. congruence.
Qed.

Lemma exact_leb_spec (x y : Q) :
  BoolSpec (x <= y)%Q (y < x)%Q (@leb Q Exact.number x y).
Proof. exact (Qle_bool_spec x y). Qed.

Lemma exact_ltb_spec (x y : Q) :
  BoolSpec (x < y)%Q (y <= x)%Q (@ltb Q Exact.number x y).
Proof.
  change (BoolSpec (x < y)%Q (y <= x)%Q (negb (Qle_bool y x))).
  destruct (Qle_bool_spec y x); constructor; assumption.
Qed.

Lemma tolerance_pos : (0 < @tolerance Q Exact.number)%Q.
Proof. reflexivity. Qed.

Lemma tolerance_exact : (@tolerance Q Exact.number == 1 # 1000000000)%Q.
Proof. reflexivity. Qed.

Lemma floor_at_least (n : Z) (q : Q) :
  (inject_Z n <= q)%Q -> (n <= Qfloor q)%Z.
Proof. intros H. rewrite <- (Qfloor_Z n). apply Qfloor_resp_le, H. Qed.

Lemma floor_div_antitone (a d1 d2 : Q) :
  (0 <= a)%Q -> (0 < d1)%Q -> (d1 <= d2)%Q ->
  (Qfloor (a / d2) <= Qfloor (a / d1))%Z.
Proof.
  intros Ha Hd1 Hd.
  apply Qfloor_resp_le.
  apply Qle_shift_div_l; [assumption|].
  assert (Hd2 : (0 < d2)%Q) by lra.
  assert (E : (a / d2 * d1 == a * (d1 / d2))%Q) by (field; lra).
  rewrite E.
  assert (Hq : (d1 / d2 <= 1)%Q) by (apply Qle_shift_div_r; lra).
  nra.
Qed.

Lemma GAP_MIN_pos : (0 < @GAP_MIN Q Exact.number)%Q.
Proof. reflexivity. Qed.

Lemma tolerance_below_GAP_MIN :
  (@tolerance Q Exact.number < @GAP_MIN Q Exact.number)%Q.
Proof. reflexivity. Qed.

(** The enumeration bound in exact arithmetic: [n] is at most
    [floor(C / d)] exactly when [C / n] is at least [d]. *)
Lemma exact_bound_iff (C d : Q) (n : Z) :
  (0 < d)%Q -> (1 <= n)%Z ->
  ((n <= Qfloor (C / d))%Z <-> (d <= C / inject_Z n)%Q).
Proof.
  intros Hd Hn.
  assert (Hq : (1 <= inject_Z n)%Q)
    by (change 1%Q with (inject_Z 1); rewrite <- Zle_Qle; exact Hn).
  assert (E1 : (C / d * d == C)%Q) by (field; lra).
  assert (E2 : (C / inject_Z n * inject_Z n == C)%Q) by (field; lra).
  split.
  - intros H. apply Qle_shift_div_l; [lra|].
    assert (H' : (inject_Z n <= C / d)%Q).
    { eapply Qle_trans; [|apply Qfloor_le]. rewrite <- Zle_Qle. exact H. }
    revert Hq H' E1. generalize (C / d)%Q (inject_Z n).
    intros x qn Hq H' E1. nra.
  - intros H. apply floor_at_least. apply Qle_shift_div_l; [assumption|].
    revert Hq H E2. generalize (C / inject_Z n)%Q (inject_Z n).
    intros x qn Hq H E2. nra.
Qed.

(** ** Binary64: the sign of a product and of a quotient *)

Lemma round_aux_sign_clear (mx ex : Z) (lx : location) :
  sign_clear (binary_round_aux prec emax false mx ex lx).
Proof.
  unfold binary_round_aux.
  destruct (shr_fexp prec emax mx ex lx) as [mrs' e'].
  destruct (shr_fexp prec emax _ e' loc_Exact) as [mrs'' e''].
  destruct (shr_m mrs''); simpl; auto.
  destruct (_ <=? _)%Z; simpl; auto.
Qed.

Lemma SFmul_sign_clear (x y : spec_float) :
  sign_clear x -> sign_clear y -> sign_clear (SFmul prec emax x y).
Proof.
  destruct x as [sx|sx| |sx mx ex], y as [sy|sy| |sy my ey]; simpl; auto;
    try (intros -> ->; reflexivity).
  intros -> ->. apply round_aux_sign_clear.
Qed.

Lemma SFdiv_sign_clear (x y : spec_float) :
  sign_clear x -> above_zero y -> sign_clear (SFdiv prec emax x y).
Proof.
  destruct x as [sx|sx| |sx mx ex], y as [sy|sy| |sy my ey]; simpl; auto;
    try contradiction; try (intros -> ->; reflexivity).
  intros -> ->.
  destruct (SFdiv_core_binary prec emax (Z.pos mx) ex (Z.pos my) ey)
    as [[mz ez] lz].
  apply round_aux_sign_clear.
Qed.

Lemma above_zero_sign_clear (x : spec_float) : above_zero x -> sign_clear x.
Proof. destruct x; simpl; auto. Qed.

Lemma ltb_zero_above_zero (x : float) :
  PrimFloat.ltb 0 x = true -> above_zero (Prim2SF x).
Proof.
  rewrite FloatAxioms.ltb_spec. change (Prim2SF 0) with (S754_zero false).
  unfold SFltb.
  destruct (Prim2SF x) as [s|s| |s m e]; simpl; try discriminate;
    destruct s; try discriminate; reflexivity.
Qed.

Lemma leb_zero_sign_clear (x : float) :
  PrimFloat.leb 0 x = true -> sign_clear (Prim2SF x).
Proof.
  rewrite FloatAxioms.leb_spec. change (Prim2SF 0) with (S754_zero false).
  unfold SFleb.
  destruct (Prim2SF x) as [s|s| |s m e]; simpl; try discriminate; auto;
    destruct s; try discriminate; reflexivity.
Qed.

Lemma sign_clear_not_below_zero (x : float) :
  sign_clear (Prim2SF x) -> PrimFloat.ltb x 0 = false.
Proof.
  rewrite FloatAxioms.ltb_spec. change (Prim2SF 0) with (S754_zero false).
  unfold SFltb.
  destruct (Prim2SF x) as [s|s| |s m e]; simpl; auto; intros ->; reflexivity.
Qed.

Lemma not_below_zero_sign_clear (x : float) :
  PrimFloat.ltb x 0 = false -> sign_clear (Prim2SF x).
Proof.
  rewrite FloatAxioms.ltb_spec. change (Prim2SF 0) with (S754_zero false).
  unfold SFltb.
  destruct (Prim2SF x) as [s|s| |s m e]; simpl; auto;
    destruct s; try discriminate; reflexivity.
Qed.

Lemma below_zero_not_leb (x : float) :
  PrimFloat.ltb x 0 = true -> PrimFloat.leb 0 x = false.
Proof.
  rewrite FloatAxioms.ltb_spec, FloatAxioms.leb_spec.
  change (Prim2SF 0) with (S754_zero false).
  unfold SFltb, SFleb.
  destruct (Prim2SF x) as [s|s| |s m e]; simpl; try discriminate;
    destruct s; try discriminate; reflexivity.
Qed.


(** ** The search enumerates exactly the accepted pairs below its bound *)

Section Search.

Context {T : Type} {num : Number T}.

Local Open Scope py_scope.


Lemma in_try_repeat (W : T) (z : Z) (C : T) (n : Z) (s : Solution T) :
  In s (try_repeat W z C n) <->
  n <> 0%Z /\ gap_accepted (C / of_int n - W) = true
  /\ s = {| number_of_teeth_Z := z; circumference_mm := C;
            templates_N_circumference := n;
            gap_G_circumference_mm := C / of_int n - W |}.
Proof.
  unfold try_repeat. destruct (Z.eqb_spec n 0) as [E|E].
  - simpl. split; [tauto | intros (H & _); contradiction].
  - destruct (gap_accepted (C / of_int n - W)) eqn:G; simpl.
    + split.
      * intros [<-|[]]. auto.
      * intros (_ & _ & ->). auto.
    + split; [tauto | intros (_ & H & _); discriminate].
Qed.

Lemma in_try_teeth (W : T) (z : Z) (per : list (Solution T)) (s : Solution T) :
  try_teeth W z = Ok per ->
  (In s per <->
   ((W + GAP_MIN) <=? tolerance) = false
   /\ exists n_max n,
       math_floor (of_int z * PITCH / (W + GAP_MIN)) = Ok n_max
       /\ (1 <= n <= n_max)%Z
       /\ gap_accepted (of_int z * PITCH / of_int n - W) = true
       /\ s = {| number_of_teeth_Z := z;
                 circumference_mm := of_int z * PITCH;
                 templates_N_circumference := n;
                 gap_G_circumference_mm := of_int z * PITCH / of_int n - W |}).
Proof.
  unfold try_teeth.
  destruct ((W + GAP_MIN) <=? tolerance) eqn:Guard.
  - intros H. injection H as <-. simpl.
    split; [tauto | intros (H & _); discriminate].
  - intros H. apply bind_Ok in H. destruct H as (n_max & Hfloor & H).
    injection H as <-. rewrite in_flat_map. split.
    + intros (n & Hn & Hs). apply in_range in Hn.
      apply in_try_repeat in Hs. destruct Hs as (_ & Hgap & ->).
      split; [reflexivity|]. exists n_max, n.
      repeat split; auto; lia.
    + intros (_ & n_max' & n & Hfloor' & Hn & Hgap & ->).
      rewrite Hfloor in Hfloor'. injection Hfloor' as <-.
      exists n. split; [apply in_range; lia|].
      apply in_try_repeat. repeat split; auto. lia.
Qed.

Lemma in_enumerate_solutions (W : T) (sols : list (Solution T))
  (s : Solution T) :
  enumerate_solutions W = Ok sols -> (In s sols <-> enumerated W s).
Proof.
  unfold enumerate_solutions. intros H. apply bind_Ok in H.
  destruct H as (per_z & Hloop & H). injection H as <-.
  rewrite in_concat. split.
  - intros (per & Hper & Hs).
    destruct (for_each_in_result _ _ _ Hloop _ Hper) as (z & Hz & Ez).
    apply in_range in Hz.
    apply (in_try_teeth _ _ _ s) in Ez. apply Ez in Hs.
    destruct Hs as (Guard & n_max & n & Hfloor & Hn & Hgap & ->).
    unfold enumerated; simpl. repeat split; try lia; auto.
    exists n_max. split; [assumption | lia].
  - intros (Hz & Guard & (n_max & Hfloor & Hn) & HC & HG & Hgap).
    assert (Hin : In (number_of_teeth_Z s) (range Z_MIN (Z_MAX + 1)))
      by (apply in_range; lia).
    destruct (for_each_in_input _ _ _ Hloop _ Hin) as (per & Hper & Ez).
    exists per. split; [assumption|].
    apply (in_try_teeth _ _ _ s Ez). split; [assumption|].
    exists n_max, (templates_N_circumference s).
    rewrite HG, HC in Hgap.
    repeat split; try assumption; try lia.
    destruct s as [z C n G]; simpl in *. subst C G. reflexivity.
Qed.

(** The double loop appends in increasing order of [(Z, N)], so no pair
    twice. *)
Lemma try_repeats_sorted (W : T) (z : Z) (C : T) (ns : list Z) :
  StronglySorted Z.lt ns ->
  StronglySorted enumerated_before (flat_map (try_repeat W z C) ns).
Proof.
  induction 1 as [|n ns Hns IH Hn]; simpl.
  - constructor.
  - apply sorted_app; [|assumption|].
    + unfold try_repeat. destruct (n =? 0)%Z; [constructor|].
      destruct (gap_accepted _); repeat constructor.
    + intros a b Ha Hb. apply in_try_repeat in Ha. destruct Ha as (_ & _ & ->).
      apply in_flat_map in Hb. destruct Hb as (m & Hm & Hb).
      apply in_try_repeat in Hb. destruct Hb as (_ & _ & ->).
      rewrite Forall_forall in Hn. specialize (Hn m Hm).
      right. simpl. auto.
Qed.

Lemma try_teeth_sorted (W : T) (z : Z) (per : list (Solution T)) :
  try_teeth W z = Ok per ->
  StronglySorted enumerated_before per
  /\ forall s, In s per -> number_of_teeth_Z s = z.
Proof.
  intros H. split.
  - revert H. unfold try_teeth. destruct (_ <=? _).
    + intros H. injection H as <-. constructor.
    + intros H. apply bind_Ok in H. destruct H as (n_max & _ & H).
      injection H as <-. apply try_repeats_sorted, range_sorted.
  - intros s Hs. apply (in_try_teeth W z per s H) in Hs.
    destruct Hs as (_ & n_max & n & _ & _ & _ & ->). reflexivity.
Qed.

Lemma for_each_teeth_sorted (W : T) (zs : list Z)
  (per_z : list (list (Solution T))) :
  StronglySorted Z.lt zs ->
  for_each (try_teeth W) zs = Ok per_z ->
  StronglySorted enumerated_before (concat per_z)
  /\ forall s, In s (concat per_z) -> In (number_of_teeth_Z s) zs.
Proof.
  intros Hzs. revert per_z.
  induction Hzs as [|z zs Hzs IH Hz]; simpl; intros per_z H.
  - injection H as <-. simpl. split; [constructor | tauto].
  - destruct (try_teeth W z) as [per|] eqn:Ez; [|discriminate].
    destruct (for_each (try_teeth W) zs) as [rest|] eqn:Er; [|discriminate].
    injection H as <-. simpl.
    destruct (try_teeth_sorted W z per Ez) as (Hper & Hzper).
    destruct (IH rest eq_refl) as (Hrest & Hzrest).
    split.
    + apply sorted_app; try assumption.
      intros a b Ha Hb. left. rewrite (Hzper a Ha).
      rewrite Forall_forall in Hz. apply Hz, Hzrest, Hb.
    + intros s Hs. apply in_app_or in Hs. destruct Hs as [Hs|Hs].
      * left. symmetry. apply Hzper, Hs.
      * right. apply Hzrest, Hs.
Qed.

Lemma enumerate_solutions_sorted (W : T) (valid : list (Solution T)) :
  enumerate_solutions W = Ok valid -> StronglySorted enumerated_before valid.
Proof.
  unfold enumerate_solutions. intros H. apply bind_Ok in H.
  destruct H as (per_z & Hloop & H). injection H as <-.
  apply (for_each_teeth_sorted W _ per_z (range_sorted _ _) Hloop).
Qed.

Lemma enumerated_keys_distinct (l : list (Solution T)) :
  StronglySorted enumerated_before l -> NoDup (map sort_key l).
Proof.
  induction 1 as [|a l Hl IH Ha]; simpl; constructor; [|assumption].
  intros Hin. apply in_map_iff in Hin. destruct Hin as (b & Hkey & Hb).
  rewrite Forall_forall in Ha. specialize (Ha b Hb).
  unfold sort_key in Hkey. injection Hkey as Hz Hn.
  unfold enumerated_before in Ha. lia.
Qed.

End Search.

(** ** The sort *)

Section Sorting.

Context {T : Type}.

Local Abbreviation teeth := (@number_of_teeth_Z T).
Local Abbreviation repeats := (@templates_N_circumference T).


Lemma key_lt_before (a b : Solution T) :
  key_lt (sort_key a) (sort_key b) = true -> before a b.
Proof.
  unfold key_lt, sort_key, before; simpl.
  destruct (Z.eqb_spec (teeth a) (teeth b)); intros H.
  - apply Z.ltb_lt in H. right. split; [assumption | lia].
  - apply Z.ltb_lt in H. left. assumption.
Qed.

Lemma not_key_lt_before (a b : Solution T) :
  key_lt (sort_key b) (sort_key a) = false -> before a b.
Proof.
  unfold key_lt, sort_key, before; simpl.
  destruct (Z.eqb_spec (teeth b) (teeth a)); intros H.
  - apply Z.ltb_ge in H. right. split; [auto | lia].
  - apply Z.ltb_ge in H. left. lia.
Qed.

Lemma before_trans (a b c : Solution T) :
  before a b -> before b c -> before a c.
Proof. unfold before. lia. Qed.

Lemma in_insert_by_key (x a : Solution T) (l : list (Solution T)) :
  In a (insert_by_key x l) <-> a = x \/ In a l.
Proof.
  induction l as [|y l IH]; simpl.
  - intuition congruence.
  - destruct (key_lt (sort_key y) (sort_key x)); simpl.
    + rewrite IH. intuition congruence.
    + intuition congruence.
Qed.

Lemma insert_by_key_perm (x : Solution T) (l : list (Solution T)) :
  Permutation (x :: l) (insert_by_key x l).
Proof.
  induction l as [|y l IH]; simpl.
  - apply Permutation_refl.
  - destruct (key_lt (sort_key y) (sort_key x)).
    + eapply perm_trans; [apply perm_swap|]. apply perm_skip, IH.
    + apply Permutation_refl.
Qed.

Lemma insert_by_key_sorted (x : Solution T) (l : list (Solution T)) :
  StronglySorted before l -> StronglySorted before (insert_by_key x l).
Proof.
  induction 1 as [|y l Hl IH Hy]; simpl.
  - constructor; constructor.
  - destruct (key_lt (sort_key y) (sort_key x)) eqn:E.
    + constructor; [assumption|].
      apply Forall_forall. intros a Ha.
      apply in_insert_by_key in Ha. destruct Ha as [->|Ha].
      * apply key_lt_before, E.
      * rewrite Forall_forall in Hy. auto.
    + apply not_key_lt_before in E.
      constructor; [constructor; assumption|].
      constructor; [assumption|].
      eapply Forall_impl; [|exact Hy].
      intros a Ha. eapply before_trans; eassumption.
Qed.

Lemma sort_by_key_perm (l : list (Solution T)) :
  Permutation l (sort_by_key l).
Proof.
  induction l as [|x l IH]; simpl.
  - constructor.
  - eapply perm_trans; [apply perm_skip, IH|]. apply insert_by_key_perm.
Qed.

Lemma sort_by_key_sorted (l : list (Solution T)) :
  StronglySorted before (sort_by_key l).
Proof.
  induction l as [|x l IH]; simpl.
  - constructor.
  - apply insert_by_key_sorted, IH.
Qed.

Lemma sorted_head_first (b : Solution T) (l : list (Solution T)) :
  StronglySorted before (b :: l) ->
  forall s, In s (b :: l) ->
    (teeth b <= teeth s)%Z /\ (teeth s = teeth b -> (repeats s <= repeats b)%Z).
Proof.
  intros H s Hs. apply StronglySorted_inv in H. destruct H as (_ & H).
  destruct Hs as [<-|Hs]; [lia|].
  rewrite Forall_forall in H. specialize (H s Hs). unfold before in H. lia.
Qed.

Lemma sorted_distinct_keys_strict (l : list (Solution T)) :
  StronglySorted before l -> NoDup (map sort_key l) ->
  StronglySorted strictly_before l.
Proof.
  induction 1 as [|a l Hl IH Ha]; simpl; intros Hnd.
  - constructor.
  - apply NoDup_cons_iff in Hnd. destruct Hnd as (Hnot & Hnd).
    constructor; [apply IH, Hnd|].
    apply Forall_forall. intros b Hb.
    rewrite Forall_forall in Ha. specialize (Ha b Hb).
    assert (Hkey : sort_key a <> sort_key b).
    { intros E. apply Hnot. rewrite E. apply in_map, Hb. }
    unfold sort_key in Hkey. unfold before in Ha. unfold strictly_before.
    destruct (Z.eq_dec (repeats a) (repeats b)) as [E|E].
    + destruct Ha as [Ha|(Ha & _)]; [left; assumption|].
      exfalso. apply Hkey. rewrite Ha, E. reflexivity.
    + lia.
Qed.

Lemma strictly_sorted_unique (l1 l2 : list (Solution T)) :
  StronglySorted strictly_before l1 -> StronglySorted strictly_before l2 ->
  Permutation l1 l2 -> l1 = l2.
Proof.
  intros H1. revert l2.
  induction H1 as [|a l1 Hl1 IH Ha]; intros l2 H2 Hperm.
  - apply Permutation_nil in Hperm. auto.
  - destruct H2 as [|b l2 Hl2 Hb].
    + apply Permutation_sym, Permutation_nil in Hperm. discriminate.
    + assert (E : a = b).
      { assert (Hain : In a (b :: l2))
          by (apply (Permutation_in _ Hperm); simpl; auto).
        assert (Hbin : In b (a :: l1))
          by (apply (Permutation_in _ (Permutation_sym Hperm)); simpl; auto).
        destruct Hain as [E|Hain]; [auto|].
        destruct Hbin as [E|Hbin]; [auto|].
        rewrite Forall_forall in Ha, Hb.
        specialize (Ha b Hbin). specialize (Hb a Hain).
        unfold strictly_before in Ha, Hb. lia. }
      subst b. f_equal. apply IH; [assumption|].
      apply (Permutation_cons_inv Hperm).
Qed.

End Sorting.

(** The result of the sort does not depend on the sorting method: the
    collected solutions have pairwise different keys, so their sorted
    arrangement is unique. *)
Lemma sort_by_key_canonical {T : Type} {num : Number T} (W : T)
  (valid out : list (Solution T)) :
  enumerate_solutions W = Ok valid ->
  Permutation valid out -> StronglySorted before out ->
  out = sort_by_key valid.
Proof.
  intros Henum Hperm Hsorted.
  assert (Hkeys : NoDup (map sort_key valid))
    by (apply enumerated_keys_distinct, (enumerate_solutions_sorted W), Henum).
  apply strictly_sorted_unique.
  - apply sorted_distinct_keys_strict; [assumption|].
    apply (Permutation_NoDup (Permutation_map sort_key Hperm) Hkeys).
  - apply sorted_distinct_keys_strict; [apply sort_by_key_sorted|].
    apply (Permutation_NoDup
             (Permutation_map sort_key (sort_by_key_perm valid)) Hkeys).
  - eapply Permutation_trans; [apply Permutation_sym, Hperm|].
    apply sort_by_key_perm.
Qed.

(** ** The three ways [find_cylinder_specifications] returns *)

Section Returns.

Context {T : Type} {num : Number T}.

Local Open Scope py_scope.


Lemma find_cylinder_specifications_returns (W : T)
  (best : option (Solution T)) (sols : list (Solution T)) (msg : string) :
  find_cylinder_specifications W = Ok (best, sols, msg) ->
  ((W <=? of_int 0) = true
   /\ best = None /\ sols = [] /\ msg = width_error)
  \/ ((W <=? of_int 0) = false
      /\ exists valid_solutions,
          enumerate_solutions W = Ok valid_solutions
          /\ ((valid_solutions = []
               /\ best = None /\ sols = [] /\ msg = no_cylinder_message W)
              \/ (valid_solutions <> []
                  /\ sols = sort_by_key valid_solutions
                  /\ best = hd_error sols
                  /\ msg = "Circumference calculation OK."))).
Proof.
  unfold find_cylinder_specifications.
  destruct (W <=? of_int 0) eqn:Guard; intros H.
  - injection H as <- <- <-. left. auto.
  - right. split; [reflexivity|].
    apply bind_Ok in H. destruct H as (valid & Henum & H).
    exists valid. split; [assumption|].
    destruct valid as [|v valid'].
    + injection H as <- <- <-. left. auto.
    + injection H as <- <- <-. right. repeat split. discriminate.
Qed.

Lemma returned_solution_enumerated (W : T)
  (best : option (Solution T)) (sols : list (Solution T)) (msg : string)
  (s : Solution T) :
  find_cylinder_specifications W = Ok (best, sols, msg) ->
  (W <=? of_int 0) = false ->
  (In s sols <-> enumerated W s).
Proof.
  intros H Guard. apply find_cylinder_specifications_returns in H.
  destruct H as [(Guard' & _)|(_ & valid & Henum & H)]; [congruence|].
  rewrite <- (in_enumerate_solutions W _ s Henum).
  destruct H as [(-> & _ & -> & _)|(_ & -> & _)]; [reflexivity|].
  split; apply Permutation_in;
    [apply Permutation_sym|]; apply sort_by_key_perm.
Qed.

Lemma returned_solutions_empty_or_positive (W : T)
  (best : option (Solution T)) (sols : list (Solution T)) (msg : string) :
  find_cylinder_specifications W = Ok (best, sols, msg) ->
  sols = [] \/ (W <=? of_int 0) = false.
Proof.
  intros H. apply find_cylinder_specifications_returns in H.
  destruct H as [(_ & _ & -> & _)|(Guard & _)]; auto.
Qed.

End Returns.

(* ================================================================== *)
(** ** Geometry search: what is returned *)

(** C1.  Whenever [find_cylinder_specifications] returns, every solution
    of the returned sequence has a tooth count in [[Z_MIN, Z_MAX]], a
    circumference equal to its tooth count times the pitch, a repeat count
    of at least 1, and a gap equal to circumference / N - W that passes
    both comparisons of the tolerance test, [GAP_MIN - 1e-9 <= gap] and
    [gap <= GAP_MAX + 1e-9].  It holds for every number model, so for
    binary64 with the comparisons the interpreter makes. *)
Theorem returned_solutions_satisfy_gap :
  forall (T : Type) (num : Number T) (W : T)
    (best : option (Solution T)) (sols : list (Solution T)) (msg : string)
    (s : Solution T),
    find_cylinder_specifications W = Ok (best, sols, msg) ->
    In s sols ->
    (Z_MIN <= number_of_teeth_Z s <= Z_MAX)%Z
    /\ circumference_mm s = (of_int (number_of_teeth_Z s) * PITCH)%py
    /\ (1 <= templates_N_circumference s)%Z
    /\ gap_G_circumference_mm s
       = (circumference_mm s / of_int (templates_N_circumference s) - W)%py
    /\ ((GAP_MIN - tolerance) <=? gap_G_circumference_mm s)%py = true
    /\ (gap_G_circumference_mm s <=? (GAP_MAX + tolerance))%py = true.
Proof.
  intros T num W best sols msg s H Hs.
  destruct (returned_solutions_empty_or_positive _ _ _ _ H) as [->|Guard];
    [destruct Hs|].
  apply (returned_solution_enumerated _ _ _ _ s H Guard) in Hs.
  destruct Hs as (Hz & _ & (n_max & _ & Hn) & HC & HG & Hgap).
  unfold gap_accepted in Hgap. apply andb_true_iff in Hgap.
  destruct Hgap as (Hlo & Hhi).
  repeat split; try assumption; lia.
Qed.

(** On binary64 the width 76.0 returns five solutions; the first has 75
    teeth, circumference 238.125, 3 repeats and gap 3.375. *)
Lemma returned_solutions_satisfy_gap_witness :
  (Z_MIN <= 75 <= Z_MAX)%Z
  /\ 238.125%float = (of_int 75 * PITCH)%py
  /\ (1 <= 3)%Z
  /\ 3.375%float = (238.125%float / of_int 3 - 76%float)%py
  /\ ((GAP_MIN - tolerance) <=? 3.375%float)%py = true
  /\ (3.375%float <=? (GAP_MAX + tolerance))%py = true.
Proof.
  refine (@returned_solutions_satisfy_gap float Binary64.number 76%float
            _ _ _
            {| number_of_teeth_Z := 75; circumference_mm := 238.125%float;
               templates_N_circumference := 3;
               gap_G_circumference_mm := 3.375%float |} _ _).
  - vm_compute. reflexivity.
  - left. reflexivity.
Defined.

(** C2.  When the returned sequence is not empty, a best solution is
    returned and it is the first element of the sequence; the sequence is
    the collected solutions sorted by [Z] ascending, then [N] descending,
    and it is the only arrangement of them sorted that way, whatever the
    sorting method; so the best solution has the least tooth count of the
    sequence and, among the solutions with that tooth count, the greatest
    repeat count. *)
Theorem best_solution_is_first_of_sorted :
  forall (T : Type) (num : Number T) (W : T)
    (best : option (Solution T)) (sols : list (Solution T)) (msg : string),
    find_cylinder_specifications W = Ok (best, sols, msg) ->
    sols <> [] ->
    exists b : Solution T,
      best = Some b
      /\ hd_error sols = Some b
      /\ In b sols
      /\ StronglySorted before sols
      /\ (exists valid_solutions,
             enumerate_solutions W = Ok valid_solutions
             /\ Permutation valid_solutions sols
             /\ forall out : list (Solution T),
                 Permutation valid_solutions out ->
                 StronglySorted before out -> out = sols)
      /\ forall s, In s sols ->
           (number_of_teeth_Z b <= number_of_teeth_Z s)%Z
           /\ (number_of_teeth_Z s = number_of_teeth_Z b ->
               (templates_N_circumference s <= templates_N_circumference b)%Z).
Proof.
  intros T num W best sols msg H Hne.
  apply find_cylinder_specifications_returns in H.
  destruct H as [(_ & _ & -> & _)|(_ & valid & Henum & H)]; [congruence|].
  destruct H as [(_ & _ & -> & _)|(_ & Hsols & Hbest & _)]; [congruence|].
  assert (Hsorted : StronglySorted before sols)
    by (rewrite Hsols; apply sort_by_key_sorted).
  destruct sols as [|b rest]; [congruence|].
  exists b. simpl in Hbest.
  repeat split; try assumption; try (simpl; auto; fail).
  - exists valid. split; [assumption|]. split.
    + rewrite Hsols. apply sort_by_key_perm.
    + intros out Hperm Hout. rewrite Hsols.
      apply (sort_by_key_canonical W valid out Henum Hperm Hout).
  - apply (sorted_head_first b rest Hsorted s H).
  - apply (sorted_head_first b rest Hsorted s H).
Qed.

Lemma best_solution_is_first_of_sorted_witness :
  exists b : Solution float,
    hd_error solutions_76 = Some b
    /\ number_of_teeth_Z b = 75%Z
    /\ templates_N_circumference b = 3%Z
    /\ forall s, In s solutions_76 ->
         (number_of_teeth_Z b <= number_of_teeth_Z s)%Z.
Proof.
  destruct (best_solution_is_first_of_sorted float Binary64.number 76%float
              (hd_error solutions_76) solutions_76
              "Circumference calculation OK.")
    as (b & _ & Hhd & _ & _ & _ & Hleast).
  - vm_compute. reflexivity.
  - discriminate.
  - exists b. split; [exact Hhd|].
    injection Hhd as <-.
    split; [reflexivity|]. split; [reflexivity|].
    intros s Hs. apply (Hleast s Hs).
Defined.

(** ** Geometry search: completeness *)

(** Up to the enumeration bound nothing is missed.  For a width that is
    not rejected, the returned sequence holds exactly the solutions of the
    pairs [(z, n)] with [z] in [[Z_MIN, Z_MAX]], [n] from 1 up to
    [floor(z * pitch / (W + GAP_MIN))], and a gap that passes the
    tolerance test.  It holds for every number model. *)
Theorem returned_solutions_complete_below_bound :
  forall (T : Type) (num : Number T) (W : T)
    (best : option (Solution T)) (sols : list (Solution T)) (msg : string),
    find_cylinder_specifications W = Ok (best, sols, msg) ->
    (W <=? of_int 0)%py = false ->
    forall z n : Z,
      In (solution_of W z n) sols
      <-> ((Z_MIN <= z <= Z_MAX)%Z
           /\ ((W + GAP_MIN) <=? tolerance)%py = false
           /\ (exists n_max,
                  math_floor (of_int z * PITCH / (W + GAP_MIN))%py = Ok n_max
                  /\ (1 <= n <= n_max)%Z)
           /\ gap_accepted (of_int z * PITCH / of_int n - W)%py = true).
Proof.
  intros T num W best sols msg H Guard z n.
  rewrite (returned_solution_enumerated W best sols msg (solution_of W z n)
             H Guard).
  unfold enumerated, solution_of; simpl. tauto.
Qed.

Lemma returned_solutions_complete_below_bound_witness :
  In (solution_of 76%float 75 3) solutions_76.
Proof.
  apply (returned_solutions_complete_below_bound float Binary64.number
           76%float (hd_error solutions_76) solutions_76
           "Circumference calculation OK.").
  - vm_compute. reflexivity.
  - vm_compute. reflexivity.
  - split; [unfold Z_MIN, Z_MAX; lia|].
    split; [vm_compute; reflexivity|].
    split; [|vm_compute; reflexivity].
    exists 3%Z. split; [vm_compute; reflexivity | lia].
Defined.

(** In exact arithmetic the search never raises. *)
Lemma exact_find_returns (W : Q) :
  exists best sols msg,
    find_cylinder_specifications W = Ok (best, sols, msg).
Proof.
  unfold find_cylinder_specifications.
  destruct (W <=? of_int 0)%py; [eauto|].
  unfold enumerate_solutions.
  destruct (for_each_total (try_teeth W) (range Z_MIN (Z_MAX + 1)))
    as (per_z & ->).
  - intros z _. unfold try_teeth.
    destruct (_ <=? _)%py; [eauto|].
    cbn [math_floor Exact.number bind]. eauto.
  - cbn [bind]. destruct (concat per_z); eauto.
Qed.

(** In exact arithmetic the bound cuts at [GAP_MIN] itself: for every
    positive width the search returns, and the returned sequence holds
    exactly the pairs with a tooth count of the range, a repeat count of at
    least 1 and a gap in [[GAP_MIN, GAP_MAX + 1e-9]].  The tolerance below
    [GAP_MIN] admits nothing there. *)
Theorem exact_search_complete :
  forall W : Q,
    (0 < W)%Q ->
    exists best sols msg,
      find_cylinder_specifications W = Ok (best, sols, msg)
      /\ forall z n : Z,
          In (solution_of W z n) sols
          <-> ((Z_MIN <= z <= Z_MAX)%Z /\ (1 <= n)%Z
               /\ (GAP_MIN <= inject_Z z * PITCH / inject_Z n - W
                   <= GAP_MAX + tolerance)%Q).
Proof.
  intros W HW.
  destruct (exact_find_returns W) as (best & sols & msg & Hfind).
  exists best, sols, msg. split; [assumption|].
  intros z n.
  assert (Guard : (W <=? of_int 0)%py = false).
  { change (@of_int Q Exact.number 0) with 0%Q.
    destruct (exact_leb_spec W 0); [lra | reflexivity]. }
  rewrite (returned_solution_enumerated W best sols msg (solution_of W z n)
             Hfind Guard).
  unfold enumerated, solution_of, gap_accepted.
  cbn [number_of_teeth_Z templates_N_circumference circumference_mm
       gap_G_circumference_mm].
  cbn [add sub mul div of_int math_floor Exact.number].
  pose proof GAP_MIN_pos as Hgap. pose proof tolerance_pos as Htol.
  pose proof tolerance_below_GAP_MIN as Hbelow.
  assert (Hd : (0 < W + GAP_MIN)%Q) by lra.
  split.
  - intros (Hz & _ & (n_max & Hfloor & Hn) & _ & _ & Hacc).
    injection Hfloor as <-.
    apply andb_true_iff in Hacc. destruct Hacc as (_ & Hhi).
    destruct (exact_leb_spec (inject_Z z * PITCH / inject_Z n - W)
                (GAP_MAX + tolerance)); [|discriminate].
    split; [assumption|]. split; [apply Hn|].
    assert (Hb : (W + GAP_MIN <= inject_Z z * PITCH / inject_Z n)%Q)
      by (apply exact_bound_iff; [assumption | apply Hn | apply Hn]).
    split; [lra | assumption].
  - intros (Hz & Hn & Hlo & Hhi).
    split; [assumption|]. split.
    { destruct (exact_leb_spec (W + GAP_MIN) tolerance);
        [lra | reflexivity]. }
    split.
    { eexists. split; [reflexivity|]. split; [assumption|].
      apply exact_bound_iff; [assumption | assumption | lra]. }
    split; [reflexivity|]. split; [reflexivity|].
    apply andb_true_iff. split.
    + destruct (exact_leb_spec (GAP_MIN - tolerance)
                  (inject_Z z * PITCH / inject_Z n - W));
        [reflexivity | lra].
    + destruct (exact_leb_spec (inject_Z z * PITCH / inject_Z n - W)
                  (GAP_MAX + tolerance)); [reflexivity | lra].
Qed.

Lemma exact_search_complete_witness :
  exists best sols msg,
    @find_cylinder_specifications Q Exact.number 149.9
    = Ok (best, sols, msg)
    /\ In (solution_of 149.9%Q 96 2) sols.
Proof.
  destruct (exact_search_complete 149.9%Q eq_refl)
    as (best & sols & msg & Hfind & Hiff).
  exists best, sols, msg. split; [exact Hfind|].
  apply Hiff. split; [unfold Z_MIN, Z_MAX; lia|]. split; [lia|].
  split; vm_compute; discriminate.
Defined.

(** The tolerance band below [GAP_MIN] is out of reach of the loop: just
    above the width 219.75 the pair (70, 1) passes the tolerance test with
    a gap of about 2.5 - 5e-10, and the search, on binary64 and in exact
    arithmetic alike, reports no cylinder. *)
Example width_below_bound_search :
  gap_accepted (of_int 70 * PITCH / of_int 1 - width_below_bound)%py = true
  /\ find_cylinder_specifications width_below_bound
     = Ok (None, [],
           "No cylinder found (70-140 teeth) for W=219.750mm with G=2.5-4.0mm.").
Proof. split; vm_compute; reflexivity. Qed.

Example width_below_bound_exact :
  gap_accepted (of_int 70 * PITCH / of_int 1 - 219.7500000005%Q)%py = true
  /\ find_cylinder_specifications 219.7500000005%Q
     = Ok (None, [],
           "No cylinder found (70-140 teeth) for W=219.750mm with G=2.5-4.0mm.").
Proof. split; vm_compute; reflexivity. Qed.

(** C3 does not hold of the code.  On binary64, for the width 149.9, the
    pair (96, 2) has a gap of exactly [GAP_MIN] = 2.5 in exact arithmetic
    and a computed gap of 2.4999999999999716, which passes the tolerance
    test; but [96 * pitch / (W + GAP_MIN)] is computed just under 2, the
    enumeration bound is 1, the inner loop never tries [n = 2], and the
    search reports that no cylinder exists.  So the returned sequence is
    not the set of all accepted pairs.  The same search in exact
    arithmetic returns the pair (96, 2) as its best and only solution. *)
Theorem boundary_pair_lost_to_rounding :
  (of_int 0 <? width_149_9)%py = true
  /\ gap_accepted (of_int 96 * PITCH / of_int 2 - width_149_9)%py = true
  /\ math_floor (of_int 96 * PITCH / (width_149_9 + GAP_MIN))%py = Ok 1%Z
  /\ find_cylinder_specifications width_149_9
     = Ok (None, [],
           "No cylinder found (70-140 teeth) for W=149.900mm with G=2.5-4.0mm.")
  /\ ~ returns_every_accepted_pair width_149_9
  /\ (inject_Z 96 * PITCH / inject_Z 2 - 149.9 == GAP_MIN)%Q
  /\ @find_cylinder_specifications Q Exact.number 149.9
     = Ok (Some (solution_of 149.9%Q 96 2), [solution_of 149.9%Q 96 2],
           "Circumference calculation OK.").
Proof.
  assert (Hfind : find_cylinder_specifications width_149_9
                  = Ok (None, [], no_cylinder_message width_149_9))
    by (vm_compute; reflexivity).
  split; [vm_compute; reflexivity|].
  split; [vm_compute; reflexivity|].
  split; [vm_compute; reflexivity|].
  split; [vm_compute; reflexivity|].
  split; [|split; [|vm_compute]; reflexivity].
  intros H.
  destruct (H 96%Z 2%Z) as (best & sols & msg & Hfind' & Hin).
  - unfold Z_MIN, Z_MAX. lia.
  - lia.
  - vm_compute. reflexivity.
  - rewrite Hfind in Hfind'. injection Hfind' as _ <- _. destruct Hin.
Qed.

(** The lost pair can be the best one: for the width 86.4 the pair
    (84, 3) has a gap of exactly 2.5; the search on binary64 misses it and
    answers 85 teeth, the search in exact arithmetic answers 84 teeth. *)
Example best_solution_differs_at_86_4 :
  gap_accepted (of_int 84 * PITCH / of_int 3 - width_86_4)%py = true
  /\ math_floor (of_int 84 * PITCH / (width_86_4 + GAP_MIN))%py = Ok 2%Z
  /\ (exists best sols msg,
         find_cylinder_specifications width_86_4 = Ok (Some best, sols, msg)
         /\ number_of_teeth_Z best = 85%Z
         /\ templates_N_circumference best = 3%Z)
  /\ (exists best sols msg,
         @find_cylinder_specifications Q Exact.number 86.4
         = Ok (Some best, sols, msg)
         /\ number_of_teeth_Z best = 84%Z
         /\ templates_N_circumference best = 3%Z).
Proof.
  split; [vm_compute; reflexivity|].
  split; [vm_compute; reflexivity|].
  split; vm_compute; do 3 eexists; repeat split.
Qed.

(** C2 does not hold of the code.  On binary64, for the width 86.4, the
    pair (84, 3) is in the Solution Set: its gap, exactly [GAP_MIN] = 2.5
    in exact arithmetic, is computed as 2.4999999999999858 and passes the
    tolerance test.  But [84 * pitch / (W + GAP_MIN)] is computed as
    2.9999999999999996, the enumeration bound for 84 teeth is 2, the pair is never
    tried, and the best solution returned is (85, 3): a solution of the
    Solution Set with more teeth than another one.  The defect is the one
    of [boundary_pair_lost_to_rounding]: the bound of the inner loop lacks
    the tolerance of the gap test.  Within the returned sequence the best
    solution is the first and the least
    ([best_solution_is_first_of_sorted]). *)
Theorem best_solution_not_least_of_solution_set :
  (of_int 0 <? width_86_4)%py = true
  /\ in_solution_set width_86_4 84 3
  /\ math_floor (of_int 84 * PITCH / (width_86_4 + GAP_MIN))%py = Ok 2%Z
  /\ (exists best sols msg,
         find_cylinder_specifications width_86_4 = Ok (Some best, sols, msg)
         /\ hd_error sols = Some best
         /\ number_of_teeth_Z best = 85%Z
         /\ templates_N_circumference best = 3%Z
         /\ ~ In (solution_of width_86_4 84 3) sols)
  /\ ~ best_is_least_of_solution_set width_86_4.
Proof.
  assert (Hset : in_solution_set width_86_4 84 3).
  { split; [unfold Z_MIN, Z_MAX; lia|]. split; [lia|].
    vm_compute. reflexivity. }
  assert (Hfind : exists best sols msg,
             find_cylinder_specifications width_86_4
             = Ok (Some best, sols, msg)
             /\ hd_error sols = Some best
             /\ number_of_teeth_Z best = 85%Z
             /\ templates_N_circumference best = 3%Z
             /\ forallb (fun s => negb (number_of_teeth_Z s =? 84)%Z) sols
                = true).
  { vm_compute. do 3 eexists. repeat split. }
  split; [vm_compute; reflexivity|].
  split; [exact Hset|].
  split; [vm_compute; reflexivity|].
  destruct Hfind as (best & sols & msg & Hfind & Hhd & Hz & Hn & Hnone).
  split.
  - exists best, sols, msg. repeat split; try assumption.
    intros Hin. rewrite forallb_forall in Hnone.
    specialize (Hnone _ Hin). discriminate.
  - intros H. destruct (H 84%Z 3%Z Hset)
      as (best' & sols' & msg' & Hfind' & _ & Horder).
    rewrite Hfind in Hfind'. injection Hfind' as <- _ _.
    rewrite Hz in Horder. lia.
Qed.

(** ** Geometry search: a width that is not positive *)

(** C4.  For a width [W <= 0] the search returns no best solution, the
    empty sequence and a diagnostic that contains "must be".  The
    diagnostic returned for an accepted width with no solution is another
    string: it contains "No cylinder found", the text the caller looks
    for, and the diagnostic of [W <= 0] does not. *)
Theorem nonpositive_width_fails_softly :
  forall (T : Type) (num : Number T) (W : T),
    (W <=? of_int 0)%py = true ->
    find_cylinder_specifications W = Ok (None, [], width_error)
    /\ str_in "must be" width_error = true
    /\ str_in "No cylinder found" width_error = false
    /\ forall (W' : T) (best : option (Solution T))
         (sols : list (Solution T)) (msg : string),
         (W' <=? of_int 0)%py = false ->
         find_cylinder_specifications W' = Ok (best, sols, msg) ->
         sols = [] ->
         best = None
         /\ msg = no_cylinder_message W'
         /\ msg <> width_error
         /\ str_in "No cylinder found" msg = true.
Proof.
  intros T num W Guard.
  split; [unfold find_cylinder_specifications; rewrite Guard; reflexivity|].
  split; [reflexivity|]. split; [reflexivity|].
  intros W' best sols msg Guard' H Hempty.
  apply find_cylinder_specifications_returns in H.
  destruct H as [(Guard'' & _)|(_ & valid & Henum & H)]; [congruence|].
  destruct H as [(_ & -> & _ & ->)|(Hne & Hsols & _)].
  - repeat split.
    unfold no_cylinder_message, width_error. simpl. discriminate.
  - exfalso. apply Hne.
    apply Permutation_nil. rewrite <- Hempty, Hsols.
    apply Permutation_sym, sort_by_key_perm.
Qed.

Lemma nonpositive_width_fails_softly_witness :
  find_cylinder_specifications (-1)%float = Ok (None, [], width_error)
  /\ str_in "must be" width_error = true.
Proof.
  destruct (nonpositive_width_fails_softly float Binary64.number
              (-1)%float eq_refl) as (Hfind & Hin & _).
  exact (conj Hfind Hin).
Defined.

(* ================================================================== *)
(** ** Binary64: rounding to nearest keeps the order *)

(** *** Powers of two *)

Lemma bpow_pos (e : Z) : (0 < bpow e)%Q.
Proof. apply Qpower_0_lt. reflexivity. Qed.

Lemma bpow_add (a b : Z) : (bpow (a + b) == bpow a * bpow b)%Q.
Proof. apply Qpower_plus. discriminate. Qed.

Lemma bpow_succ (e : Z) : (bpow (e + 1) == 2 * bpow e)%Q.
Proof. rewrite bpow_add. change (bpow 1) with 2%Q. ring. Qed.

Lemma bpow_le (a b : Z) : (a <= b)%Z -> (bpow a <= bpow b)%Q.
Proof. intros H. apply Qpower_le_compat_l; [exact H | discriminate]. Qed.

Lemma bpow_lt (a b : Z) : (a < b)%Z -> (bpow a < bpow b)%Q.
Proof. intros H. apply Qpower_lt_compat_l; [exact H | reflexivity]. Qed.

Lemma bpow_lt_inv (a b : Z) : (bpow a < bpow b)%Q -> (a < b)%Z.
Proof.
  intros H. destruct (Z_lt_le_dec a b) as [Hlt|Hle]; [exact Hlt|].
  apply bpow_le in Hle. lra.
Qed.

Lemma bpow_Z (n : Z) : (0 <= n)%Z -> (bpow n == inject_Z (2 ^ n))%Q.
Proof.
  intros H. unfold bpow. rewrite Zpower_Qpower by exact H. reflexivity.
Qed.

(** The binade of a positive number is unique. *)
Lemma mag_unique (v : Q) (a b : Z) :
  (bpow (a - 1) <= v < bpow a)%Q -> (bpow (b - 1) <= v < bpow b)%Q -> a = b.
Proof.
  intros (Ha1 & Ha2) (Hb1 & Hb2).
  assert (H1 : (a - 1 < b)%Z) by (apply bpow_lt_inv; lra).
  assert (H2 : (b - 1 < a)%Z) by (apply bpow_lt_inv; lra).
  lia.
Qed.

Lemma mag_le (v1 v2 : Q) (a b : Z) :
  (bpow (a - 1) <= v1 < bpow a)%Q -> (bpow (b - 1) <= v2 < bpow b)%Q ->
  (v1 <= v2)%Q -> (a <= b)%Z.
Proof.
  intros (Ha1 & Ha2) (Hb1 & Hb2) Hle.
  assert (H1 : (a - 1 < b)%Z) by (apply bpow_lt_inv; lra).
  lia.
Qed.

(** *** Digits *)

Lemma digits2_pos_bounds (p : positive) :
  (2 ^ (Zpos (digits2_pos p) - 1) <= Zpos p < 2 ^ Zpos (digits2_pos p))%Z.
Proof.
  induction p as [p IH|p IH|]; cbn [digits2_pos].
  - rewrite Pos2Z.inj_succ.
    replace (Z.succ (Zpos (digits2_pos p)) - 1)%Z
      with (Z.succ (Zpos (digits2_pos p) - 1))%Z by lia.
    rewrite !Z.pow_succ_r by lia. lia.
  - rewrite Pos2Z.inj_succ.
    replace (Z.succ (Zpos (digits2_pos p)) - 1)%Z
      with (Z.succ (Zpos (digits2_pos p) - 1))%Z by lia.
    rewrite !Z.pow_succ_r by lia. lia.
  - simpl. lia.
Qed.

Lemma digits2_pos_unique (p : positive) (d : Z) :
  (2 ^ (d - 1) <= Zpos p < 2 ^ d)%Z -> Zpos (digits2_pos p) = d.
Proof.
  intros (H1 & H2). pose proof (digits2_pos_bounds p) as (H3 & H4).
  assert (Hd : (0 < d)%Z).
  { destruct (Z_lt_le_dec 0 d) as [|Hd]; [assumption|exfalso].
    destruct (Z.eq_dec d 0) as [->|Hne]; [simpl in H2; lia|].
    rewrite Z.pow_neg_r in H2 by lia. lia. }
  assert (A : (d - 1 < Zpos (digits2_pos p))%Z).
  { apply (Z.pow_lt_mono_r_iff 2); lia. }
  assert (B : (Zpos (digits2_pos p) - 1 < d)%Z).
  { apply (Z.pow_lt_mono_r_iff 2); lia. }
  lia.
Qed.

(** The value of a mantissa of [d] digits at exponent [e] lies in the
    binade [d + e]. *)
Lemma mantissa_binade (p : positive) (e : Z) :
  (bpow (Zpos (digits2_pos p) + e - 1) <= inject_Z (Zpos p) * bpow e
   < bpow (Zpos (digits2_pos p) + e))%Q.
Proof.
  pose proof (digits2_pos_bounds p) as (H1 & H2).
  pose proof (bpow_pos e) as He.
  replace (Zpos (digits2_pos p) + e - 1)%Z
    with ((Zpos (digits2_pos p) - 1) + e)%Z by lia.
  rewrite !bpow_add.
  rewrite (bpow_Z (Zpos (digits2_pos p) - 1)) by lia.
  rewrite (bpow_Z (Zpos (digits2_pos p))) by lia.
  rewrite Zle_Qle in H1. rewrite Zlt_Qlt in H2.
  revert H1 H2.
  generalize (inject_Z (2 ^ (Zpos (digits2_pos p) - 1)))
    (inject_Z (2 ^ Zpos (digits2_pos p))) (inject_Z (Zpos p)) (bpow e) He.
  intros a b c d Hd H1 H2. split.
  - setoid_replace (a * d)%Q with (d * a)%Q by ring.
    setoid_replace (c * d)%Q with (d * c)%Q by ring.
    apply Qmult_le_l; assumption.
  - setoid_replace (b * d)%Q with (d * b)%Q by ring.
    setoid_replace (c * d)%Q with (d * c)%Q by ring.
    apply Qmult_lt_l; assumption.
Qed.

(** *** Shifting a mantissa to the right *)

Lemma inject_Z_xO (p : positive) :
  (inject_Z (Zpos p~0) == 2 * inject_Z (Zpos p))%Q.
Proof. rewrite Pos2Z.inj_xO, inject_Z_mult. reflexivity. Qed.

Lemma inject_Z_xI (p : positive) :
  (inject_Z (Zpos p~1) == 2 * inject_Z (Zpos p) + 1)%Q.
Proof. rewrite Pos2Z.inj_xI, inject_Z_plus, inject_Z_mult. reflexivity. Qed.

Lemma shr_1_located (v : Q) (e : Z) (mrs : shr_record) :
  (0 <= shr_m mrs)%Z -> located v e mrs ->
  located v (e + 1) (shr_1 mrs) /\ (0 <= shr_m (shr_1 mrs))%Z.
Proof.
  destruct mrs as [m r s]. cbn [shr_m]. intros Hm Hloc.
  pose proof (bpow_pos e) as HB. pose proof (bpow_succ e) as HS.
  unfold located in *. cbn [shr_m shr_r shr_s] in *.
  destruct m as [|p|p]; [| |lia].
  - destruct r, s; cbn [shr_1 shr_m shr_r shr_s orb];
      (split; [|lia]); rewrite ?HS; revert Hloc;
      change (inject_Z 0) with 0%Q;
      revert HB; generalize (bpow e); intros B HB Hloc; lra.
  - destruct p as [p|p|]; destruct r, s;
      cbn [shr_1 shr_m shr_r shr_s orb];
      (split; [|lia]); rewrite ?HS; revert Hloc;
      rewrite ?inject_Z_xO, ?inject_Z_xI;
      change (inject_Z 0) with 0%Q; change (inject_Z 1) with 1%Q;
      revert HB; generalize (bpow e);
      try generalize (inject_Z (Zpos p));
      intros; nra.
Qed.

Lemma iter_shr_1_located (p : positive) :
  forall (v : Q) (e : Z) (mrs : shr_record),
    (0 <= shr_m mrs)%Z -> located v e mrs ->
    located v (e + Zpos p) (iter_pos shr_1 p mrs)
    /\ (0 <= shr_m (iter_pos shr_1 p mrs))%Z.
Proof.
  induction p as [p IH|p IH|]; intros v e mrs Hm Hloc; cbn [iter_pos].
  - destruct (shr_1_located v e mrs Hm Hloc) as (H1 & Hm1).
    destruct (IH v _ _ Hm1 H1) as (H2 & Hm2).
    destruct (IH v _ _ Hm2 H2) as (H3 & Hm3).
    split; [|exact Hm3].
    replace (e + Zpos p~1)%Z with (e + 1 + Zpos p + Zpos p)%Z by lia.
    exact H3.
  - destruct (IH v _ _ Hm Hloc) as (H2 & Hm2).
    destruct (IH v _ _ Hm2 H2) as (H3 & Hm3).
    split; [|exact Hm3].
    replace (e + Zpos p~0)%Z with (e + Zpos p + Zpos p)%Z by lia.
    exact H3.
  - apply shr_1_located; assumption.
Qed.

Lemma shr_record_of_loc_m (m : Z) (l : location) :
  shr_m (shr_record_of_loc m l) = m.
Proof. destruct l as [|[| |]]; reflexivity. Qed.

Lemma shr_fexp_located (m e : Z) (l : location) (v : Q) :
  (0 <= m)%Z -> located_at v e m l ->
  located v (snd (shr_fexp prec emax m e l)) (fst (shr_fexp prec emax m e l))
  /\ (0 <= shr_m (fst (shr_fexp prec emax m e l)))%Z
  /\ snd (shr_fexp prec emax m e l)
     = Z.max e (fexp prec emax (Zdigits2 m + e)).
Proof.
  intros Hm Hloc. unfold shr_fexp, shr.
  destruct (fexp prec emax (Zdigits2 m + e) - e)%Z as [|p|p] eqn:En;
    cbn [fst snd].
  - split; [exact Hloc|]. rewrite shr_record_of_loc_m. split; [exact Hm|lia].
  - destruct (iter_shr_1_located p v e (shr_record_of_loc m l)) as (H1 & H2).
    + rewrite shr_record_of_loc_m. exact Hm.
    + exact Hloc.
    + split; [exact H1|]. split; [exact H2|lia].
  - split; [exact Hloc|]. rewrite shr_record_of_loc_m. split; [exact Hm|lia].
Qed.

(** *** Rounding to nearest, ties to even *)

Lemma Qfloor_unique (q : Q) (m : Z) :
  (inject_Z m <= q < inject_Z m + 1)%Q -> Qfloor q = m.
Proof.
  intros (H1 & H2).
  pose proof (Qfloor_le q) as H3. pose proof (Qlt_floor q) as H4.
  rewrite inject_Z_plus in H4. change (inject_Z 1) with 1%Q in H4.
  assert (A : (inject_Z m < inject_Z (Qfloor q) + 1)%Q) by lra.
  assert (B : (inject_Z (Qfloor q) < inject_Z m + 1)%Q) by lra.
  change 1%Q with (inject_Z 1) in A, B.
  rewrite <- inject_Z_plus in A, B.
  rewrite <- Zlt_Qlt in A, B. lia.
Qed.

Lemma rne_located (v : Q) (e : Z) (mrs : shr_record) :
  (0 <= shr_m mrs)%Z -> located v e mrs ->
  round_nearest_even (shr_m mrs) (loc_of_shr_record mrs)
  = round_half_even (v / bpow e).
Proof.
  destruct mrs as [m r s]. cbn [shr_m]. intros Hm Hloc.
  pose proof (bpow_pos e) as HB.
  unfold located in Hloc. cbn [shr_m shr_r shr_s] in Hloc.
  assert (Ev : (v / bpow e * bpow e == v)%Q) by (field; lra).
  revert Ev. generalize (v / bpow e)%Q. intros q Ev.
  assert (Hfloor : Qfloor q = m).
  { apply Qfloor_unique. revert HB Ev Hloc. generalize (bpow e).
    intros B HB Ev Hloc. destruct r, s; split; nra. }
  unfold round_half_even. rewrite Hfloor.
  revert HB Ev Hloc. generalize (bpow e). intros B HB Ev Hloc.
  destruct r, s; cbn [loc_of_shr_record round_nearest_even];
    destruct (Qcompare_spec (q - inject_Z m) (1 # 2)) as [E|E|E];
    try reflexivity; exfalso; nra.
Qed.

Lemma located_bounds (v : Q) (e : Z) (mrs : shr_record) :
  located v e mrs ->
  (inject_Z (shr_m mrs) * bpow e <= v
   < (inject_Z (shr_m mrs) + 1) * bpow e)%Q.
Proof.
  pose proof (bpow_pos e) as HB. unfold located.
  revert HB. generalize (bpow e) (inject_Z (shr_m mrs)). intros B m HB.
  destruct (shr_r mrs), (shr_s mrs); intros H; split; nra.
Qed.

Lemma mantissa_binade_up (p : positive) (e : Z) :
  ((inject_Z (Zpos p) + 1) * bpow e <= bpow (Zpos (digits2_pos p) + e))%Q.
Proof.
  pose proof (digits2_pos_bounds p) as (_ & H2).
  pose proof (bpow_pos e) as He.
  rewrite bpow_add. rewrite (bpow_Z (Zpos (digits2_pos p))) by lia.
  assert (H : (Zpos p + 1 <= 2 ^ Zpos (digits2_pos p))%Z) by lia.
  rewrite Zle_Qle, inject_Z_plus in H. change (inject_Z 1) with 1%Q in H.
  revert H He.
  generalize (inject_Z (2 ^ Zpos (digits2_pos p))) (inject_Z (Zpos p))
    (bpow e).
  intros a c d H Hd.
  setoid_replace ((c + 1) * d)%Q with (d * (c + 1))%Q by ring.
  setoid_replace (a * d)%Q with (d * a)%Q by ring.
  apply Qmult_le_l; assumption.
Qed.

(** The result of [binary_round_aux] on a located positive [v] of binade
    [k]: [v] is rounded to an integer at the exponent of its binade. *)
Lemma binary_round_aux_spec (sx : bool) (m e : Z) (l : location)
  (v : Q) (k : Z) :
  (0 <= m)%Z -> located_at v e m l ->
  (bpow (k - 1) <= v < bpow k)%Q -> (e <= fexp prec emax k)%Z ->
  binary_round_aux prec emax sx m e l
  = finish sx (round_half_even (v / bpow (fexp prec emax k)))
      (fexp prec emax k).
Proof.
  intros Hm Hloc Hk He.
  destruct (shr_fexp_located m e l v Hm Hloc) as (H1 & H2 & H3).
  unfold binary_round_aux.
  destruct (shr_fexp prec emax m e l) as [mrs' e'] eqn:E1.
  cbn [fst snd] in H1, H2, H3.
  assert (He' : e' = fexp prec emax k).
  { rewrite H3.
    pose proof (located_bounds v e _ Hloc) as Hb.
    rewrite shr_record_of_loc_m in Hb.
    destruct m as [|p|p]; [| |lia].
    - change (inject_Z 0) with 0%Q in Hb.
      assert (Hlt : (k - 1 < e)%Z) by (apply bpow_lt_inv; lra).
      cbn [Zdigits2]. unfold fexp, emin, prec, emax in *. lia.
    - cbn [Zdigits2].
      pose proof (mantissa_binade p e) as (Hlo & _).
      pose proof (mantissa_binade_up p e) as Hup.
      assert (Ek : k = (Zpos (digits2_pos p) + e)%Z).
      { apply (mag_unique v); [exact Hk|]. split; lra. }
      rewrite <- Ek. lia. }
  clear H3 E1. subst e'.
  rewrite (rne_located v _ mrs' H2 H1).
  unfold finish. reflexivity.
Qed.

Lemma round_half_even_floor (q : Q) :
  (Qfloor q <= round_half_even q <= Qfloor q + 1)%Z.
Proof.
  unfold round_half_even.
  destruct (Qcompare _ _); [destruct (Z.even _)| |]; lia.
Qed.

Lemma round_half_even_int (n : Z) : round_half_even (inject_Z n) = n.
Proof.
  unfold round_half_even. rewrite Qfloor_Z.
  destruct (Qcompare_spec (inject_Z n - inject_Z n) (1 # 2)) as [E|E|E];
    [exfalso; lra | reflexivity | exfalso; lra].
Qed.

Lemma round_half_even_mono (q1 q2 : Q) :
  (q1 <= q2)%Q -> (round_half_even q1 <= round_half_even q2)%Z.
Proof.
  intros Hle.
  pose proof (Qfloor_resp_le _ _ Hle) as Hf.
  pose proof (round_half_even_floor q1) as H1.
  pose proof (round_half_even_floor q2) as H2.
  destruct (Z.eq_dec (Qfloor q1) (Qfloor q2)) as [E|E]; [|lia].
  unfold round_half_even in *. rewrite E in *.
  destruct (Qcompare_spec (q1 - inject_Z (Qfloor q2)) (1 # 2)) as [A|A|A];
    destruct (Qcompare_spec (q2 - inject_Z (Qfloor q2)) (1 # 2)) as [B|B|B];
    try destruct (Z.even (Qfloor q2)); try lia; exfalso; lra.
Qed.

Lemma round_half_even_not_negative (q : Q) :
  (0 <= q)%Q -> (0 <= round_half_even q)%Z.
Proof.
  intros Hq. rewrite <- (round_half_even_int 0).
  apply round_half_even_mono. exact Hq.
Qed.

Lemma fexp_cases (k : Z) :
  (fexp prec emax k = k - 53 /\ -1074 <= k - 53)%Z
  \/ (fexp prec emax k = -1074 /\ k - 53 < -1074)%Z.
Proof. unfold fexp, emin, prec, emax. lia. Qed.

Lemma rounded_mantissa_bounds (v : Q) (k : Z) :
  (bpow (k - 1) <= v < bpow k)%Q ->
  let P := (k - fexp prec emax k)%Z in
  (0 <= rounded_mantissa v k)%Z
  /\ ((1 <= P)%Z ->
      (2 ^ (P - 1) <= rounded_mantissa v k <= 2 ^ P)%Z)
  /\ ((P <= 0)%Z -> (rounded_mantissa v k <= 1)%Z).
Proof.
  intros (Hlo & Hhi) P. unfold rounded_mantissa.
  pose proof (bpow_pos (fexp prec emax k)) as HB.
  pose proof (bpow_pos (k - 1)) as Hk1.
  assert (Hq : (0 <= v / bpow (fexp prec emax k))%Q)
    by (apply Qle_shift_div_l; [exact HB|lra]).
  split; [apply round_half_even_not_negative, Hq|].
  split.
  - intros HP. split.
    + rewrite <- (round_half_even_int (2 ^ (P - 1))).
      apply round_half_even_mono.
      apply Qle_shift_div_l; [exact HB|].
      rewrite <- bpow_Z by lia. rewrite <- bpow_add.
      replace (P - 1 + fexp prec emax k)%Z with (k - 1)%Z by (unfold P; lia).
      exact Hlo.
    + rewrite <- (round_half_even_int (2 ^ P)).
      apply round_half_even_mono.
      apply Qle_shift_div_r; [exact HB|].
      rewrite <- bpow_Z by lia. rewrite <- bpow_add.
      replace (P + fexp prec emax k)%Z with k by (unfold P; lia).
      lra.
  - intros HP.
    rewrite <- (round_half_even_int 1).
    apply round_half_even_mono.
    apply Qle_shift_div_r; [exact HB|].
    change (inject_Z 1) with 1%Q.
    assert (Hle : (bpow k <= bpow (fexp prec emax k))%Q)
      by (apply bpow_le; unfold P in HP; lia).
    lra.
Qed.

(** *** The float a rounded mantissa gives *)

Lemma finish_build (sx : bool) (m1 e' : Z) :
  (fexp prec emax (Zdigits2 m1 + e') <= e')%Z ->
  finish sx m1 e' = build sx m1 e'.
Proof.
  intros H. unfold finish, shr_fexp, shr.
  destruct (fexp prec emax (Zdigits2 m1 + e') - e')%Z eqn:E;
    try lia; reflexivity.
Qed.

Lemma finish_carry (sx : bool) (e' : Z) :
  fexp prec emax (54 + e') = (e' + 1)%Z ->
  finish sx 9007199254740992 e' = build sx 4503599627370496 (e' + 1).
Proof.
  intros H. unfold finish, shr_fexp.
  change (Zdigits2 9007199254740992) with 54%Z.
  rewrite H. replace (e' + 1 - e')%Z with 1%Z by lia. reflexivity.
Qed.

Lemma scale_le (a b e : Z) :
  (a <= b)%Z -> (inject_Z a * bpow e <= inject_Z b * bpow e)%Q.
Proof.
  intros H. rewrite Zle_Qle in H. pose proof (bpow_pos e) as He.
  revert H He. generalize (inject_Z a) (inject_Z b) (bpow e). intros; nra.
Qed.

Lemma scale_lt (a b e : Z) :
  (a < b)%Z -> (inject_Z a * bpow e < inject_Z b * bpow e)%Q.
Proof.
  intros H. rewrite Zlt_Qlt in H. pose proof (bpow_pos e) as He.
  revert H He. generalize (inject_Z a) (inject_Z b) (bpow e). intros; nra.
Qed.

Lemma pow2_scale (n e : Z) :
  (0 <= n)%Z -> (inject_Z (2 ^ n) * bpow e == bpow (n + e))%Q.
Proof. intros H. rewrite bpow_add, (bpow_Z n) by exact H. reflexivity. Qed.

Lemma digits2_pos_le (p : positive) (d : Z) :
  (Zpos p < 2 ^ d)%Z -> (Zpos (digits2_pos p) <= d)%Z.
Proof.
  intros H. pose proof (digits2_pos_bounds p) as (H1 & _).
  assert (Hd : (0 <= d)%Z).
  { destruct (Z_lt_le_dec d 0) as [Hd|]; [|assumption].
    rewrite Z.pow_neg_r in H by lia. lia. }
  assert (A : (Zpos (digits2_pos p) - 1 < d)%Z).
  { apply (Z.pow_lt_mono_r_iff 2); lia. }
  lia.
Qed.

Lemma finish_xval (v : Q) (k : Z) :
  (bpow (k - 1) <= v < bpow k)%Q ->
  let out := finish false (rounded_mantissa v k) (fexp prec emax k) in
  nonneg_float out /\ (xval out == Qmin (rnd v k) (bpow 1024))%Q.
Proof.
  intros Hk out. subst out. unfold rnd.
  pose proof (rounded_mantissa_bounds v k Hk) as (H0 & Hn & Hs).
  cbv zeta in Hn, Hs.
  set (m1 := rounded_mantissa v k) in *. clearbody m1.
  destruct (fexp_cases k) as [(E & Hr)|(E & Hr)]; rewrite E in *.
  - (* normal range *)
    replace (k - (k - 53))%Z with 53%Z in Hn by lia.
    specialize (Hn ltac:(lia)). clear Hs.
    change (2 ^ (53 - 1))%Z with 4503599627370496%Z in Hn.
    change (2 ^ 53)%Z with 9007199254740992%Z in Hn.
    destruct (Z.eq_dec m1 9007199254740992) as [->|Hne].
    + rewrite finish_carry
        by (unfold fexp, emin, prec, emax; lia).
      unfold build. change (emax - prec)%Z with 971%Z.
      assert (Ev : (inject_Z 9007199254740992 * bpow (k - 53)
                    == bpow k)%Q).
      { change 9007199254740992%Z with (2 ^ 53)%Z.
        rewrite pow2_scale by lia. replace (53 + (k - 53))%Z with k by lia.
        reflexivity. }
      assert (Ev' : (inject_Z 4503599627370496 * bpow (k - 53 + 1)
                     == bpow k)%Q).
      { change 4503599627370496%Z with (2 ^ 52)%Z.
        rewrite pow2_scale by lia.
        replace (52 + (k - 53 + 1))%Z with k by lia. reflexivity. }
      destruct (Z.leb_spec (k - 53 + 1) 971) as [Hle|Hgt];
        (split; [exact I|]); cbn [xval]; rewrite Ev.
      * rewrite Ev'. symmetry. apply Q.min_l. apply bpow_le. lia.
      * symmetry. apply Q.min_r. apply bpow_le. lia.
    + destruct m1 as [|p|p]; try lia.
      assert (Ed : Zpos (digits2_pos p) = 53%Z).
      { apply digits2_pos_unique.
        change (2 ^ (53 - 1))%Z with 4503599627370496%Z.
        change (2 ^ 53)%Z with 9007199254740992%Z. lia. }
      rewrite finish_build
        by (cbn [Zdigits2]; rewrite Ed; unfold fexp, emin, prec, emax; lia).
      unfold build. change (emax - prec)%Z with 971%Z.
      destruct (Z.leb_spec (k - 53) 971) as [Hle|Hgt];
        (split; [exact I|]); cbn [xval].
      * symmetry. apply Q.min_l.
        apply Qle_trans with (inject_Z 9007199254740992 * bpow (k - 53))%Q.
        -- apply scale_le. lia.
        -- change 9007199254740992%Z with (2 ^ 53)%Z.
           rewrite pow2_scale by lia. apply bpow_le. lia.
      * symmetry. apply Q.min_r.
        apply Qle_trans with (inject_Z 4503599627370496 * bpow (k - 53))%Q.
        -- change 4503599627370496%Z with (2 ^ 52)%Z.
           rewrite pow2_scale by lia. apply bpow_le. lia.
        -- apply scale_le. lia.
  - (* subnormal range *)
    assert (Hm : (m1 <= 4503599627370496)%Z).
    { destruct (Z_le_gt_dec (k - -1074) 0) as [Hp|Hp].
      - specialize (Hs Hp). lia.
      - specialize (Hn ltac:(lia)).
        apply Z.le_trans with (2 ^ (k - -1074))%Z; [lia|].
        change 4503599627370496%Z with (2 ^ 52)%Z.
        apply Z.pow_le_mono_r; lia. }
    destruct m1 as [|p|p]; try lia.
    + rewrite finish_build
        by (cbn [Zdigits2]; unfold fexp, emin, prec, emax; lia).
      cbn [build xval]. split; [exact I|].
      symmetry. rewrite Q.min_l; [reflexivity|].
      pose proof (bpow_pos 1024). unfold Qmult, inject_Z. simpl. lra.
    + assert (Hd : (Zpos (digits2_pos p) <= 53)%Z).
      { apply digits2_pos_le.
        change (2 ^ 53)%Z with 9007199254740992%Z. lia. }
      rewrite finish_build
        by (cbn [Zdigits2]; unfold fexp, emin, prec, emax; lia).
      unfold build. change (emax - prec)%Z with 971%Z.
      destruct (Z.leb_spec (-1074) 971) as [Hle|Hgt]; [|lia].
      split; [exact I|]. cbn [xval].
      symmetry. apply Q.min_l.
      apply Qle_trans with (inject_Z 4503599627370496 * bpow (-1074))%Q.
      * apply scale_le. lia.
      * change 4503599627370496%Z with (2 ^ 52)%Z.
        rewrite pow2_scale by lia. apply bpow_le. lia.
Qed.

(** *** Rounding is monotone *)

Lemma rnd_nonneg (v : Q) (k : Z) :
  (bpow (k - 1) <= v < bpow k)%Q -> (0 <= rnd v k)%Q.
Proof.
  intros Hk. unfold rnd.
  pose proof (rounded_mantissa_bounds v k Hk) as (H0 & _).
  pose proof (scale_le 0 _ (fexp prec emax k) H0) as H.
  change (inject_Z 0) with 0%Q in H. lra.
Qed.

Lemma rnd_mono (v1 v2 : Q) (k1 k2 : Z) :
  (bpow (k1 - 1) <= v1 < bpow k1)%Q ->
  (bpow (k2 - 1) <= v2 < bpow k2)%Q ->
  (v1 <= v2)%Q -> (rnd v1 k1 <= rnd v2 k2)%Q.
Proof.
  intros Hk1 Hk2 Hle.
  pose proof (mag_le _ _ _ _ Hk1 Hk2 Hle) as Hk.
  destruct (Z.eq_dec (fexp prec emax k1) (fexp prec emax k2)) as [E|E].
  - unfold rnd, rounded_mantissa. rewrite E.
    apply scale_le. apply round_half_even_mono.
    pose proof (bpow_pos (fexp prec emax k2)) as HB.
    apply Qle_shift_div_l; [exact HB|].
    setoid_replace (v1 / bpow (fexp prec emax k2) * bpow (fexp prec emax k2))%Q
      with v1 by (field; lra).
    exact Hle.
  - pose proof (rounded_mantissa_bounds v1 k1 Hk1) as (_ & Hn1 & Hs1).
    pose proof (rounded_mantissa_bounds v2 k2 Hk2) as (_ & Hn2 & _).
    cbv zeta in Hn1, Hs1, Hn2. unfold rnd.
    set (m1 := rounded_mantissa v1 k1) in *.
    set (m2 := rounded_mantissa v2 k2) in *. clearbody m1 m2.
    destruct (fexp_cases k1) as [(E1 & Hr1)|(E1 & Hr1)];
      destruct (fexp_cases k2) as [(E2 & Hr2)|(E2 & Hr2)];
      rewrite E1, E2 in *; try lia.
    + replace (k1 - (k1 - 53))%Z with 53%Z in Hn1 by lia.
      replace (k2 - (k2 - 53))%Z with 53%Z in Hn2 by lia.
      specialize (Hn1 ltac:(lia)). specialize (Hn2 ltac:(lia)).
      apply Qle_trans with (inject_Z (2 ^ 53) * bpow (k1 - 53))%Q;
        [apply scale_le; lia|].
      apply Qle_trans with (inject_Z (2 ^ (53 - 1)) * bpow (k2 - 53))%Q;
        [|apply scale_le; lia].
      rewrite !pow2_scale by lia. apply bpow_le. lia.
    + replace (k2 - (k2 - 53))%Z with 53%Z in Hn2 by lia.
      specialize (Hn2 ltac:(lia)).
      apply Qle_trans with (inject_Z (2 ^ (53 - 1)) * bpow (k2 - 53))%Q;
        [|apply scale_le; lia].
      rewrite pow2_scale by lia.
      destruct (Z_le_gt_dec (k1 - -1074) 0) as [Hp|Hp].
      * specialize (Hs1 Hp).
        apply Qle_trans with (inject_Z (2 ^ 0) * bpow (-1074))%Q;
          [apply scale_le; simpl; lia|].
        rewrite pow2_scale by lia. apply bpow_le. lia.
      * specialize (Hn1 ltac:(lia)).
        apply Qle_trans with (inject_Z (2 ^ (k1 - -1074)) * bpow (-1074))%Q;
          [apply scale_le; lia|].
        rewrite pow2_scale by lia. apply bpow_le. lia.
Qed.

Lemma rounds_to_nonneg (v : Q) (out : spec_float) :
  rounds_to v out -> nonneg_float out.
Proof. intros (k & Hk & ->). apply (finish_xval v k Hk). Qed.

Lemma rounds_to_mono (v1 v2 : Q) (o1 o2 : spec_float) :
  rounds_to v1 o1 -> rounds_to v2 o2 -> (v1 <= v2)%Q ->
  (xval o1 <= xval o2)%Q.
Proof.
  intros (k1 & Hk1 & ->) (k2 & Hk2 & ->) Hle.
  destruct (finish_xval v1 k1 Hk1) as (_ & ->).
  destruct (finish_xval v2 k2 Hk2) as (_ & ->).
  apply Q.min_le_compat_r. apply rnd_mono; assumption.
Qed.

(** *** The order of the valid nonnegative floats *)

Lemma canonical_digits (m : positive) (e : Z) :
  canonical_mantissa prec emax m e = true ->
  (Zpos (digits2_pos m) <= 53)%Z /\ (-1074 <= e)%Z
  /\ ((-1074 < e)%Z -> Zpos (digits2_pos m) = 53%Z).
Proof.
  unfold canonical_mantissa. intros H. apply Z.eqb_eq in H.
  revert H. generalize (Zpos (digits2_pos m)). intros d.
  unfold fexp, emin, prec, emax. lia.
Qed.

Lemma valid_finite_lt (s : bool) (m : positive) (e : Z) :
  valid_binary (S754_finite s m e) = true ->
  (0 < inject_Z (Zpos m) * bpow e < bpow 1024)%Q.
Proof.
  unfold valid_binary. cbn [SpecFloat.valid_binary]. unfold bounded.
  intros H. apply andb_true_iff in H as (Hc & He). apply Z.leb_le in He.
  change (emax - prec)%Z with 971%Z in He.
  apply canonical_digits in Hc as (Hd & _ & _).
  pose proof (mantissa_binade m e) as (H1 & H2).
  pose proof (bpow_pos (Zpos (digits2_pos m) + e - 1)) as H3.
  assert (H4 : (bpow (Zpos (digits2_pos m) + e) <= bpow 1024)%Q)
    by (apply bpow_le; lia).
  split; lra.
Qed.

Lemma compare_xval (x y : spec_float) :
  valid_binary x = true -> valid_binary y = true ->
  nonneg_float x -> nonneg_float y ->
  SFcompare x y = Some (xval x ?= xval y)%Q.
Proof.
  intros Vx Vy Nx Ny.
  destruct x as [sx|[|]| |[|] mx ex]; try contradiction;
    destruct y as [sy|[|]| |[|] my ey]; try contradiction;
    cbn [SFcompare xval]; f_equal; symmetry;
    try solve
      [ apply Qeq_alt; reflexivity
      | apply Qlt_alt;
        first [ apply bpow_pos | apply (valid_finite_lt _ _ _ Vy)
              | apply (valid_finite_lt _ _ _ Vx) ]
      | apply Qgt_alt;
        first [ apply bpow_pos | apply (valid_finite_lt _ _ _ Vy)
              | apply (valid_finite_lt _ _ _ Vx) ] ].
  unfold valid_binary in Vx, Vy.
  cbn [SpecFloat.valid_binary] in Vx, Vy. unfold bounded in Vx, Vy.
  apply andb_true_iff in Vx as (Cx & _).
    apply andb_true_iff in Vy as (Cy & _).
    apply canonical_digits in Cx as (Dx & Ex & Nx').
    apply canonical_digits in Cy as (Dy & Ey & Ny').
    pose proof (mantissa_binade mx ex) as (X1 & X2).
    pose proof (mantissa_binade my ey) as (Y1 & Y2).
    destruct (Z.compare_spec ex ey) as [E|E|E].
    + subst ey. change (Pos.compare_cont Eq mx my) with (Pos.compare mx my).
      destruct (Pos.compare_spec mx my) as [F|F|F].
      * subst my. rewrite <- Qeq_alt. reflexivity.
      * rewrite <- Qlt_alt. apply scale_lt. lia.
      * rewrite <- Qgt_alt. apply scale_lt. lia.
    + rewrite <- Qlt_alt. rewrite (Ny' ltac:(lia)) in Y1.
      assert (H : (bpow (Zpos (digits2_pos mx) + ex) <= bpow (53 + ey - 1))%Q)
        by (apply bpow_le; lia).
      lra.
    + rewrite <- Qgt_alt. rewrite (Nx' ltac:(lia)) in X1.
      assert (H : (bpow (Zpos (digits2_pos my) + ey) <= bpow (53 + ex - 1))%Q)
        by (apply bpow_le; lia).
      lra.
Qed.

Lemma leb_xval (x y : spec_float) :
  valid_binary x = true -> valid_binary y = true ->
  nonneg_float x -> nonneg_float y ->
  SFleb x y = true <-> (xval x <= xval y)%Q.
Proof.
  intros Vx Vy Nx Ny. unfold SFleb.
  rewrite (compare_xval x y Vx Vy Nx Ny).
  destruct (Qcompare_spec (xval x) (xval y)) as [E|E|E]; split; intros H;
    try reflexivity; try discriminate; lra.
Qed.

Lemma ltb_xval (x y : spec_float) :
  valid_binary x = true -> valid_binary y = true ->
  nonneg_float x -> nonneg_float y ->
  SFltb x y = true <-> (xval x < xval y)%Q.
Proof.
  intros Vx Vy Nx Ny. unfold SFltb.
  rewrite (compare_xval x y Vx Vy Nx Ny).
  destruct (Qcompare_spec (xval x) (xval y)) as [E|E|E]; split; intros H;
    try reflexivity; try discriminate; lra.
Qed.

(** *** The operations *)

Lemma round_half_even_comp (q q' : Q) :
  (q == q')%Q -> round_half_even q = round_half_even q'.
Proof.
  intros E. unfold round_half_even.
  rewrite (Qfloor_comp _ _ E).
  assert (E' : (q - inject_Z (Qfloor q') == q' - inject_Z (Qfloor q'))%Q)
    by (rewrite E; reflexivity).
  rewrite (Qcompare_comp _ _ E' (1 # 2) (1 # 2) (Qeq_refl _)).
  reflexivity.
Qed.

Lemma rounds_to_comp (v v' : Q) (out : spec_float) :
  (v == v')%Q -> rounds_to v out -> rounds_to v' out.
Proof.
  intros E (k & Hk & ->). exists k. split.
  - rewrite <- E. exact Hk.
  - unfold rounded_mantissa. f_equal. apply round_half_even_comp.
    rewrite E. reflexivity.
Qed.

Lemma iter_xO (m d : positive) :
  Zpos (Pos.iter xO m d) = (Zpos m * 2 ^ Zpos d)%Z.
Proof.
  induction d as [|d IH] using Pos.peano_ind.
  - cbn [Pos.iter]. rewrite Pos2Z.inj_xO. change (2 ^ 1)%Z with 2%Z. ring.
  - rewrite Pos.iter_succ, Pos2Z.inj_succ, Z.pow_succ_r by lia.
    rewrite Pos2Z.inj_xO, IH. ring.
Qed.

Lemma shl_align_spec (mx : positive) (ex ex' : Z) :
  snd (shl_align mx ex ex') = Z.min ex ex'
  /\ (inject_Z (Zpos (fst (shl_align mx ex ex')))
      * bpow (snd (shl_align mx ex ex'))
      == inject_Z (Zpos mx) * bpow ex)%Q.
Proof.
  unfold shl_align. destruct (ex' - ex)%Z as [|d|d] eqn:E; cbn [fst snd].
  - split; [lia|reflexivity].
  - split; [lia|reflexivity].
  - split; [lia|].
    rewrite iter_xO, inject_Z_mult.
    assert (Hex : (bpow ex == bpow (Zpos d) * bpow ex')%Q).
    { rewrite <- bpow_add. replace (Zpos d + ex')%Z with ex by lia.
      reflexivity. }
    rewrite Hex, (bpow_Z (Zpos d)) by lia. ring.
Qed.

Lemma binary_round_rounds_to (mx : positive) (ex : Z) :
  rounds_to (inject_Z (Zpos mx) * bpow ex)
    (binary_round prec emax false mx ex).
Proof.
  unfold binary_round.
  pose proof (shl_align_spec mx ex
                (fexp prec emax (Zpos (digits2_pos mx) + ex))) as (H1 & H2).
  destruct (shl_align mx ex (fexp prec emax (Zpos (digits2_pos mx) + ex)))
    as [mz ez]. cbn [fst snd] in H1, H2.
  exists (Zpos (digits2_pos mx) + ex)%Z. split.
  - pose proof (mantissa_binade mx ex) as (A & B). split; assumption.
  - apply binary_round_aux_spec.
    + lia.
    + unfold located_at, located. cbn. symmetry. exact H2.
    + pose proof (mantissa_binade mx ex) as (A & B). split; assumption.
    + lia.
Qed.

Lemma binary_round_aux_signed (sx : bool) (m e : Z) (l : location) :
  signed_as sx (binary_round_aux prec emax sx m e l).
Proof.
  unfold binary_round_aux.
  destruct (shr_fexp prec emax m e l) as [mrs' e'].
  destruct (shr_fexp prec emax _ e' loc_Exact) as [mrs'' e''].
  destruct (shr_m mrs''); [reflexivity| |exact I].
  destruct (e'' <=? emax - prec)%Z; reflexivity.
Qed.

Lemma binary_round_signed (sx : bool) (mx : positive) (ex : Z) :
  signed_as sx (binary_round prec emax sx mx ex).
Proof.
  unfold binary_round. destruct (shl_align _ _ _) as [mz ez].
  apply binary_round_aux_signed.
Qed.

Lemma SFadd_finite (sx : bool) (mx : positive) (ex : Z)
  (sy : bool) (my : positive) (ey : Z) :
  exists z : Z,
    SFadd prec emax (S754_finite sx mx ex) (S754_finite sy my ey)
    = binary_normalize prec emax z (Z.min ex ey) false
    /\ (inject_Z z * bpow (Z.min ex ey)
        == sval (S754_finite sx mx ex) + sval (S754_finite sy my ey))%Q.
Proof.
  cbn [SFadd sval].
  pose proof (shl_align_spec mx ex (Z.min ex ey)) as (X1 & X2).
  pose proof (shl_align_spec my ey (Z.min ex ey)) as (Y1 & Y2).
  replace (Z.min ex (Z.min ex ey)) with (Z.min ex ey) in X1 by lia.
  replace (Z.min ey (Z.min ex ey)) with (Z.min ex ey) in Y1 by lia.
  rewrite X1 in X2. rewrite Y1 in Y2.
  eexists. split; [reflexivity|].
  rewrite inject_Z_plus.
  destruct sx, sy; cbn [cond_Zopp]; rewrite ?inject_Z_opp;
    rewrite <- X2, <- Y2; ring.
Qed.

(** A sum of finite floats that is positive in exact arithmetic is that
    sum rounded; one that is not is no positive float. *)
Lemma SFadd_finite_cases (x y : spec_float) :
  (exists sx mx ex, x = S754_finite sx mx ex) ->
  (exists sy my ey, y = S754_finite sy my ey) ->
  ((0 < sval x + sval y)%Q /\ rounds_to (sval x + sval y) (SFadd prec emax x y))
  \/ ((sval x + sval y <= 0)%Q
      /\ (SFadd prec emax x y = S754_zero false
          \/ signed_as true (SFadd prec emax x y))).
Proof.
  intros (sx & mx & ex & ->) (sy & my & ey & ->).
  destruct (SFadd_finite sx mx ex sy my ey) as (z & -> & Hz).
  pose proof (bpow_pos (Z.min ex ey)) as HB.
  revert Hz.
  generalize (sval (S754_finite sx mx ex) + sval (S754_finite sy my ey))%Q.
  intros v Hz.
  destruct z as [|p|p]; cbn [binary_normalize].
  - right. split; [|left; reflexivity].
    rewrite <- Hz. change (inject_Z 0) with 0%Q. lra.
  - left. split.
    + rewrite <- Hz.
      pose proof (scale_lt 0 (Zpos p) (Z.min ex ey) ltac:(lia)) as H.
      change (inject_Z 0) with 0%Q in H. lra.
    + apply (rounds_to_comp _ _ _ Hz). apply binary_round_rounds_to.
  - right. split.
    + rewrite <- Hz.
      pose proof (scale_lt (Zneg p) 0 (Z.min ex ey) ltac:(lia)) as H.
      change (inject_Z 0) with 0%Q in H. lra.
    + right. apply binary_round_signed.
Qed.

Lemma SFmul_rounds_to (mx : positive) (ex : Z) (my : positive) (ey : Z) :
  (2 ^ 52 <= Zpos (mx * my))%Z ->
  rounds_to (inject_Z (Zpos mx) * bpow ex * (inject_Z (Zpos my) * bpow ey))
    (SFmul prec emax (S754_finite false mx ex) (S754_finite false my ey)).
Proof.
  intros Hd. cbn [SFmul xorb].
  assert (E : (inject_Z (Zpos (mx * my)) * bpow (ex + ey)
               == inject_Z (Zpos mx) * bpow ex
                  * (inject_Z (Zpos my) * bpow ey))%Q).
  { rewrite Pos2Z.inj_mul, inject_Z_mult, bpow_add. ring. }
  apply (rounds_to_comp _ _ _ E).
  pose proof (mantissa_binade (mx * my) (ex + ey)) as (A & B).
  exists (Zpos (digits2_pos (mx * my)) + (ex + ey))%Z. split.
  - split; assumption.
  - apply binary_round_aux_spec.
    + lia.
    + unfold located_at, located. cbn. reflexivity.
    + split; assumption.
    + pose proof (digits2_pos_bounds (mx * my)) as (_ & Hb).
      assert (Hlt : (52 < Zpos (digits2_pos (mx * my)))%Z).
      { apply (Z.pow_lt_mono_r_iff 2); lia. }
      unfold fexp, emin, prec, emax. lia.
Qed.

Lemma new_location_spec (n r : Z) :
  (0 <= r < n)%Z ->
  match new_location n r with
  | loc_Exact => r = 0%Z
  | loc_Inexact Lt => (0 < r /\ 2 * r < n)%Z
  | loc_Inexact Eq => (2 * r = n)%Z
  | loc_Inexact Gt => (n < 2 * r)%Z
  end.
Proof.
  intros Hr. unfold new_location, new_location_even, new_location_odd.
  destruct (Z.even n) eqn:En.
  - destruct (Z.eqb_spec r 0) as [E|E]; [exact E|].
    destruct (Z.compare_spec (2 * r) n); lia.
  - destruct (Z.eqb_spec r 0) as [E|E]; [exact E|].
    assert (Ho : Z.odd n = true) by (rewrite <- Z.negb_even, En; reflexivity).
    apply Z.odd_spec in Ho as (c & Hc).
    destruct (Z.compare_spec (2 * r + 1) n); lia.
Qed.

Lemma SFdiv_rounds_to (mx : positive) (ex : Z) (my : positive) (ey : Z) :
  rounds_to (inject_Z (Zpos mx) * bpow ex / (inject_Z (Zpos my) * bpow ey))
    (SFdiv prec emax (S754_finite false mx ex) (S754_finite false my ey)).
Proof.
  cbn [SFdiv xorb]. unfold SFdiv_core_binary. cbn [Zdigits2].
  set (d1 := Zpos (digits2_pos mx)). set (d2 := Zpos (digits2_pos my)).
  set (D := (d1 + ex - (d2 + ey))%Z).
  set (e' := Z.min (fexp prec emax D) (ex - ey)).
  set (s := (ex - ey - e')%Z).
  assert (Hs : (0 <= s)%Z) by (unfold s, e'; lia).
  assert (Hm' : match s with
                | 0%Z => Zpos mx
                | Zpos _ => Z.shiftl (Zpos mx) s
                | Zneg _ => 0%Z
                end = (Zpos mx * 2 ^ s)%Z).
  { destruct s as [|p|p]; [simpl; lia| |lia].
    apply Z.shiftl_mul_pow2. lia. }
  rewrite Hm'. clear Hm'.
  pose proof (Z_div_mod (Zpos mx * 2 ^ s) (Zpos my) ltac:(lia)) as Hdiv.
  destruct (Z.div_eucl (Zpos mx * 2 ^ s) (Zpos my)) as [q r].
  destruct Hdiv as (Hqr & Hr).
  assert (Hq : (0 <= q)%Z) by nia.
  pose proof (new_location_spec (Zpos my) r Hr) as Hloc.
  pose proof (mantissa_binade mx ex) as (A1 & A2).
  pose proof (mantissa_binade my ey) as (B1 & B2).
  fold d1 in A1, A2. fold d2 in B1, B2.
  pose proof (bpow_pos ex) as Pex. pose proof (bpow_pos ey) as Pey.
  pose proof (bpow_pos e') as Pe'.
  assert (PM : (0 < inject_Z (Zpos my))%Q)
    by (change 0%Q with (inject_Z 0); rewrite <- Zlt_Qlt; lia).
  assert (Pb : (0 < inject_Z (Zpos my) * bpow ey)%Q)
    by (apply Qmult_lt_0_compat; assumption).
  assert (Hkey : (inject_Z (Zpos mx) * bpow ex
                  == (inject_Z (Zpos my) * inject_Z q + inject_Z r)
                     * bpow e' * bpow ey)%Q).
  { rewrite <- inject_Z_mult, <- inject_Z_plus, <- Hqr.
    rewrite inject_Z_mult, <- (bpow_Z s) by exact Hs.
    assert (Eex : (bpow ex == bpow s * bpow e' * bpow ey)%Q).
    { rewrite <- !bpow_add. replace (s + e' + ey)%Z with ex by (unfold s; lia).
      reflexivity. }
    rewrite Eex. ring. }
  set (v := (inject_Z (Zpos mx) * bpow ex
             / (inject_Z (Zpos my) * bpow ey))%Q).
  assert (Hv : (v == (inject_Z q + inject_Z r / inject_Z (Zpos my))
                     * bpow e')%Q).
  { unfold v. rewrite Hkey. field. split; lra. }
  assert (Hup : (v < bpow (D + 1))%Q).
  { unfold v. apply Qlt_shift_div_r; [exact Pb|].
    assert (E : (bpow (d1 + ex) == bpow (D + 1) * bpow (d2 + ey - 1))%Q).
    { rewrite <- bpow_add. replace (D + 1 + (d2 + ey - 1))%Z
        with (d1 + ex)%Z by (unfold D; lia). reflexivity. }
    pose proof (bpow_pos (D + 1)) as PD.
    revert A2 B1 E PD.
    generalize (inject_Z (Zpos mx) * bpow ex)%Q
      (inject_Z (Zpos my) * bpow ey)%Q (bpow (d1 + ex)) (bpow (D + 1))
      (bpow (d2 + ey - 1)).
    intros a b c d f A2 B1 E PD. nra. }
  assert (Hlo : (bpow (D - 1) < v)%Q).
  { unfold v. apply Qlt_shift_div_l; [exact Pb|].
    assert (E : (bpow (d1 + ex - 1) == bpow (D - 1) * bpow (d2 + ey))%Q).
    { rewrite <- bpow_add. replace (D - 1 + (d2 + ey))%Z
        with (d1 + ex - 1)%Z by (unfold D; lia). reflexivity. }
    pose proof (bpow_pos (D - 1)) as PD.
    revert A1 B2 E PD.
    generalize (inject_Z (Zpos mx) * bpow ex)%Q
      (inject_Z (Zpos my) * bpow ey)%Q (bpow (d1 + ex - 1)) (bpow (D - 1))
      (bpow (d2 + ey)).
    intros a b c d f A1 B2 E PD. nra. }
  assert (Hlocated : located_at v e' q (new_location (Zpos my) r)).
  { unfold located_at, located.
    assert (Hrho : (inject_Z r / inject_Z (Zpos my) * inject_Z (Zpos my)
                    == inject_Z r)%Q) by (field; lra).
    assert (Hr0 : (0 <= inject_Z r)%Q)
      by (change 0%Q with (inject_Z 0); rewrite <- Zle_Qle; lia).
    revert Hv Hrho.
    generalize (inject_Z r / inject_Z (Zpos my))%Q. intros rho Hv Hrho.
    revert Hloc.
    destruct (new_location (Zpos my) r) as [|[| |]]; intros Hloc;
      cbn [shr_record_of_loc shr_m shr_r shr_s].
    - subst r. change (inject_Z 0) with 0%Q in Hrho.
      assert (rho == 0)%Q by nra. rewrite Hv. nra.
    - apply (f_equal inject_Z) in Hloc. rewrite inject_Z_mult in Hloc.
      change (inject_Z 2) with 2%Q in Hloc.
      revert Hloc Hrho PM Hv Pe'.
      generalize (inject_Z r) (inject_Z (Zpos my)) (inject_Z q) (bpow e').
      intros R M Qq B L Hrho PM Hv PB.
      assert (rho == 1 # 2)%Q by (rewrite <- L in Hrho, PM; nra).
      rewrite Hv. nra.
    - destruct Hloc as (L1 & L2).
      rewrite Zlt_Qlt in L1, L2. rewrite inject_Z_mult in L2.
      change (inject_Z 0) with 0%Q in L1. change (inject_Z 2) with 2%Q in L2.
      revert L1 L2 Hrho PM Hv Pe'.
      generalize (inject_Z r) (inject_Z (Zpos my)) (inject_Z q) (bpow e').
      intros R M Qq B L1 L2 Hrho PM Hv PB.
      assert (0 < rho)%Q by nra. assert (rho < 1 # 2)%Q by nra.
      rewrite Hv. split; nra.
    - destruct Hr as (_ & L1).
      rewrite Zlt_Qlt in Hloc, L1. rewrite inject_Z_mult in Hloc.
      change (inject_Z 2) with 2%Q in Hloc.
      revert L1 Hloc Hrho PM Hv Pe'.
      generalize (inject_Z r) (inject_Z (Zpos my)) (inject_Z q) (bpow e').
      intros R M Qq B L1 L2 Hrho PM Hv PB.
      assert (rho < 1)%Q by nra. assert (1 # 2 < rho)%Q by nra.
      rewrite Hv. split; nra. }
  destruct (Qlt_le_dec v (bpow D)) as [Hc|Hc].
  - exists D. split; [split; lra|].
    apply binary_round_aux_spec; try assumption.
    + split; lra.
    + unfold e'. lia.
  - exists (D + 1)%Z. replace (D + 1 - 1)%Z with D by lia.
    split; [split; lra|].
    apply binary_round_aux_spec; try assumption.
    + replace (D + 1 - 1)%Z with D by lia. split; lra.
    + unfold e', fexp, emin, prec, emax. lia.
Qed.

(** *** Positive floats *)

Lemma pos_nonneg (x : spec_float) : pos_float x -> nonneg_float x.
Proof. destruct x as [s|[|]| |[|] m e]; simpl; tauto. Qed.

Lemma pos_xval (x : spec_float) : pos_float x -> (0 < xval x)%Q.
Proof.
  destruct x as [s|[|]| |[|] m e]; simpl; try tauto; intros _.
  - apply bpow_pos.
  - pose proof (scale_lt 0 (Zpos m) e ltac:(lia)) as H.
    change (inject_Z 0) with 0%Q in H. lra.
Qed.

Lemma nonneg_pos (x : spec_float) :
  nonneg_float x -> (0 < xval x)%Q -> pos_float x.
Proof.
  destruct x as [s|[|]| |[|] m e]; simpl; try tauto.
  intros _ H. lra.
Qed.

Lemma valid_finite_ge (s : bool) (m : positive) (e : Z) :
  valid_binary (S754_finite s m e) = true ->
  (bpow (-1074) <= inject_Z (Zpos m) * bpow e)%Q.
Proof.
  unfold valid_binary. cbn [SpecFloat.valid_binary]. unfold bounded.
  intros H. apply andb_true_iff in H as (Hc & _).
  apply canonical_digits in Hc as (_ & He & _).
  apply Qle_trans with (inject_Z 1 * bpow e)%Q.
  - change (inject_Z 1) with 1%Q. rewrite Qmult_1_l. apply bpow_le. lia.
  - apply scale_le. lia.
Qed.

Lemma valid_pos_finite (x : spec_float) :
  valid_binary x = true -> pos_float x -> (xval x < bpow 1024)%Q ->
  exists m e, x = S754_finite false m e.
Proof.
  destruct x as [s|[|]| |[|] m e]; simpl; try tauto; intros _ _ H.
  - lra.
  - eauto.
Qed.

Lemma xval_le_max (x : spec_float) :
  valid_binary x = true -> (xval x <= bpow 1024)%Q.
Proof.
  intros V. pose proof (bpow_pos 1024) as HB.
  destruct x as [s|s| |s m e]; cbn [xval]; try lra.
  pose proof (valid_finite_lt s m e V). lra.
Qed.

Lemma rounds_to_le_max (v : Q) (o : spec_float) :
  rounds_to v o -> (xval o <= bpow 1024)%Q.
Proof.
  intros (k & Hk & ->). destruct (finish_xval v k Hk) as (_ & ->).
  apply Q.le_min_r.
Qed.

(** A float of the format is what its value is rounded to. *)
Lemma valid_rounds_to (m : positive) (e : Z) :
  valid_binary (S754_finite false m e) = true ->
  rounds_to (inject_Z (Zpos m) * bpow e) (S754_finite false m e).
Proof.
  unfold valid_binary. cbn [SpecFloat.valid_binary]. unfold bounded.
  intros H. apply andb_true_iff in H as (Hc & He).
  unfold canonical_mantissa in Hc. apply Z.eqb_eq in Hc.
  exists (Zpos (digits2_pos m) + e)%Z. split.
  - pose proof (mantissa_binade m e) as (A & B). split; assumption.
  - unfold rounded_mantissa. rewrite Hc.
    assert (E : (inject_Z (Zpos m) * bpow e / bpow e == inject_Z (Zpos m))%Q).
    { pose proof (bpow_pos e). field. lra. }
    rewrite (round_half_even_comp _ _ E), round_half_even_int.
    rewrite finish_build by (cbn [Zdigits2]; lia).
    cbn [build]. rewrite He. reflexivity.
Qed.

Lemma rounds_to_pos (v : Q) (o : spec_float) :
  (bpow (-1074) <= v)%Q -> rounds_to v o -> pos_float o.
Proof.
  intros Hv Ho.
  assert (H1 : rounds_to (inject_Z 1 * bpow (-1074))
                 (S754_finite false 1 (-1074)))
    by (apply valid_rounds_to; reflexivity).
  assert (Hle : (inject_Z 1 * bpow (-1074) <= v)%Q).
  { change (inject_Z 1) with 1%Q. rewrite Qmult_1_l. exact Hv. }
  pose proof (rounds_to_mono _ _ _ _ H1 Ho Hle) as Hm.
  apply nonneg_pos; [apply (rounds_to_nonneg v), Ho|].
  pose proof (pos_xval (S754_finite false 1 (-1074)) I). lra.
Qed.

Lemma le_pos (x y : spec_float) :
  valid_binary x = true -> valid_binary y = true -> pos_float x ->
  SFleb x y = true -> pos_float y /\ (xval x <= xval y)%Q.
Proof.
  intros Vx Vy Px H.
  assert (Py : pos_float y).
  { destruct x as [s|[|]| |[|] m e]; try contradiction;
      destruct y as [s'|[|]| |[|] m' e']; try exact I; discriminate. }
  split; [exact Py|].
  apply (leb_xval x y Vx Vy (pos_nonneg _ Px) (pos_nonneg _ Py)). exact H.
Qed.

Lemma lt_pos (x y : spec_float) :
  valid_binary x = true -> valid_binary y = true -> pos_float x ->
  SFltb x y = true -> pos_float y /\ (xval x < xval y)%Q.
Proof.
  intros Vx Vy Px H.
  assert (Py : pos_float y).
  { destruct x as [s|[|]| |[|] m e]; try contradiction;
      destruct y as [s'|[|]| |[|] m' e']; try exact I; discriminate. }
  split; [exact Py|].
  apply (ltb_xval x y Vx Vy (pos_nonneg _ Px) (pos_nonneg _ Py)). exact H.
Qed.

Lemma not_lt_pos (u h : spec_float) :
  valid_binary u = true -> valid_binary h = true -> pos_float h ->
  u <> S754_nan -> SFltb u h = false ->
  pos_float u /\ (xval h <= xval u)%Q.
Proof.
  intros Vu Vh Ph Hn H.
  assert (Pu : pos_float u).
  { destruct h as [s|[|]| |[|] m e]; try contradiction;
      destruct u as [s'|[|]| |[|] m' e']; try exact I;
      try discriminate; congruence. }
  split; [exact Pu|].
  destruct (Qlt_le_dec (xval u) (xval h)) as [Hlt|Hle]; [|exact Hle].
  apply (ltb_xval u h Vu Vh (pos_nonneg _ Pu) (pos_nonneg _ Ph)) in Hlt.
  congruence.
Qed.

Lemma lt_le_trans_pos (u h1 h2 : spec_float) :
  valid_binary u = true -> valid_binary h1 = true ->
  valid_binary h2 = true -> pos_float h1 -> pos_float h2 ->
  SFltb u h1 = true -> (xval h1 <= xval h2)%Q -> SFltb u h2 = true.
Proof.
  intros Vu V1 V2 P1 P2 H Hle.
  assert (Hc : nonneg_float u \/ SFltb u h2 = true).
  { destruct h2 as [s|[|]| |[|] m e]; try contradiction;
      destruct h1 as [s1|[|]| |[|] m1 e1]; try contradiction;
      destruct u as [s'|[|]| |[|] m' e'];
      try (left; exact I); try (right; reflexivity); discriminate. }
  destruct Hc as [Nu|Hc]; [|exact Hc].
  apply (ltb_xval u h2 Vu V2 Nu (pos_nonneg _ P2)).
  apply (ltb_xval u h1 Vu V1 Nu (pos_nonneg _ P1)) in H. lra.
Qed.

(** *** Monotonicity of the operations on positive floats *)

Lemma SFadd_mono (x y g : spec_float) :
  valid_binary x = true -> valid_binary y = true ->
  pos_float x -> pos_float y -> (xval x <= xval y)%Q ->
  pos_float (SFadd prec emax x g) ->
  pos_float (SFadd prec emax y g)
  /\ (xval (SFadd prec emax x g) <= xval (SFadd prec emax y g))%Q.
Proof.
  intros Vx Vy Px Py Hle PP.
  destruct g as [sg|sg| |sg mg eg].
  - (* zero *)
    destruct x as [s|[|]| |[|] mx ex]; try contradiction;
      destruct y as [s'|[|]| |[|] my ey]; try contradiction;
      cbn [SFadd]; split; assumption.
  - (* infinity *)
    destruct x as [s|[|]| |[|] mx ex]; try contradiction;
      destruct y as [s'|[|]| |[|] my ey]; try contradiction;
      destruct sg; cbn [SFadd] in PP |- *; try contradiction;
      split; try exact I; cbn [xval]; lra.
  - (* not a number *)
    destruct x as [s|[|]| |[|] mx ex]; contradiction.
  - (* finite *)
    destruct x as [s|[|]| |[|] mx ex]; try contradiction.
    + (* x infinite *)
      destruct y as [s'|[|]| |[|] my ey]; try contradiction.
      * cbn [SFadd xval]. split; [exact I|lra].
      * pose proof (valid_finite_lt _ _ _ Vy). cbn [xval] in Hle. lra.
    + destruct y as [s'|[|]| |[|] my ey]; try contradiction.
      * (* y infinite *)
        cbn [SFadd] in PP |- *.
        split; [exact I|]. cbn [xval].
        destruct (SFadd_finite_cases (S754_finite false mx ex)
                    (S754_finite sg mg eg)) as [(_ & R)|(_ & [E|E])];
          [eauto|eauto| | |].
        -- apply (rounds_to_le_max _ _ R).
        -- cbn [SFadd] in E. rewrite E in PP. contradiction.
        -- cbn [SFadd] in E. revert PP E.
           destruct (binary_normalize _ _ _ _) as [s|[|]| |[|] m e];
             simpl; intros; try contradiction; discriminate.
      * destruct (SFadd_finite_cases (S754_finite false mx ex)
                    (S754_finite sg mg eg)) as [(Sx & Rx)|(_ & [E|E])];
          [eauto|eauto| | |].
        -- destruct (SFadd_finite_cases (S754_finite false my ey)
                       (S754_finite sg mg eg)) as [(Sy & Ry)|(Sy & _)];
             [eauto|eauto| |].
           ++ assert (Hs : (sval (S754_finite false mx ex)
                              + sval (S754_finite sg mg eg)
                            <= sval (S754_finite false my ey)
                               + sval (S754_finite sg mg eg))%Q).
              { cbn [sval xval] in Hle |- *. lra. }
              pose proof (rounds_to_mono _ _ _ _ Rx Ry Hs) as Hm.
              split; [|exact Hm].
              apply nonneg_pos; [apply (rounds_to_nonneg _ _ Ry)|].
              pose proof (pos_xval _ PP). lra.
           ++ cbn [sval xval] in Hle, Sx, Sy. lra.
        -- rewrite E in PP. contradiction.
        -- revert PP E.
           destruct (SFadd _ _ _ _) as [s|[|]| |[|] m e];
             simpl; intros; try contradiction; discriminate.
Qed.

Lemma SFmul_two_finite (mx : positive) (ex : Z) :
  valid_binary (S754_finite false mx ex) = true ->
  rounds_to (2 * (inject_Z (Zpos mx) * bpow ex))
    (SFmul prec emax (S754_finite false mx ex) float_two)
  /\ pos_float (SFmul prec emax (S754_finite false mx ex) float_two).
Proof.
  intros V.
  assert (E2 : (inject_Z 4503599627370496 * bpow (-51) == 2)%Q)
    by reflexivity.
  assert (R : rounds_to (2 * (inject_Z (Zpos mx) * bpow ex))
                (SFmul prec emax (S754_finite false mx ex) float_two)).
  { unfold float_two.
    apply (rounds_to_comp
             (inject_Z (Zpos mx) * bpow ex
              * (inject_Z 4503599627370496 * bpow (-51)))).
    - rewrite E2. ring.
    - apply SFmul_rounds_to. rewrite Pos2Z.inj_mul.
      change (2 ^ 52)%Z with 4503599627370496%Z. nia. }
  split; [exact R|].
  apply (rounds_to_pos (2 * (inject_Z (Zpos mx) * bpow ex))); [|exact R].
  pose proof (valid_finite_ge _ _ _ V). pose proof (bpow_pos (-1074)). lra.
Qed.

Lemma SFmul_two_mono (x y : spec_float) :
  valid_binary x = true -> valid_binary y = true ->
  pos_float x -> pos_float y -> (xval x <= xval y)%Q ->
  pos_float (SFmul prec emax x float_two)
  /\ pos_float (SFmul prec emax y float_two)
  /\ (xval (SFmul prec emax x float_two)
      <= xval (SFmul prec emax y float_two))%Q.
Proof.
  intros Vx Vy Px Py Hle.
  destruct x as [s|[|]| |[|] mx ex]; try contradiction;
    destruct y as [s'|[|]| |[|] my ey]; try contradiction.
  - cbn. repeat split; lra.
  - pose proof (valid_finite_lt _ _ _ Vy). cbn [xval] in Hle. lra.
  - destruct (SFmul_two_finite mx ex Vx) as (R & P).
    repeat split; [exact P|].
    change (SFmul prec emax (S754_infinity false) float_two)
      with (S754_infinity false).
    apply (rounds_to_le_max _ _ R).
  - destruct (SFmul_two_finite mx ex Vx) as (Rx & Qx).
    destruct (SFmul_two_finite my ey Vy) as (Ry & Qy).
    repeat split; try assumption.
    apply (rounds_to_mono _ _ _ _ Rx Ry). cbn [xval] in Hle. lra.
Qed.

(** The quotient of two positive floats. *)
Lemma SFdiv_pos (a b : spec_float) :
  pos_float a -> pos_float b ->
  let c := SFdiv prec emax a b in
  c = S754_nan \/ c = S754_infinity false
  \/ (exists ma ea, a = S754_finite false ma ea
      /\ ((b = S754_infinity false /\ c = S754_zero false)
          \/ ((exists mb eb, b = S754_finite false mb eb)
              /\ rounds_to (xval a / xval b) c))).
Proof.
  intros Pa Pb.
  destruct a as [s|[|]| |[|] ma ea]; try contradiction;
    destruct b as [s'|[|]| |[|] mb eb]; try contradiction; cbv zeta.
  - left. reflexivity.
  - right. left. reflexivity.
  - right. right. exists ma, ea. split; [reflexivity|].
    left. split; reflexivity.
  - right. right. exists ma, ea. split; [reflexivity|].
    right. split; [eauto|]. apply SFdiv_rounds_to.
Qed.

Lemma lt_zero_pos (x : spec_float) :
  SFltb (S754_zero false) x = true -> pos_float x.
Proof.
  destruct x as [s|[|]| |[|] m e]; try discriminate; intros _; exact I.
Qed.

Lemma pos_not_le_zero (x : spec_float) (s : bool) :
  pos_float x -> SFleb x (S754_zero s) = false.
Proof. destruct x as [s'|[|]| |[|] m e]; try contradiction; reflexivity. Qed.

Lemma xval_lt_not_le (x y : spec_float) :
  valid_binary x = true -> valid_binary y = true ->
  nonneg_float x -> nonneg_float y ->
  (xval x < xval y)%Q -> SFleb y x = false.
Proof.
  intros Vx Vy Nx Ny H. destruct (SFleb y x) eqn:E; [|reflexivity].
  apply (leb_xval y x Vy Vx Ny Nx) in E. lra.
Qed.

Lemma lt_not_nan (u h : spec_float) : SFltb u h = true -> u <> S754_nan.
Proof. intros H ->. discriminate. Qed.

Lemma SFdiv_nonneg (a b : spec_float) :
  pos_float a -> pos_float b -> finite_float (SFdiv prec emax a b) ->
  nonneg_float (SFdiv prec emax a b).
Proof.
  intros Pa Pb F.
  destruct (SFdiv_pos a b Pa Pb) as [E|[E|(ma & ea & _ & [(_ & E)|(_ & R)])]];
    cbv zeta in *.
  - rewrite E in F. contradiction.
  - rewrite E in F. contradiction.
  - rewrite E. exact I.
  - apply (rounds_to_nonneg _ _ R).
Qed.

Lemma nonneg_xval (x : spec_float) : (0 <= xval x)%Q.
Proof.
  destruct x as [s|s| |s m e]; cbn [xval]; try lra.
  - pose proof (bpow_pos 1024). lra.
  - pose proof (scale_lt 0 (Zpos m) e ltac:(lia)) as H.
    change (inject_Z 0) with 0%Q in H. lra.
Qed.

Lemma SFdiv_ge_one (a b : spec_float) :
  valid_binary a = true -> valid_binary b = true ->
  pos_float a -> pos_float b -> (xval b <= xval a)%Q ->
  finite_float (SFdiv prec emax a b) ->
  (1 <= xval (SFdiv prec emax a b))%Q.
Proof.
  intros Va Vb Pa Pb Hle F.
  destruct (SFdiv_pos a b Pa Pb)
    as [E|[E|(ma & ea & -> & [(-> & E)|((mb & eb & ->) & R)])]];
    cbv zeta in *.
  - rewrite E in F. contradiction.
  - rewrite E in F. contradiction.
  - pose proof (valid_finite_lt _ _ _ Va). cbn [xval] in Hle. lra.
  - assert (R1 : rounds_to (inject_Z 4503599627370496 * bpow (-52))
                   float_one)
      by (apply valid_rounds_to; reflexivity).
    assert (E1 : (inject_Z 4503599627370496 * bpow (-52) == 1)%Q)
      by reflexivity.
    pose proof (pos_xval _ Pb) as Hb.
    assert (Hv : (inject_Z 4503599627370496 * bpow (-52)
                  <= xval (S754_finite false ma ea)
                     / xval (S754_finite false mb eb))%Q).
    { rewrite E1. apply Qle_shift_div_l; [exact Hb|]. lra. }
    pose proof (rounds_to_mono _ _ _ _ R1 R Hv) as Hm.
    unfold float_one in Hm. cbn [xval] in Hm |- *. rewrite E1 in Hm.
    exact Hm.
Qed.

Lemma SFdiv_antitone (a b1 b2 : spec_float) :
  valid_binary a = true -> valid_binary b1 = true ->
  valid_binary b2 = true ->
  pos_float a -> pos_float b1 -> pos_float b2 ->
  (xval b1 <= xval b2)%Q ->
  finite_float (SFdiv prec emax a b1) ->
  finite_float (SFdiv prec emax a b2) ->
  (xval (SFdiv prec emax a b2) <= xval (SFdiv prec emax a b1))%Q.
Proof.
  intros Va V1 V2 Pa P1 P2 Hle F1 F2.
  destruct (SFdiv_pos a b2 Pa P2)
    as [E|[E|(ma & ea & -> & [(-> & E)|((mb & eb & ->) & R2)])]];
    cbv zeta in *.
  - rewrite E in F2. contradiction.
  - rewrite E in F2. contradiction.
  - rewrite E. cbn [xval]. apply nonneg_xval.
  - destruct (SFdiv_pos _ b1 Pa P1)
      as [E|[E|(ma' & ea' & _ & [(-> & E)|((mb' & eb' & ->) & R1)])]];
      cbv zeta in *.
    + rewrite E in F1. contradiction.
    + rewrite E in F1. contradiction.
    + pose proof (valid_finite_lt _ _ _ V2). cbn [xval] in Hle. lra.
    + apply (rounds_to_mono _ _ _ _ R2 R1).
      pose proof (pos_xval _ P1) as Hb1. pose proof (pos_xval _ P2) as Hb2.
      pose proof (pos_xval _ Pa) as Ha.
      revert Hle Hb1 Hb2 Ha.
      generalize (xval (S754_finite false ma ea))
        (xval (S754_finite false mb' eb')) (xval (S754_finite false mb eb)).
      intros x y1 y2 Hle Hb1 Hb2 Ha.
      apply Qle_shift_div_l; [exact Hb1|].
      apply Qle_trans with (x / y2 * y2)%Q.
      * assert (0 <= x / y2)%Q by (apply Qle_shift_div_l; lra). nra.
      * setoid_replace (x / y2 * y2)%Q with x by (field; lra). lra.
Qed.

(** *** Further order and totality lemmas *)

(** The quotient grows with its numerator. *)
Lemma SFdiv_mono_num (a1 a2 b : spec_float) :
  valid_binary a1 = true -> valid_binary a2 = true ->
  pos_float a1 -> pos_float a2 -> pos_float b ->
  (xval a1 <= xval a2)%Q ->
  finite_float (SFdiv prec emax a1 b) ->
  finite_float (SFdiv prec emax a2 b) ->
  (xval (SFdiv prec emax a1 b) <= xval (SFdiv prec emax a2 b))%Q.
Proof.
  intros V1 V2 P1 P2 Pb Hle F1 F2.
  destruct (SFdiv_pos a2 b P2 Pb)
    as [E|[E|(m2 & e2 & -> & [(-> & E)|((mb & eb & ->) & R2)])]];
    cbv zeta in *.
  - rewrite E in F2. contradiction.
  - rewrite E in F2. contradiction.
  - destruct (valid_pos_finite a1 V1 P1) as (m1 & e1 & ->).
    { pose proof (valid_finite_lt _ _ _ V2). cbn [xval] in Hle |- *. lra. }
    cbn [SFdiv xorb xval]. lra.
  - destruct (valid_pos_finite a1 V1 P1) as (m1 & e1 & ->).
    { pose proof (valid_finite_lt _ _ _ V2). cbn [xval] in Hle |- *. lra. }
    pose proof (SFdiv_rounds_to m1 e1 mb eb) as R1.
    apply (rounds_to_mono _ _ _ _ R1 R2).
    pose proof (pos_xval _ Pb) as Hb. cbn [xval] in Hle, Hb |- *.
    revert Hle Hb.
    generalize (inject_Z (Zpos m1) * bpow e1)%Q
      (inject_Z (Zpos m2) * bpow e2)%Q (inject_Z (Zpos mb) * bpow eb)%Q.
    intros x1 x2 y Hle Hb.
    apply Qle_shift_div_l; [exact Hb|].
    setoid_replace (x1 / y * y)%Q with x1 by (field; lra). exact Hle.
Qed.

(** The order of floats that are not NaN against a positive one. *)
Lemma not_le_lt (u h : spec_float) :
  valid_binary u = true -> valid_binary h = true -> pos_float h ->
  u <> S754_nan -> SFleb h u = false -> SFltb u h = true.
Proof.
  intros Vu Vh Ph Hn H.
  assert (Hc : nonneg_float u \/ SFltb u h = true).
  { destruct h as [s|[|]| |[|] m e]; try contradiction;
      destruct u as [s'|[|]| |[|] m' e'];
      try (left; exact I); try (right; reflexivity); congruence. }
  destruct Hc as [Nu|Hc]; [|exact Hc].
  apply (ltb_xval u h Vu Vh Nu (pos_nonneg _ Ph)).
  destruct (Qlt_le_dec (xval u) (xval h)) as [Hlt|Hge]; [exact Hlt|].
  apply (leb_xval h u Vh Vu (pos_nonneg _ Ph) Nu) in Hge. congruence.
Qed.

Lemma le_lt_trans_pos (u1 u2 h : spec_float) :
  valid_binary u1 = true -> valid_binary u2 = true ->
  valid_binary h = true -> pos_float h ->
  SFleb u1 u2 = true -> SFltb u2 h = true -> SFltb u1 h = true.
Proof.
  intros V1 V2 Vh Ph Hle Hlt.
  assert (Hc : (nonneg_float u1 /\ nonneg_float u2) \/ SFltb u1 h = true).
  { destruct h as [s|[|]| |[|] m e]; try contradiction;
      destruct u1 as [s1|[|]| |[|] m1 e1];
      try (right; reflexivity); try discriminate;
      destruct u2 as [s2|[|]| |[|] m2 e2];
      try (left; split; exact I); discriminate. }
  destruct Hc as [(N1 & N2)|Hc]; [|exact Hc].
  apply (ltb_xval u1 h V1 Vh N1 (pos_nonneg _ Ph)).
  apply (leb_xval u1 u2 V1 V2 N1 N2) in Hle.
  apply (ltb_xval u2 h V2 Vh N2 (pos_nonneg _ Ph)) in Hlt. lra.
Qed.

Lemma le_not_nan (x y : spec_float) :
  SFleb x y = true -> x <> S754_nan /\ y <> S754_nan.
Proof.
  intros H. split; intros ->; [discriminate|].
  destruct x; discriminate.
Qed.

Lemma nonneg_below_max_finite (c : spec_float) :
  nonneg_float c -> (xval c < bpow 1024)%Q -> finite_float c.
Proof.
  destruct c as [s|[|]| |[|] m e]; cbn [nonneg_float finite_float xval];
    try tauto.
  intros _ H. lra.
Qed.

Lemma not_nan_cases (x : spec_float) :
  x <> S754_nan -> SFleb x (S754_zero false) = true \/ pos_float x.
Proof.
  destruct x as [s|[|]| |[|] m e]; intros H;
    try (left; reflexivity); try (right; exact I); congruence.
Qed.

(** The sum of a positive float and a finite positive float is their
    exact sum rounded, and is not below the second. *)
Lemma SFadd_pos_rounds (mw : positive) (ew : Z) (mg : positive) (eg : Z) :
  rounds_to (inject_Z (Zpos mw) * bpow ew + inject_Z (Zpos mg) * bpow eg)
    (SFadd prec emax (S754_finite false mw ew) (S754_finite false mg eg)).
Proof.
  destruct (SFadd_finite_cases (S754_finite false mw ew)
              (S754_finite false mg eg)) as [(_ & R)|(S & _)];
    [eauto|eauto|exact R|].
  pose proof (pos_xval (S754_finite false mw ew) I) as A.
  pose proof (pos_xval (S754_finite false mg eg) I) as B.
  cbn [sval xval] in *. lra.
Qed.

Lemma SFadd_pos_ge (w g : spec_float) :
  valid_binary g = true -> pos_float w ->
  (exists mg eg, g = S754_finite false mg eg) ->
  pos_float (SFadd prec emax w g)
  /\ (xval g <= xval (SFadd prec emax w g))%Q.
Proof.
  intros Vg Pw (mg & eg & ->).
  destruct w as [s|[|]| |[|] mw ew]; try contradiction.
  - cbn [SFadd xval]. split; [exact I|].
    pose proof (valid_finite_lt _ _ _ Vg). lra.
  - pose proof (SFadd_pos_rounds mw ew mg eg) as R.
    pose proof (valid_rounds_to mg eg Vg) as Rg.
    assert (Hle : (inject_Z (Zpos mg) * bpow eg
                   <= inject_Z (Zpos mw) * bpow ew
                      + inject_Z (Zpos mg) * bpow eg)%Q).
    { pose proof (pos_xval (S754_finite false mw ew) I) as A.
      cbn [xval] in A. lra. }
    pose proof (rounds_to_mono _ _ _ _ Rg R Hle) as Hm.
    split; [|exact Hm].
    apply nonneg_pos; [apply (rounds_to_nonneg _ _ R)|].
    pose proof (pos_xval (S754_finite false mg eg) I). lra.
Qed.

(** A quotient of positive floats with a finite numerator is finite
    and at most [k] when its exact value is. *)
Lemma SFdiv_at_most (a b : spec_float) (mk : positive) (ek : Z) :
  valid_binary a = true -> pos_float a -> pos_float b ->
  (xval a < bpow 1024)%Q ->
  valid_binary (S754_finite false mk ek) = true ->
  (xval a <= inject_Z (Zpos mk) * bpow ek * xval b)%Q ->
  finite_float (SFdiv prec emax a b)
  /\ (xval (SFdiv prec emax a b) <= inject_Z (Zpos mk) * bpow ek)%Q.
Proof.
  intros Va Pa Pb Ha Vk Hle.
  destruct (valid_pos_finite a Va Pa Ha) as (ma & ea & ->).
  pose proof (valid_finite_lt _ _ _ Vk) as (K0 & K1).
  destruct b as [s|[|]| |[|] mb eb]; try contradiction.
  - cbn [SFdiv xorb finite_float xval]. split; [exact I|lra].
  - pose proof (SFdiv_rounds_to ma ea mb eb) as R.
    pose proof (valid_rounds_to mk ek Vk) as Rk.
    pose proof (pos_xval _ Pb) as Hb. cbn [xval] in Hle, Hb.
    assert (Hv : (inject_Z (Zpos ma) * bpow ea
                  / (inject_Z (Zpos mb) * bpow eb)
                  <= inject_Z (Zpos mk) * bpow ek)%Q).
    { apply Qle_shift_div_r; [exact Hb|exact Hle]. }
    pose proof (rounds_to_mono _ _ _ _ R Rk Hv) as Hm.
    cbn [xval] in Hm.
    split; [|exact Hm].
    apply nonneg_below_max_finite; [apply (rounds_to_nonneg _ _ R)|].
    lra.
Qed.

(** *** The floats that rounding gives are floats of the format *)

Lemma build_valid (sx : bool) (m e : Z) :
  (forall p, m = Zpos p ->
     fexp prec emax (Zpos (digits2_pos p) + e) = e) ->
  valid_binary (build sx m e) = true.
Proof.
  intros H. destruct m as [|p|p]; cbn [build]; try reflexivity.
  specialize (H p eq_refl).
  destruct (Z.leb_spec e (emax - prec)) as [Hle|Hgt]; [|reflexivity].
  unfold valid_binary. cbn [SpecFloat.valid_binary].
  unfold bounded, canonical_mantissa.
  apply andb_true_iff. split; [apply Z.eqb_eq, H|apply Z.leb_le, Hle].
Qed.

Lemma finish_valid (sx : bool) (v : Q) (k : Z) :
  (bpow (k - 1) <= v < bpow k)%Q ->
  valid_binary (finish sx (rounded_mantissa v k) (fexp prec emax k)) = true.
Proof.
  intros Hk.
  pose proof (rounded_mantissa_bounds v k Hk) as (H0 & Hn & Hs).
  cbv zeta in Hn, Hs.
  set (m1 := rounded_mantissa v k) in *. clearbody m1.
  destruct (fexp_cases k) as [(E & Hr)|(E & Hr)]; rewrite E in *.
  - replace (k - (k - 53))%Z with 53%Z in Hn by lia.
    specialize (Hn ltac:(lia)). clear Hs.
    change (2 ^ (53 - 1))%Z with 4503599627370496%Z in Hn.
    change (2 ^ 53)%Z with 9007199254740992%Z in Hn.
    destruct (Z.eq_dec m1 9007199254740992) as [->|Hne].
    + rewrite finish_carry by (unfold fexp, emin, prec, emax; lia).
      apply build_valid. intros p Hp. injection Hp as <-.
      change (Zpos (digits2_pos 4503599627370496)) with 53%Z.
      unfold fexp, emin, prec, emax. lia.
    + destruct m1 as [|p|p]; try lia.
      assert (Ed : Zpos (digits2_pos p) = 53%Z).
      { apply digits2_pos_unique.
        change (2 ^ (53 - 1))%Z with 4503599627370496%Z.
        change (2 ^ 53)%Z with 9007199254740992%Z. lia. }
      rewrite finish_build
        by (cbn [Zdigits2]; rewrite Ed; unfold fexp, emin, prec, emax; lia).
      apply build_valid. intros p' Hp. injection Hp as <-.
      rewrite Ed. unfold fexp, emin, prec, emax. lia.
  - assert (Hm : (m1 <= 4503599627370496)%Z).
    { destruct (Z_le_gt_dec (k - -1074) 0) as [Hp|Hp].
      - specialize (Hs Hp). lia.
      - specialize (Hn ltac:(lia)).
        apply Z.le_trans with (2 ^ (k - -1074))%Z; [lia|].
        change 4503599627370496%Z with (2 ^ 52)%Z.
        apply Z.pow_le_mono_r; lia. }
    destruct m1 as [|p|p]; try lia.
    + rewrite finish_build
        by (cbn [Zdigits2]; unfold fexp, emin, prec, emax; lia).
      reflexivity.
    + assert (Hd : (Zpos (digits2_pos p) <= 53)%Z).
      { apply digits2_pos_le.
        change (2 ^ 53)%Z with 9007199254740992%Z. lia. }
      rewrite finish_build
        by (cbn [Zdigits2]; unfold fexp, emin, prec, emax; lia).
      apply build_valid. intros p' Hp. injection Hp as <-.
      unfold fexp, emin, prec, emax. lia.
Qed.

Lemma rounds_to_valid (v : Q) (o : spec_float) :
  rounds_to v o -> valid_binary o = true.
Proof. intros (k & Hk & ->). apply finish_valid, Hk. Qed.

(** The conversion of an [int] that is not negative, whatever its size. *)
Lemma from_int_nonneg (z : Z) :
  (0 <= z)%Z -> nonneg_float (Prim2SF (Binary64.from_int z)).
Proof.
  intros Hz. unfold Binary64.from_int.
  destruct z as [|p|p]; [| |lia].
  - cbn [binary_normalize]. rewrite Prim2SF_SF2Prim by reflexivity. exact I.
  - cbn [binary_normalize].
    pose proof (binary_round_rounds_to p 0) as R.
    rewrite Prim2SF_SF2Prim by (apply (rounds_to_valid _ _ R)).
    apply (rounds_to_nonneg _ _ R).
Qed.

Lemma from_int_pos (z : Z) :
  (0 < z)%Z -> pos_float (Prim2SF (Binary64.from_int z)).
Proof.
  intros Hz. unfold Binary64.from_int.
  destruct z as [|p|p]; try lia.
  cbn [binary_normalize].
  pose proof (binary_round_rounds_to p 0) as R.
  rewrite Prim2SF_SF2Prim by (apply (rounds_to_valid _ _ R)).
  apply (rounds_to_pos (inject_Z (Zpos p) * bpow 0)); [|exact R].
  change (bpow 0) with 1%Q. rewrite Qmult_1_r.
  apply Qle_trans with 1%Q.
  - change 1%Q with (bpow 0). apply bpow_le. lia.
  - change 1%Q with (inject_Z 1). rewrite <- Zle_Qle. lia.
Qed.

(** *** Signs through the sums *)

Lemma signed_as_sign_clear (x : spec_float) :
  signed_as false x -> sign_clear x.
Proof. destruct x as [s|s| |s m e]; cbn; auto. Qed.

Lemma nonneg_sign_clear (x : spec_float) : nonneg_float x -> sign_clear x.
Proof. destruct x as [s|[|]| |[|] m e]; cbn; auto; contradiction. Qed.

Lemma pos_above_zero (x : spec_float) : pos_float x -> above_zero x.
Proof. destruct x as [s|[|]| |[|] m e]; cbn; auto; contradiction. Qed.

Lemma SFadd_sign_clear (x y : spec_float) :
  sign_clear x -> sign_clear y -> sign_clear (SFadd prec emax x y).
Proof.
  destruct x as [sx|sx| |sx mx ex], y as [sy|sy| |sy my ey];
    cbn [sign_clear SFadd]; auto;
    try (intros -> ->; reflexivity);
    try (destruct sx, sy; cbn; auto; fail).
  intros -> ->. cbn [cond_Zopp].
  destruct (shl_align mx ex (Z.min ex ey)) as [mx' ex'].
  destruct (shl_align my ey (Z.min ex ey)) as [my' ey'].
  cbn [fst]. cbn [Z.add binary_normalize].
  apply signed_as_sign_clear, binary_round_signed.
Qed.

(* ================================================================== *)
(** ** Width layout *)

(** C5, as stated, fails: for the height [height_below_tolerance], usable
    width 190 and width gap 0, the label fits once and twice, the packing
    formula gives 380000000000, and the code returns 0. *)
Lemma number_across_width_differs_from_formula :
  calculate_number_across_width height_below_tolerance 190%float 0%float
  = Ok 0%Z
  /\ number_across_width_spec height_below_tolerance 190%float 0%float
     = Ok 380000000000%Z
  /\ calculate_number_across_width height_below_tolerance 190%float 0%float
     <> number_across_width_spec height_below_tolerance 190%float 0%float.
Proof.
  assert (Hcode : calculate_number_across_width height_below_tolerance
                    190%float 0%float = Ok 0%Z)
    by (vm_compute; reflexivity).
  assert (Hspec : number_across_width_spec height_below_tolerance
                    190%float 0%float = Ok 380000000000%Z)
    by (vm_compute; reflexivity).
  split; [exact Hcode|]. split; [exact Hspec|].
  rewrite Hcode, Hspec. discriminate.
Qed.

(** The same input in exact arithmetic. *)
Example number_across_width_differs_exact :
  @calculate_number_across_width Q _ 5e-10 190 0 = Ok 0%Z
  /\ @number_across_width_spec Q _ 5e-10 190 0 = Ok 380000000000%Z.
Proof. split; vm_compute; reflexivity. Qed.

(** C5, amended.  [calculate_number_across_width] returns 0 if [H <= 0] or
    [H > usable_width]; returns 1 if [H] fits and
    [H*2 + width_gap > usable_width]; otherwise it returns 0 if
    [H + width_gap <= 1e-9] and [floor((usable_width + width_gap) /
    (H + width_gap))] if not.  For H = 76.0, usable width 190 and width
    gap 5 it returns floor(195/81) = 2, on binary64 and in exact
    arithmetic. *)
Theorem number_across_width_cases :
  (forall (T : Type) (num : Number T) (H usable_width width_gap : T),
      let result := calculate_number_across_width H usable_width width_gap in
      ((H <=? of_int 0)%py = true \/ (usable_width <? H)%py = true ->
       result = Ok 0%Z)
      /\ ((H <=? of_int 0)%py = false ->
          (usable_width <? H)%py = false ->
          (H <=? usable_width)%py = true ->
          (usable_width <? (H * of_int 2 + width_gap))%py = true ->
          result = Ok 1%Z)
      /\ ((H <=? of_int 0)%py = false ->
          (usable_width <? H)%py = false ->
          (H <=? usable_width)%py
          && (usable_width <? (H * of_int 2 + width_gap))%py = false ->
          ((H + width_gap <=? tolerance)%py = true -> result = Ok 0%Z)
          /\ ((H + width_gap <=? tolerance)%py = false ->
              result
              = math_floor ((usable_width + width_gap) / (H + width_gap))%py)))
  /\ calculate_number_across_width 76%float 190%float 5%float = Ok 2%Z
  /\ math_floor (195 / 81)%float = Ok 2%Z
  /\ @calculate_number_across_width Q _ 76 190 5 = Ok 2%Z
  /\ @math_floor Q _ (195 / 81)%Q = Ok 2%Z.
Proof.
  split; [|repeat split; vm_compute; reflexivity].
  intros T num H usable_width width_gap result.
  unfold result, calculate_number_across_width.
  split; [|split].
  - intros [E|E].
    + rewrite E. reflexivity.
    + rewrite E. destruct (H <=? of_int 0)%py; reflexivity.
  - intros E1 E2 E3 E4. rewrite E1, E2, E3, E4. reflexivity.
  - intros E1 E2 E3. rewrite E1, E2, E3.
    split; intros E4; rewrite E4; reflexivity.
Qed.

Lemma number_across_width_cases_witness :
  calculate_number_across_width height_below_tolerance 190%float 0%float
  = Ok 0%Z.
Proof.
  destruct number_across_width_cases as (Hcases & _).
  destruct (Hcases float Binary64.number height_below_tolerance
              190%float 0%float) as (_ & _ & Hthird).
  destruct Hthird as (Hzero & _);
    [vm_compute; reflexivity .. | ].
  apply Hzero. vm_compute. reflexivity.
Defined.

(** C6, as stated, fails: on binary64 with usable width 190 and gap 5,
    the height -1 gives 0 labels and the greater height 76 gives 2. *)
Lemma number_across_width_increases_from_nonpositive_height :
  ~ @number_across_width_non_increasing float Binary64.number.
Proof.
  intros H.
  assert (Hle : (2 <= 0)%Z).
  { apply (H (-1)%float 76%float 190%float 5%float).
    - vm_compute. reflexivity.
    - vm_compute. reflexivity.
    - vm_compute. reflexivity. }
  lia.
Qed.

(** It fails in exact arithmetic as well, and also between two positive
    heights when the smaller one brings the denominator under the
    tolerance. *)
Example number_across_width_increases_exact :
  @calculate_number_across_width Q _ (-1) 190 5 = Ok 0%Z
  /\ @calculate_number_across_width Q _ 76 190 5 = Ok 2%Z
  /\ @calculate_number_across_width Q _ 1e-10 190 0 = Ok 0%Z
  /\ @calculate_number_across_width Q _ 1 190 0 = Ok 190%Z.
Proof. repeat split; vm_compute; reflexivity. Qed.

(** In exact arithmetic, for every usable width and width gap and all
    heights [0 < H1 <= H2] with [H1 + width_gap > 1e-9], the function
    returns for both heights and the count for [H2] is at most the count
    for [H1]. *)
Theorem number_across_width_non_increasing_positive :
  forall H1 H2 usable_width width_gap : Q,
    (0 < H1)%Q -> (H1 <= H2)%Q ->
    (@tolerance Q Exact.number < H1 + width_gap)%Q ->
    exists n1 n2 : Z,
      calculate_number_across_width H1 usable_width width_gap = Ok n1
      /\ calculate_number_across_width H2 usable_width width_gap = Ok n2
      /\ (n2 <= n1)%Z.
Proof.
  intros H1 H2 u g Hpos Hle Hden.
  pose proof tolerance_pos as Htol.
  assert (Hd1 : (0 < H1 + g)%Q) by lra.
  unfold calculate_number_across_width.
  cbn [add mul div of_int literal math_floor Exact.number].
  change (inject_Z 0) with 0%Q. change (inject_Z 2) with 2%Q.
  destruct (exact_leb_spec H1 0); [lra|].
  destruct (exact_leb_spec H2 0); [lra|].
  destruct (exact_ltb_spec u H1), (exact_ltb_spec u H2); try lra.
  - eexists _, _; repeat split. lia.
  - destruct (exact_leb_spec H1 u); [|lra].
    destruct (exact_ltb_spec u (H1 * 2 + g)); cbn [andb].
    + eexists _, _; repeat split. lia.
    + destruct (exact_leb_spec (H1 + g) tolerance); [lra|].
      eexists _, _; repeat split.
      apply (floor_at_least 0). change (inject_Z 0) with 0%Q.
      apply Qle_shift_div_l; lra.
  - destruct (exact_leb_spec H1 u); [|lra].
    destruct (exact_leb_spec H2 u); [|lra].
    destruct (exact_ltb_spec u (H1 * 2 + g)),
             (exact_ltb_spec u (H2 * 2 + g)); cbn [andb]; try lra.
    + eexists _, _; repeat split. lia.
    + destruct (exact_leb_spec (H1 + g) tolerance); [lra|].
      eexists _, _; repeat split.
      apply (floor_at_least 1). change (inject_Z 1) with 1%Q.
      apply Qle_shift_div_l; lra.
    + destruct (exact_leb_spec (H1 + g) tolerance); [lra|].
      destruct (exact_leb_spec (H2 + g) tolerance); [lra|].
      eexists _, _; repeat split.
      apply floor_div_antitone; lra.
Qed.

Lemma number_across_width_non_increasing_positive_witness :
  exists n1 n2 : Z,
    @calculate_number_across_width Q _ 40 190 5 = Ok n1
    /\ @calculate_number_across_width Q _ 76 190 5 = Ok n2
    /\ (n2 <= n1)%Z.
Proof.
  apply (number_across_width_non_increasing_positive 40 76 190 5);
    reflexivity || (vm_compute; discriminate).
Defined.

(** The rational [exact_value] gives for a float that is not below zero
    is its place in the order. *)
Lemma exact_value_xval (x : float) (s : bool) (q : Q) :
  Binary64.exact_value x = Ok (s, q) -> nonneg_float (Prim2SF x) ->
  (q == xval (Prim2SF x))%Q.
Proof.
  unfold Binary64.exact_value.
  destruct (Prim2SF x) as [s'|s'| |[|] m e]; try discriminate;
    try contradiction; intros H _; injection H as _ Hq; rewrite <- Hq;
    clear Hq.
  - reflexivity.
  - cbn [xval]. destruct e as [|k|k]; cbv beta iota zeta.
    + change (bpow 0) with 1%Q. ring.
    + change (inject_Z (Zpos m * Z.pow_pos 2 k)
              == inject_Z (Zpos m) * bpow (Zpos k))%Q.
      rewrite inject_Z_mult, (bpow_Z (Zpos k)) by lia. reflexivity.
    + rewrite Qmake_Qdiv, Pos2Z.inj_pow.
      assert (E : (bpow (Zneg k) * bpow (Zpos k) == 1)%Q).
      { rewrite <- bpow_add. replace (Zneg k + Zpos k)%Z with 0%Z by lia.
        reflexivity. }
      rewrite (bpow_Z (Zpos k)) in E by lia.
      assert (P : (0 < inject_Z (2 ^ Zpos k))%Q).
      { rewrite <- (bpow_Z (Zpos k)) by lia. apply bpow_pos. }
      revert E P.
      generalize (inject_Z (2 ^ Zpos k)) (bpow (Zneg k)) (inject_Z (Zpos m)).
      intros a b c E P.
      apply Qmult_inj_r with a; [lra|].
      setoid_replace (c / a * a)%Q with c by (field; lra).
      rewrite <- Qmult_assoc, E. ring.
Qed.

(** [math.floor] returns on a zero or a finite float only. *)
Lemma floor_finite (x : float) (n : Z) :
  Binary64.floor x = Ok n -> finite_float (Prim2SF x).
Proof.
  unfold Binary64.floor, Binary64.exact_value.
  destruct (Prim2SF x) as [s|s| |s m e]; try discriminate; intros _; exact I.
Qed.

(** ... and returns the floor of its value. *)
Lemma floor_xval (x : float) (n : Z) :
  Binary64.floor x = Ok n -> nonneg_float (Prim2SF x) ->
  n = Qfloor (xval (Prim2SF x)).
Proof.
  intros H N. unfold Binary64.floor in H.
  destruct (Binary64.exact_value x) as [[s q]|e] eqn:E; [|discriminate].
  injection H as <-.
  apply Qfloor_comp. apply (exact_value_xval x s q E N).
Qed.

(** The same for a quotient of the code. *)
Lemma floor_div_finite (a b : float) (n : Z) :
  Binary64.floor (a / b) = Ok n ->
  finite_float (SFdiv prec emax (Prim2SF a) (Prim2SF b)).
Proof.
  intros H. apply floor_finite in H.
  rewrite FloatAxioms.div_spec in H. exact H.
Qed.

Lemma floor_div_xval (a b : float) (n : Z) :
  Binary64.floor (a / b) = Ok n ->
  pos_float (Prim2SF a) -> pos_float (Prim2SF b) ->
  n = Qfloor (xval (SFdiv prec emax (Prim2SF a) (Prim2SF b))).
Proof.
  intros H Pa Pb. pose proof (floor_div_finite a b n H) as F.
  apply floor_xval in H.
  - rewrite FloatAxioms.div_spec in H. exact H.
  - rewrite FloatAxioms.div_spec. apply SFdiv_nonneg; assumption.
Qed.

(** Floors of numbers from 0 and from 1 on. *)
Lemma Qfloor_nonneg (q : Q) : (0 <= q)%Q -> (0 <= Qfloor q)%Z.
Proof. intros H. apply (Qfloor_resp_le 0 q H). Qed.

Lemma Qfloor_ge_one (q : Q) : (1 <= q)%Q -> (1 <= Qfloor q)%Z.
Proof. intros H. apply (Qfloor_resp_le 1 q H). Qed.

(** [math.floor] returns on every zero or finite float. *)
Lemma floor_returns (x : float) :
  finite_float (Prim2SF x) -> exists n : Z, Binary64.floor x = Ok n.
Proof.
  unfold Binary64.floor, Binary64.exact_value.
  destruct (Prim2SF x) as [s|s| |s m e]; cbn [finite_float]; try tauto;
    intros _; eexists; reflexivity.
Qed.

(** [x == x] fails on NaN only. *)
Lemma eqb_refl_not_nan (x : float) :
  PrimFloat.eqb x x = true -> Prim2SF x <> S754_nan.
Proof.
  rewrite FloatAxioms.eqb_spec. intros H E. rewrite E in H. discriminate.
Qed.

(** C6, amended.  On binary64, the arithmetic of the code: for every
    usable width and width gap and all heights [0 < H1 <= H2] with
    [H1 + width_gap > 1e-9], whenever the function returns for both
    heights, the count for [H2] is at most the count for [H1].  The sum,
    the product by 2 and the quotient are rounded, and rounding to
    nearest keeps the order; a usable width that is not a number, or a
    quotient beyond the format, makes [math.floor] raise. *)
Theorem number_across_width_non_increasing_binary64 :
  forall H1 H2 usable_width width_gap : float,
    (of_int 0 <? H1)%py = true ->
    (H1 <=? H2)%py = true ->
    (tolerance <? H1 + width_gap)%py = true ->
    forall n1 n2 : Z,
      calculate_number_across_width H1 usable_width width_gap = Ok n1 ->
      calculate_number_across_width H2 usable_width width_gap = Ok n2 ->
      (n2 <= n1)%Z.
Proof.
  intros H1 H2 u g Hpos Hle Hden n1 n2.
  unfold calculate_number_across_width.
  cbn [leb ltb add mul div of_int math_floor Binary64.number] in *.
  assert (E0 : Prim2SF (Binary64.from_int 0) = S754_zero false)
    by (vm_compute; reflexivity).
  assert (E2 : Prim2SF (Binary64.from_int 2) = float_two)
    by (vm_compute; reflexivity).
  assert (Pt : pos_float (Prim2SF tolerance)) by (vm_compute; exact I).
  pose proof (Prim2SF_valid tolerance) as Vt.
  pose proof (Prim2SF_valid H1) as V1. pose proof (Prim2SF_valid H2) as V2.
  pose proof (Prim2SF_valid u) as Vu.
  pose proof (Prim2SF_valid (H1 + g)) as VP1.
  pose proof (Prim2SF_valid (H2 + g)) as VP2.
  pose proof (Prim2SF_valid (u + g)) as VA.
  pose proof (Prim2SF_valid (H1 * Binary64.from_int 2)) as VD1.
  pose proof (Prim2SF_valid (H2 * Binary64.from_int 2)) as VD2.
  pose proof (Prim2SF_valid (H1 * Binary64.from_int 2 + g)) as VM1.
  pose proof (Prim2SF_valid (H2 * Binary64.from_int 2 + g)) as VM2.
  pose proof (floor_div_finite (u + g) (H1 + g) n1) as FF1.
  pose proof (floor_div_finite (u + g) (H2 + g) n2) as FF2.
  pose proof (floor_div_xval (u + g) (H1 + g) n1) as FX1.
  pose proof (floor_div_xval (u + g) (H2 + g) n2) as FX2.
  rewrite ?FloatAxioms.leb_spec, ?FloatAxioms.ltb_spec,
    ?FloatAxioms.add_spec, ?FloatAxioms.mul_spec in *.
  rewrite ?E0, ?E2 in *.
  unfold SF64add, SF64mul in *.
  set (h1 := Prim2SF H1) in *. set (h2 := Prim2SF H2) in *.
  set (uu := Prim2SF u) in *. set (gg := Prim2SF g) in *.
  set (tol := Prim2SF tolerance) in *.
  clearbody h1 h2 uu gg tol. clear E0 E2.
  assert (Ph1 : pos_float h1) by (apply lt_zero_pos; exact Hpos).
  destruct (le_pos h1 h2 V1 V2 Ph1 Hle) as (Ph2 & L12).
  rewrite (pos_not_le_zero h1 false Ph1), (pos_not_le_zero h2 false Ph2).
  destruct (lt_pos _ _ Vt VP1 Pt Hden) as (PP1 & Lt1).
  destruct (SFadd_mono h1 h2 gg V1 V2 Ph1 Ph2 L12 PP1) as (PP2 & LP).
  assert (G1 : SFleb (SFadd prec emax h1 gg) tol = false)
    by (apply xval_lt_not_le; auto using pos_nonneg).
  assert (G2 : SFleb (SFadd prec emax h2 gg) tol = false)
    by (apply xval_lt_not_le; auto using pos_nonneg; lra).
  rewrite G1, G2.
  destruct (SFltb uu h1) eqn:U1.
  - rewrite (lt_le_trans_pos uu h1 h2 Vu V1 V2 Ph1 Ph2 U1 L12).
    intros C1 C2. injection C1 as <-. injection C2 as <-. lia.
  - destruct (SFltb uu h2) eqn:U2.
    + pose proof (lt_not_nan _ _ U2) as Hn.
      destruct (not_lt_pos uu h1 Vu V1 Ph1 Hn U1) as (Pu & Lu1).
      destruct (SFadd_mono h1 uu gg V1 Vu Ph1 Pu Lu1 PP1) as (PA & LA).
      intros C1 C2. injection C2 as <-.
      destruct (SFleb h1 uu && SFltb uu _); [injection C1 as <-; lia|].
      rewrite (FX1 C1 PA PP1). apply Qfloor_nonneg, nonneg_xval.
    + assert (Hcase : uu = S754_nan \/ uu <> S754_nan)
        by (destruct uu; (left; reflexivity) || (right; discriminate)).
      destruct Hcase as [->|Hn].
      * assert (E : SFleb h1 S754_nan = false)
          by (destruct h1 as [s|s| |s m e]; reflexivity).
        rewrite E. cbn [andb]. intros C1 _.
        apply FF1 in C1.
        destruct gg as [s|s| |s m e]; exfalso; exact C1.
      * destruct (not_lt_pos uu h2 Vu V2 Ph2 Hn U2) as (Pu & Lu2).
        assert (Lu1 : (xval h1 <= xval uu)%Q) by lra.
        destruct (SFadd_mono h1 uu gg V1 Vu Ph1 Pu Lu1 PP1) as (PA & LA1).
        destruct (SFadd_mono h2 uu gg V2 Vu Ph2 Pu Lu2 PP2) as (_ & LA2).
        assert (B1 : SFleb h1 uu = true)
          by (apply leb_xval; auto using pos_nonneg).
        assert (B2 : SFleb h2 uu = true)
          by (apply leb_xval; auto using pos_nonneg).
        rewrite B1, B2. cbn [andb].
        destruct (SFltb uu (SFadd prec emax
                                  (SFmul prec emax h1 float_two) gg)) eqn:T1;
          destruct (SFltb uu (SFadd prec emax
                                    (SFmul prec emax h2 float_two) gg))
            eqn:T2.
        -- intros C1 C2. injection C1 as <-. injection C2 as <-. lia.
        -- exfalso.
           destruct (lt_pos _ _ Vu VM1 Pu T1) as (PM1 & LM1).
           destruct (SFmul_two_mono h1 h2 V1 V2 Ph1 Ph2 L12)
             as (Q1 & Q2 & LQ).
           destruct (SFadd_mono _ _ gg VD1 VD2 Q1 Q2 LQ PM1) as (PM2 & LM).
           assert (T : SFltb uu (SFadd prec emax
                                   (SFmul prec emax h2 float_two) gg)
                       = true).
           { apply ltb_xval; auto using pos_nonneg. lra. }
           congruence.
        -- intros C1 C2. injection C2 as <-.
           rewrite (FX1 C1 PA PP1). apply Qfloor_ge_one.
           apply SFdiv_ge_one; auto.
        -- intros C1 C2.
           rewrite (FX1 C1 PA PP1), (FX2 C2 PA PP2).
           apply Qfloor_resp_le. apply SFdiv_antitone; auto.
Qed.

Lemma number_across_width_non_increasing_binary64_witness :
  exists n1 n2 : Z,
    calculate_number_across_width 40%float 190%float 5%float = Ok n1
    /\ calculate_number_across_width 76%float 190%float 5%float = Ok n2
    /\ (n2 <= n1)%Z.
Proof.
  exists 4%Z, 2%Z.
  assert (E1 : calculate_number_across_width 40%float 190%float 5%float
               = Ok 4%Z) by (vm_compute; reflexivity).
  assert (E2 : calculate_number_across_width 76%float 190%float 5%float
               = Ok 2%Z) by (vm_compute; reflexivity).
  split; [exact E1|]. split; [exact E2|].
  apply (number_across_width_non_increasing_binary64
           40%float 76%float 190%float 5%float);
    solve [vm_compute; reflexivity | assumption].
Defined.

(** Between two positive heights the guard of the denominator breaks the
    order on binary64 too: with no gap, half a nanometre gives 0 labels
    and the greater height 1 gives 190. *)
Example number_across_width_increases_under_tolerance :
  PrimFloat.ltb 0 height_below_tolerance = true
  /\ PrimFloat.leb height_below_tolerance 1 = true
  /\ calculate_number_across_width height_below_tolerance 190%float 0%float
     = Ok 0%Z
  /\ calculate_number_across_width 1%float 190%float 0%float = Ok 190%Z.
Proof. repeat split; vm_compute; reflexivity. Qed.

(* ================================================================== *)
(** ** The costing pipeline *)

Lemma calculation_results {T : Type} {num : Number T} (i : Inputs T)
  (b : Solution T) (all : list (Solution T)) (q : Quote T) :
  calculation i = Ok (Results b all q) ->
  inputs_valid i = true
  /\ exists (y : Z) (msg : string),
      find_cylinder_specifications (template_width_W_input i)
      = Ok (Some b, all, msg)
      /\ calculate_number_across_width (template_height_H_input i)
           (of_int WORKING_WIDTH) (of_int WIDTH_GAP) = Ok y
      /\ q = compute_quote i b y.
Proof.
  unfold calculation. destruct (inputs_valid i); [|discriminate].
  intros H. split; [reflexivity|].
  apply bind_Ok in H. destruct H as ([[best all'] msg] & Hfind & H).
  apply bind_Ok in H. destruct H as (y & Hy & H).
  destruct best as [b'|].
  - injection H as <- <- <-. exists y, msg. auto.
  - destruct (str_in "Error" msg); discriminate.
Qed.

(** C7.  For every blank job for which a quote is computed, whatever the
    colour count, the quantity and the other inputs: the waste length is
    the base waste length, which is 50; the colour count used for waste and
    time is 1; the set-up time is 1 * 30 = 30 minutes. *)
Theorem blank_job_waste_and_setup :
  (forall (T : Type) (num : Number T) (i : Inputs T)
      (b : Solution T) (all : list (Solution T)) (q : Quote T),
      is_blank i = true ->
      calculation i = Ok (Results b all q) ->
      waste_length_m q = BASE_WASTE_LENGTH
      /\ num_colors_for_waste_time q = 1%Z
      /\ setup_time_min q = (1 * 30)%Z
      /\ setup_time_min q = 30%Z)
  /\ @BASE_WASTE_LENGTH float Binary64.number = 50%float
  /\ (@BASE_WASTE_LENGTH Q Exact.number == 50)%Q.
Proof.
  split; [|split; [vm_compute|]; reflexivity].
  intros T num i b all q Hblank H.
  apply calculation_results in H.
  destruct H as (_ & y & msg & _ & _ & ->).
  unfold compute_quote; simpl.
  unfold waste_length, setup_time, colors_for_waste_time.
  rewrite Hblank. repeat split.
Qed.

Lemma blank_job_waste_and_setup_witness :
  exists (b : Solution float) (all : list (Solution float)) (q : Quote float),
    calculation (default_inputs true 4) = Ok (Results b all q)
    /\ waste_length_m q = 50%float
    /\ num_colors_for_waste_time q = 1%Z
    /\ setup_time_min q = 30%Z.
Proof.
  destruct blank_job_waste_and_setup as (Hblank & Hbase & _).
  assert (E : exists b all q,
             calculation (default_inputs true 4) = Ok (Results b all q)).
  { vm_compute. do 3 eexists. reflexivity. }
  destruct E as (b & all & q & E). exists b, all, q.
  destruct (Hblank float Binary64.number (default_inputs true 4) b all q
              eq_refl E)
    as (Hwaste & Hcolors & _ & Hsetup).
  rewrite Hwaste, Hbase. auto.
Defined.

(** *** Profit *)





(** *** Material cost and machine labour cost *)

Lemma exact_material_cost (a p : Q) :
  (0 <= material_cost a p)%Q /\ ((p < 0)%Q -> (material_cost a p == 0)%Q).
Proof.
  unfold material_cost.
  cbn [mul of_int literal Exact.number]. change (inject_Z 0) with 0%Q.
  destruct (exact_ltb_spec 0 a), (exact_leb_spec 0 p); cbn [andb];
    split; intros; try reflexivity; try discriminate; try lra.
  nra.
Qed.

Lemma exact_machine_labor_cost (t p : Q) :
  (0 <= machine_labor_cost t p)%Q
  /\ ((p < 0)%Q -> (machine_labor_cost t p == 0)%Q).
Proof.
  unfold machine_labor_cost.
  cbn [mul div of_int literal Exact.number]. change (inject_Z 0) with 0%Q.
  destruct (exact_ltb_spec 0 t), (exact_leb_spec 0 p); cbn [andb];
    split; intros; try reflexivity; try discriminate; try lra.
  assert (Hh : (0 <= t / 60.0)%Q) by (apply Qle_shift_div_l; lra).
  nra.
Qed.

Lemma binary64_material_cost (a p : float) :
  PrimFloat.ltb (material_cost a p) 0 = false
  /\ (PrimFloat.ltb p 0 = true -> material_cost a p = 0%float).
Proof.
  unfold material_cost.
  cbn [ltb leb mul of_int literal Binary64.number].
  change (Binary64.from_int 0) with 0%float.
  split.
  - destruct (PrimFloat.ltb 0 a) eqn:Ea; [|reflexivity].
    destruct (PrimFloat.leb 0 p) eqn:Ep; [|reflexivity].
    cbn [andb]. apply sign_clear_not_below_zero.
    rewrite FloatAxioms.mul_spec. apply SFmul_sign_clear.
    + apply above_zero_sign_clear, ltb_zero_above_zero, Ea.
    + apply leb_zero_sign_clear, Ep.
  - intros Hp. rewrite (below_zero_not_leb p Hp), andb_false_r. reflexivity.
Qed.

Lemma binary64_machine_labor_cost (t p : float) :
  PrimFloat.ltb (machine_labor_cost t p) 0 = false
  /\ (PrimFloat.ltb p 0 = true -> machine_labor_cost t p = 0%float).
Proof.
  unfold machine_labor_cost.
  cbn [ltb leb mul div of_int literal Binary64.number].
  change (Binary64.from_int 0) with 0%float.
  change (Binary64.from_literal 60.0) with 60%float.
  split.
  - destruct (PrimFloat.ltb 0 t) eqn:Et; [|reflexivity].
    destruct (PrimFloat.leb 0 p) eqn:Ep; [|reflexivity].
    cbn [andb]. apply sign_clear_not_below_zero.
    rewrite FloatAxioms.mul_spec. apply SFmul_sign_clear.
    + rewrite FloatAxioms.div_spec. apply SFdiv_sign_clear.
      * apply above_zero_sign_clear, ltb_zero_above_zero, Et.
      * reflexivity.
    + apply leb_zero_sign_clear, Ep.
  - intros Hp. rewrite (below_zero_not_leb p Hp), andb_false_r. reflexivity.
Qed.

(** C10.  For every quote, the material cost and the machine labour cost
    are not negative, and a negative material price, respectively a
    negative labour price, gives a cost of 0: in exact arithmetic, and on
    binary64, where a cost is never below zero. *)
Theorem costs_never_negative :
  (forall (i : Inputs Q) (b : Solution Q) (y : Z),
      let q := compute_quote i b y in
      (0 <= total_material_cost_rsd q)%Q
      /\ (0 <= total_machine_labor_cost_rsd q)%Q
      /\ ((price_per_m2_input i < 0)%Q ->
          (total_material_cost_rsd q == 0)%Q)
      /\ ((machine_labor_price_per_hour i < 0)%Q ->
          (total_machine_labor_cost_rsd q == 0)%Q))
  /\ (forall (i : Inputs float) (b : Solution float) (y : Z),
         let q := compute_quote i b y in
         PrimFloat.ltb (total_material_cost_rsd q) 0 = false
         /\ PrimFloat.ltb (total_machine_labor_cost_rsd q) 0 = false
         /\ (PrimFloat.ltb (price_per_m2_input i) 0 = true ->
             total_material_cost_rsd q = 0%float)
         /\ (PrimFloat.ltb (machine_labor_price_per_hour i) 0 = true ->
             total_machine_labor_cost_rsd q = 0%float)).
Proof.
  split.
  - intros i b y q. unfold q, compute_quote.
    cbn [total_material_cost_rsd total_machine_labor_cost_rsd].
    split; [apply exact_material_cost|].
    split; [apply exact_machine_labor_cost|].
    split; [apply exact_material_cost | apply exact_machine_labor_cost].
  - intros i b y q. unfold q, compute_quote.
    cbn [total_material_cost_rsd total_machine_labor_cost_rsd].
    split; [apply binary64_material_cost|].
    split; [apply binary64_machine_labor_cost|].
    split; [apply binary64_material_cost | apply binary64_machine_labor_cost].
Qed.

Lemma costs_never_negative_witness :
  exists (b : Solution float) (all : list (Solution float)) (q : Quote float),
    calculation negative_price_inputs = Ok (Results b all q)
    /\ total_material_cost_rsd q = 0%float
    /\ total_machine_labor_cost_rsd q = 0%float.
Proof.
  destruct costs_never_negative as (_ & Hbinary64).
  assert (E : exists b all q,
             calculation negative_price_inputs = Ok (Results b all q)).
  { vm_compute. do 3 eexists. reflexivity. }
  destruct E as (b & all & q & E). exists b, all, q.
  split; [exact E|].
  destruct (calculation_results _ _ _ _ E) as (_ & y & msg & _ & _ & ->).
  destruct (Hbinary64 negative_price_inputs b y) as (_ & _ & Hm & Hl).
  split; [apply Hm | apply Hl]; reflexivity.
Defined.

(* ================================================================== *)
(** ** Time formatting *)

Lemma round_half_even_nearest (q : Q) :
  (inject_Z (round_half_even q) - (1 # 2) <= q
   <= inject_Z (round_half_even q) + (1 # 2))%Q.
Proof.
  unfold round_half_even.
  pose proof (Qfloor_le q) as Hlo. pose proof (Qlt_floor q) as Hhi.
  rewrite inject_Z_plus in Hhi. change (inject_Z 1) with 1%Q in Hhi.
  destruct (Qcompare_spec (q - inject_Z (Qfloor q)) (1 # 2)) as [E|E|E];
    [destruct (Z.even (Qfloor q))| |];
    rewrite ?inject_Z_plus; change (inject_Z 1) with 1%Q;
    revert Hlo Hhi E; generalize (inject_Z (Qfloor q)); intros qf Hlo Hhi E;
    lra.
Qed.

Lemma round_half_even_nonneg (q : Q) :
  (0 <= q)%Q -> (0 <= round_half_even q)%Z.
Proof.
  intros Hq. unfold round_half_even.
  assert (Hf : (0 <= Qfloor q)%Z) by (apply (floor_at_least 0), Hq).
  destruct (Qcompare _ _); [destruct (Z.even _)| |]; lia.
Qed.

Lemma binary64_exact_value_nonneg (x : float) (s : bool) (q : Q) :
  PrimFloat.ltb x 0 = false ->
  Binary64.exact_value x = Ok (s, q) -> (0 <= q)%Q.
Proof.
  intros Hx. apply not_below_zero_sign_clear in Hx.
  unfold Binary64.exact_value.
  destruct (Prim2SF x) as [s0|s0| |s0 m e]; try discriminate.
  - intros H. injection H as _ <-. apply Qle_refl.
  - simpl in Hx. subst s0. intros H. injection H as _ <-.
    destruct e as [|k|k]; unfold Qle; cbn [Qnum Qden inject_Z]; try lia.
    pose proof (Zpow_facts.Zpower_pos_pos 2 k eq_refl) as Hpow.
    destruct (Z.pow_pos 2 k); lia.
Qed.

(** C9.  [format_time] answers "N/A" for an input below zero.  Otherwise
    the input is rounded to an integer [r] and answered "0 min" if [r] is
    zero, "r min" if [r] is under 60, "h h" if [r] is 60 or more and a
    multiple of 60, and "h h m min" otherwise, with [h] and [m] the
    quotient and remainder of [r] by 60.  The rounding is to a nearest
    integer and keeps an input that is not below zero at or above zero:
    in exact arithmetic, and on binary64 with respect to the exact value
    of the float. *)
Theorem format_time_policy :
  (forall (T : Type) (num : Number T) (total_minutes : T),
      ((total_minutes <? of_int 0)%py = true ->
       format_time total_minutes = Ok "N/A")
      /\ ((total_minutes <? of_int 0)%py = false ->
          forall r : Z, py_round total_minutes = Ok r ->
            (r = 0%Z -> format_time total_minutes = Ok "0 min")
            /\ (r <> 0%Z -> (r < 60)%Z ->
                format_time total_minutes = Ok (str_of_int r ++ " min"))
            /\ ((60 <= r)%Z -> (r mod 60 = 0)%Z ->
                format_time total_minutes
                = Ok (str_of_int (r / 60) ++ " h"))
            /\ ((60 <= r)%Z -> (r mod 60 <> 0)%Z ->
                format_time total_minutes
                = Ok (str_of_int (r / 60) ++ " h "
                      ++ str_of_int (r mod 60) ++ " min"))))
  /\ (forall x : Q,
         exists r : Z,
           py_round x = Ok r
           /\ (inject_Z r - (1 # 2) <= x <= inject_Z r + (1 # 2))%Q
           /\ ((x <? of_int 0)%py = false -> (0 <= r)%Z))
  /\ (forall (x : float) (s : bool) (q : Q),
         Binary64.exact_value x = Ok (s, q) ->
         exists r : Z,
           py_round x = Ok r
           /\ (inject_Z r - (1 # 2) <= q <= inject_Z r + (1 # 2))%Q
           /\ ((x <? of_int 0)%py = false -> (0 <= r)%Z)).
Proof.
  split; [|split].
  - intros T num x. unfold format_time. split.
    + intros ->. reflexivity.
    + intros -> r ->. cbn [bind].
      split; [intros ->; reflexivity|].
      split; [|split].
      * intros Hr Hlt. apply Z.eqb_neq in Hr. apply Z.ltb_lt in Hlt.
        rewrite Hr, Hlt. reflexivity.
      * intros Hge Hmod.
        assert (Hr : (r =? 0)%Z = false) by (apply Z.eqb_neq; lia).
        assert (Hlt : (r <? 60)%Z = false) by (apply Z.ltb_ge; lia).
        rewrite Hr, Hlt, Hmod. reflexivity.
      * intros Hge Hmod.
        assert (Hr : (r =? 0)%Z = false) by (apply Z.eqb_neq; lia).
        assert (Hlt : (r <? 60)%Z = false) by (apply Z.ltb_ge; lia).
        apply Z.eqb_neq in Hmod.
        rewrite Hr, Hlt, Hmod. reflexivity.
  - intros x. exists (round_half_even x).
    split; [reflexivity|]. split; [apply round_half_even_nearest|].
    change (@of_int Q Exact.number 0) with 0%Q.
    destruct (exact_ltb_spec x 0); [discriminate|].
    intros _. apply round_half_even_nonneg. assumption.
  - intros x s q Hx. exists (round_half_even q).
    split; [|split; [apply round_half_even_nearest|]].
    + cbn [py_round Binary64.number]. unfold Binary64.round.
      rewrite Hx. reflexivity.
    + cbn [ltb of_int Binary64.number].
      change (Binary64.from_int 0) with 0%float.
      intros Hnot. apply round_half_even_nonneg.
      apply (binary64_exact_value_nonneg x s q Hnot Hx).
Qed.

Lemma format_time_policy_witness :
  format_time 282.25%float = Ok "4 h 42 min"
  /\ format_time (-0.25)%float = Ok "N/A".
Proof.
  destruct format_time_policy as (Hcases & _).
  destruct (Hcases float Binary64.number 282.25%float) as (_ & Hround).
  destruct (Hcases float Binary64.number (-0.25)%float) as (Hneg & _).
  split.
  - destruct (Hround eq_refl 282%Z eq_refl) as (_ & _ & _ & Hhm).
    apply Hhm; [lia | discriminate].
  - apply Hneg. reflexivity.
Defined.

Example format_time_samples :
  format_time 0.25%float = Ok "0 min"
  /\ format_time 59.5%float = Ok "1 h"
  /\ format_time 58.5%float = Ok "58 min"
  /\ format_time 120%float = Ok "2 h"
  /\ format_time (of_int 30 : float) = Ok "30 min"
  /\ format_time nan = Raise ValueError.
Proof. repeat split; vm_compute; reflexivity. Qed.

(* ================================================================== *)
(** * Further properties of the code *)

(** ** Geometry search: the shape of what is returned *)

(** The three results fit together as the caller assumes: the best
    solution is the first element of the sequence, it is absent exactly
    when the sequence is empty, the diagnostic is the success text exactly
    when the sequence is not empty, and with an empty sequence it is the
    width error for a rejected width and the no-cylinder text
    otherwise. *)
Theorem search_result_shape :
  forall (T : Type) (num : Number T) (W : T)
    (best : option (Solution T)) (sols : list (Solution T)) (msg : string),
    find_cylinder_specifications W = Ok (best, sols, msg) ->
    best = hd_error sols
    /\ (best = None <-> sols = [])
    /\ (msg = "Circumference calculation OK." <-> sols <> [])
    /\ (sols = [] ->
        ((W <=? of_int 0)%py = true /\ msg = width_error)
        \/ ((W <=? of_int 0)%py = false /\ msg = no_cylinder_message W)).
Proof.
  intros T num W best sols msg H.
  apply find_cylinder_specifications_returns in H.
  destruct H as [(Guard & -> & -> & ->)|(Guard & valid & Henum & H)].
  - repeat split; auto; try discriminate; try congruence.
  - destruct H as [(_ & -> & -> & ->)|(Hne & Hsols & -> & ->)].
    + repeat split; auto; try congruence.
      unfold no_cylinder_message. simpl. discriminate.
    + assert (Hne' : sols <> []).
      { intros E. apply Hne. apply Permutation_nil.
        rewrite <- E, Hsols. apply Permutation_sym, sort_by_key_perm. }
      repeat split; auto; try congruence.
      destruct sols; [congruence | discriminate].
Qed.

Lemma search_result_shape_witness :
  hd_error solutions_76 = hd_error solutions_76
  /\ (hd_error solutions_76 = None <-> solutions_76 = []).
Proof.
  destruct (search_result_shape float Binary64.number 76%float
              (hd_error solutions_76) solutions_76
              "Circumference calculation OK.") as (Hhd & Hnone & _).
  - vm_compute. reflexivity.
  - exact (conj Hhd Hnone).
Defined.

(** The returned sequence is strictly sorted: the tooth count goes up, and
    at one tooth count the repeat count goes down; so no pair [(Z, N)] is
    returned twice. *)
Theorem returned_sequence_strictly_sorted :
  forall (T : Type) (num : Number T) (W : T)
    (best : option (Solution T)) (sols : list (Solution T)) (msg : string),
    find_cylinder_specifications W = Ok (best, sols, msg) ->
    StronglySorted strictly_before sols
    /\ NoDup (map (fun s => (number_of_teeth_Z s,
                             templates_N_circumference s)) sols).
Proof.
  intros T num W best sols msg H.
  assert (Hs : StronglySorted strictly_before sols).
  { apply find_cylinder_specifications_returns in H.
    destruct H as [(_ & _ & -> & _)|(_ & valid & Henum & H)]; [constructor|].
    destruct H as [(_ & _ & -> & _)|(_ & -> & _)]; [constructor|].
    apply sorted_distinct_keys_strict; [apply sort_by_key_sorted|].
    apply (Permutation_NoDup
             (Permutation_map sort_key (sort_by_key_perm valid))).
    apply enumerated_keys_distinct, (enumerate_solutions_sorted W), Henum. }
  split; [assumption|].
  clear H. induction Hs as [|a l Hl IH Ha]; simpl; constructor; [|assumption].
  intros Hin. apply in_map_iff in Hin. destruct Hin as (b & Hkey & Hb).
  rewrite Forall_forall in Ha. specialize (Ha b Hb).
  injection Hkey as Hz Hn. unfold strictly_before in Ha. lia.
Qed.

Lemma returned_sequence_strictly_sorted_witness :
  StronglySorted strictly_before solutions_76.
Proof.
  destruct (returned_sequence_strictly_sorted float Binary64.number 76%float
              (hd_error solutions_76) solutions_76
              "Circumference calculation OK.") as (Hsorted & _).
  - vm_compute. reflexivity.
  - exact Hsorted.
Defined.

(** ** Strings: what a formatted number can contain *)

Lemma has_char_app (c : ascii) (s1 s2 : string) :
  has_char c (s1 ++ s2) = has_char c s1 || has_char c s2.
Proof.
  induction s1 as [|a s1 IH]; simpl; [reflexivity|].
  rewrite IH. apply orb_assoc.
Qed.

Lemma str_in_has_char (c : ascii) (needle s : string) :
  str_in (String c needle) s = true -> has_char c s = true.
Proof.
  induction s as [|a s IH]; simpl.
  - discriminate.
  - destruct (ascii_dec c a) as [->|Hne].
    + intros _. rewrite Ascii.eqb_refl. reflexivity.
    + intros H. rewrite (IH H). apply orb_true_r.
Qed.

Lemma has_char_false_inv (c a : ascii) (s : string) :
  has_char c s = false -> has_char a s = true -> Ascii.eqb a c = false.
Proof.
  induction s as [|x s IH]; cbn [has_char]; [discriminate|].
  intros Hc Ha. apply orb_false_iff in Hc. destruct Hc as (Hx & Hc).
  apply orb_true_iff in Ha. destruct Ha as [Ha|Ha]; [|auto].
  apply Ascii.eqb_eq in Ha. subst x. exact Hx.
Qed.

Section NumberChars.

Variable c : ascii.
Hypothesis Hc : has_char c number_chars = false.

Lemma number_char_differs (a : ascii) :
  has_char a number_chars = true -> Ascii.eqb a c = false.
Proof. apply has_char_false_inv, Hc. Qed.

Lemma has_char_string_of_uint (d : Decimal.uint) :
  has_char c (NilEmpty.string_of_uint d) = false.
Proof.
  induction d; cbn [NilEmpty.string_of_uint has_char];
    rewrite ?IHd; [reflexivity | rewrite number_char_differs; reflexivity ..].
Qed.

Lemma has_char_str_of_int (n : Z) : has_char c (str_of_int n) = false.
Proof.
  unfold str_of_int, NilZero.string_of_int.
  destruct (Z.to_int n) as [d|d]; unfold NilZero.string_of_uint.
  - destruct d;
      first [apply has_char_string_of_uint
            | cbn [has_char]; rewrite (number_char_differs "0" eq_refl);
              reflexivity].
  - cbn [has_char]. rewrite (number_char_differs "-" eq_refl). cbn [orb].
    destruct d;
      first [apply has_char_string_of_uint
            | cbn [has_char]; rewrite (number_char_differs "0" eq_refl);
              reflexivity].
Qed.

Lemma has_char_zeros (n : nat) : has_char c (zeros n) = false.
Proof.
  induction n as [|n IH]; cbn [zeros has_char]; [reflexivity|].
  rewrite IH, (number_char_differs "0" eq_refl). reflexivity.
Qed.

Lemma has_char_format_fixed_digits (d : nat) (neg : bool) (a : Q) :
  has_char c (format_fixed_digits d neg a) = false.
Proof.
  unfold format_fixed_digits, zero_pad.
  destruct neg, d; cbv iota;
    rewrite ?has_char_app, ?has_char_zeros, ?has_char_str_of_int;
    cbn [has_char];
    rewrite ?(number_char_differs "-" eq_refl),
      ?(number_char_differs "." eq_refl);
    reflexivity.
Qed.

Lemma has_char_exact_format (d : nat) (q : Q) :
  has_char c (Exact.format d q) = false.
Proof. apply has_char_format_fixed_digits. Qed.

Lemma has_char_binary64_format (d : nat) (x : float) :
  has_char c (Binary64.format d x) = false.
Proof.
  unfold Binary64.format, Binary64.exact_value.
  destruct (Prim2SF x) as [s|s| |s m e];
    try apply has_char_format_fixed_digits;
    try destruct s; cbn [has_char];
    rewrite ?(number_char_differs "-" eq_refl),
      ?(number_char_differs "n" eq_refl), ?(number_char_differs "a" eq_refl),
      ?(number_char_differs "i" eq_refl), ?(number_char_differs "f" eq_refl);
    reflexivity.
Qed.

End NumberChars.

(** ** The pages of the script *)

Lemma no_cylinder_message_prefix {T : Type} {num : Number T} (W : T) :
  str_in "No cylinder found" (no_cylinder_message W) = true
  /\ String.eqb (no_cylinder_message W) "" = false.
Proof. split; reflexivity. Qed.

Lemma calculation_pages {T : Type} {num : Number T} (i : Inputs T)
  (page : Page T) :
  str_in "Error" (no_cylinder_message (template_width_W_input i)) = false ->
  calculation i = Ok page -> page_explained i page.
Proof.
  intros Hfmt. unfold calculation, page_explained.
  destruct (inputs_valid i) eqn:Hvalid.
  2:{ intros H. injection H as <-. reflexivity. }
  intros H. apply bind_Ok in H.
  destruct H as ([[best all] msg] & Hfind & H).
  apply bind_Ok in H. destruct H as (y & Hy & H).
  pose proof (find_cylinder_specifications_returns _ _ _ _ Hfind) as Hret.
  destruct best as [b|].
  - injection H as <-.
    destruct Hret as [(_ & Hb & _)|(Guard & valid & _ & Hret)];
      [discriminate|].
    destruct Hret as [(_ & Hb & _)|(_ & _ & _ & ->)]; [discriminate|].
    split; [reflexivity|]. split; [assumption|]. split; [assumption|].
    exists y. auto.
  - destruct Hret as [(Guard & _ & -> & ->)|(Guard & valid & _ & Hret)].
    + cbv beta iota in H. unfold width_error in H.
      change (str_in "Error" "Error: Template width must be > 0.")
        with true in H.
      change (negb (String.eqb "Error: Template width must be > 0." "")
              && str_in "No cylinder found"
                   "Error: Template width must be > 0.")
        with false in H.
      cbv iota in H. injection H as <-. auto.
    + destruct Hret as [(_ & _ & -> & ->)|(Hne & Hsols & Hbest & _)].
      * destruct (no_cylinder_message_prefix (template_width_W_input i))
          as (Hprefix & Hnonempty).
        rewrite Hfmt, Hprefix, Hnonempty in H. cbn [negb andb] in H.
        injection H as <-. auto.
      * exfalso. apply Hne. apply Permutation_nil.
        destruct all as [|a all']; [|discriminate].
        rewrite Hsols. apply Permutation_sym, sort_by_key_perm.
Qed.

Lemma no_error_in_message (msg : string) :
  has_char "E" msg = false -> str_in "Error" msg = false.
Proof.
  intros H. destruct (str_in "Error" msg) eqn:E; [|reflexivity].
  apply str_in_has_char in E. congruence.
Qed.

Lemma binary64_no_cylinder_message (W : float) :
  str_in "Error" (no_cylinder_message W) = false.
Proof.
  apply no_error_in_message. unfold no_cylinder_message.
  cbn [format_fixed Binary64.number].
  rewrite !has_char_app, !has_char_binary64_format, !has_char_str_of_int
    by reflexivity.
  reflexivity.
Qed.

Lemma exact_no_cylinder_message (W : Q) :
  str_in "Error" (no_cylinder_message W) = false.
Proof.
  apply no_error_in_message. unfold no_cylinder_message.
  cbn [format_fixed Exact.number].
  rewrite !has_char_app, !has_char_exact_format, !has_char_str_of_int
    by reflexivity.
  reflexivity.
Qed.

(** Every run of the script that does not raise ends on one of four
    pages, and the page tells why.  The request to enter parameters
    appears exactly for inputs that are not valid.  An error appears for a
    width that is not positive, with the text "Calculation error: Error:
    Template width must be > 0.".  A warning appears when the search
    found no cylinder, with the search's own diagnostic.  Results appear
    only with a best solution, and the quote is computed from that
    solution and the layout count of the height.  This holds on binary64
    and in exact arithmetic. *)
Theorem page_taxonomy :
  (forall (i : Inputs float) (page : Page float),
      calculation i = Ok page -> page_explained i page)
  /\ (forall (i : Inputs Q) (page : Page Q),
         calculation i = Ok page -> page_explained i page).
Proof.
  split; intros i page; apply calculation_pages.
  - apply binary64_no_cylinder_message.
  - apply exact_no_cylinder_message.
Qed.

Lemma page_taxonomy_witness :
  calculation (inputs_of_size width_149_9 76%float)
  = Ok (ShowWarning
          "No cylinder found (70-140 teeth) for W=149.900mm with G=2.5-4.0mm.")
  /\ page_explained (inputs_of_size width_149_9 76%float)
       (ShowWarning
          "No cylinder found (70-140 teeth) for W=149.900mm with G=2.5-4.0mm.")
  /\ page_explained (inputs_of_size (-1)%float 76%float)
       (ShowError "Calculation error: Error: Template width must be > 0.").
Proof.
  destruct page_taxonomy as (Hbinary64 & _).
  assert (Hwarn : calculation (inputs_of_size width_149_9 76%float)
                  = Ok (ShowWarning
                          "No cylinder found (70-140 teeth) for W=149.900mm with G=2.5-4.0mm."))
    by (vm_compute; reflexivity).
  split; [exact Hwarn|]. split.
  - apply Hbinary64. exact Hwarn.
  - apply Hbinary64. vm_compute. reflexivity.
Defined.

(** ** The table of other possible solutions *)

Lemma filter_all {A : Type} (f : A -> bool) (l : list A) :
  (forall a, In a l -> f a = true) -> filter f l = l.
Proof.
  induction l as [|a l IH]; intros H; simpl; [reflexivity|].
  rewrite (H a (or_introl eq_refl)). f_equal.
  apply IH. intros b Hb. apply H. right. exact Hb.
Qed.

Lemma other_solutions_tail {T : Type} {num : Number T} (W : T)
  (best : Solution T) (sols : list (Solution T)) (msg : string) :
  find_cylinder_specifications W = Ok (Some best, sols, msg) ->
  (circumference_mm best =? circumference_mm best)%py = true ->
  (gap_G_circumference_mm best =? gap_G_circumference_mm best)%py = true ->
  other_solutions_data best sols = tl sols.
Proof.
  intros H Hcirc Hgap.
  assert (Hsorted : StronglySorted strictly_before sols).
  { pose proof (find_cylinder_specifications_returns _ _ _ _ H) as Hret.
    destruct Hret as [(_ & _ & -> & _)|(_ & valid & Henum & Hret)];
      [constructor|].
    destruct Hret as [(_ & _ & -> & _)|(_ & -> & _)]; [constructor|].
    apply sorted_distinct_keys_strict; [apply sort_by_key_sorted|].
    apply (Permutation_NoDup
             (Permutation_map sort_key (sort_by_key_perm valid))).
    apply enumerated_keys_distinct, (enumerate_solutions_sorted W), Henum. }
  assert (Hhd : hd_error sols = Some best).
  { pose proof (find_cylinder_specifications_returns _ _ _ _ H) as Hret.
    destruct Hret as [(_ & Hb & _)|(_ & valid & _ & Hret)]; [discriminate|].
    destruct Hret as [(_ & Hb & _)|(_ & _ & Hb & _)]; [discriminate|].
    symmetry. exact Hb. }
  destruct sols as [|b rest]; [discriminate|].
  injection Hhd as ->.
  apply StronglySorted_inv in Hsorted. destruct Hsorted as (_ & Hrest).
  unfold other_solutions_data. cbn [filter tl].
  assert (Hself : solution_eqb best best = true).
  { unfold solution_eqb. rewrite !Z.eqb_refl, Hcirc, Hgap. reflexivity. }
  rewrite Hself. cbn [negb]. apply filter_all.
  intros s Hs. rewrite Forall_forall in Hrest. specialize (Hrest s Hs).
  unfold solution_eqb.
  destruct (Z.eqb_spec (number_of_teeth_Z s) (number_of_teeth_Z best))
    as [Ez|Ez]; [|reflexivity].
  destruct (Z.eqb_spec (templates_N_circumference s)
              (templates_N_circumference best)) as [En|En].
  - unfold strictly_before in Hrest. lia.
  - cbn [andb]. rewrite andb_false_r. reflexivity.
Qed.

Lemma binary64_leb_eqb_refl (x y : float) :
  PrimFloat.leb x y = true -> PrimFloat.eqb y y = true.
Proof.
  rewrite FloatAxioms.leb_spec, FloatAxioms.eqb_spec.
  unfold SFleb, SFeqb.
  destruct (Prim2SF y) as [s|s| |s m e];
    [reflexivity | destruct s; reflexivity
    | destruct (Prim2SF x); discriminate |].
  intros _. simpl. rewrite Z.compare_refl.
  change (Pos.compare_cont Eq m m) with (Pos.compare m m).
  rewrite Pos.compare_refl. destruct s; reflexivity.
Qed.

Lemma binary64_circumferences_eqb_refl (z : Z) :
  (Z_MIN <= z <= Z_MAX)%Z ->
  PrimFloat.eqb (of_int z * PITCH)%py (of_int z * PITCH)%py = true.
Proof.
  intros Hz.
  assert (Hall : forallb (fun z => PrimFloat.eqb (of_int z * PITCH)%py
                                     (of_int z * PITCH)%py)
                   (range Z_MIN (Z_MAX + 1)) = true)
    by (vm_compute; reflexivity).
  rewrite forallb_forall in Hall. apply Hall. apply in_range. lia.
Qed.

(** The table of other possible solutions lists the returned sequence
    without its first element, in the same order: the comparison with the
    best solution removes the best solution and nothing else.  This holds
    on binary64, where no returned circumference or gap is a NaN, and in
    exact arithmetic. *)
Theorem other_solutions_are_the_rest :
  (forall (W : float) (best : Solution float) (sols : list (Solution float))
      (msg : string),
      find_cylinder_specifications W = Ok (Some best, sols, msg) ->
      other_solutions_data best sols = tl sols)
  /\ (forall (W : Q) (best : Solution Q) (sols : list (Solution Q))
        (msg : string),
        find_cylinder_specifications W = Ok (Some best, sols, msg) ->
        other_solutions_data best sols = tl sols).
Proof.
  split; intros W best sols msg H.
  - assert (Hin : enumerated W best).
    { pose proof (find_cylinder_specifications_returns _ _ _ _ H) as Hret.
      destruct Hret as [(_ & Hb & _)|(Guard & valid & _ & Hret)];
        [discriminate|].
      apply (returned_solution_enumerated W _ _ _ best H Guard).
      destruct Hret as [(_ & Hb & _)|(_ & _ & Hb & _)]; [discriminate|].
      destruct sols as [|b rest]; [discriminate|].
      injection Hb as ->. left. reflexivity. }
    destruct Hin as (Hz & _ & _ & HC & _ & Hacc).
    apply (other_solutions_tail W best sols msg H).
    + rewrite HC. apply binary64_circumferences_eqb_refl, Hz.
    + unfold gap_accepted in Hacc. apply andb_true_iff in Hacc.
      destruct Hacc as (Hlo & _).
      apply (binary64_leb_eqb_refl _ _ Hlo).
  - apply (other_solutions_tail W best sols msg H);
      apply Qeq_bool_iff, Qeq_refl.
Qed.

Lemma other_solutions_are_the_rest_witness :
  other_solutions_data
    {| number_of_teeth_Z := 75; circumference_mm := 238.125%float;
       templates_N_circumference := 3;
       gap_G_circumference_mm := 3.375%float |} solutions_76
  = tl solutions_76.
Proof.
  destruct other_solutions_are_the_rest as (Hbinary64 & _).
  apply (Hbinary64 76%float _ _ "Circumference calculation OK.").
  vm_compute. reflexivity.
Defined.

(** ** A label that does not fit across the web *)

Lemma number_across_width_too_tall {T : Type} {num : Number T}
  (H usable_width width_gap : T) (y : Z) :
  (usable_width <? H)%py = true ->
  calculate_number_across_width H usable_width width_gap = Ok y -> y = 0%Z.
Proof.
  unfold calculate_number_across_width. intros E.
  destruct (H <=? of_int 0)%py; [|rewrite E]; intros Hy;
    injection Hy as <-; reflexivity.
Qed.

Lemma number_across_width_no_height {T : Type} {num : Number T}
  (H usable_width width_gap : T) (y : Z) :
  (H <=? of_int 0)%py = true ->
  calculate_number_across_width H usable_width width_gap = Ok y -> y = 0%Z.
Proof.
  unfold calculate_number_across_width. intros ->. intros Hy.
  injection Hy as <-. reflexivity.
Qed.

(** The quote of a layout count of 0, field by field, on binary64. *)
Lemma binary64_quote_of_no_column (i : Inputs float) (b : Solution float) :
  let q := compute_quote i b 0 in
  required_material_width_mm q = 0%float
  /\ material_width_exceeded q = false
  /\ total_production_length_m q = 0%float
  /\ total_production_area_m2 q = 0%float
  /\ production_consumption_message q = "y=0, consumption N/A."
  /\ waste_area_m2 q = 0%float
  /\ total_final_length_m q = (0 + waste_length_m q)%float
  /\ total_final_area_m2 q = 0%float
  /\ production_time_min q = 0%float
  /\ total_ink_varnish_cost_rsd q = 0%float
  /\ total_material_cost_rsd q = 0%float
  /\ profit_rsd q = 0%float
  /\ total_selling_price_rsd q
     = (0 + total_plate_cost_rsd q + 0 + total_machine_labor_cost_rsd q
        + total_tool_cost_rsd q + 0)%float.
Proof.
  unfold compute_quote; cbn -[waste_length setup_time colors_for_calc].
  rewrite !andb_false_r. repeat split; reflexivity.
Qed.

Lemma exact_quote_of_no_column (i : Inputs Q) (b : Solution Q) :
  let q := compute_quote i b 0 in
  (required_material_width_mm q == 0)%Q
  /\ material_width_exceeded q = false
  /\ (total_production_length_m q == 0)%Q
  /\ (total_production_area_m2 q == 0)%Q
  /\ production_consumption_message q = "y=0, consumption N/A."
  /\ (waste_area_m2 q == 0)%Q
  /\ (total_final_length_m q == waste_length_m q)%Q
  /\ (total_final_area_m2 q == 0)%Q
  /\ (production_time_min q == 0)%Q
  /\ (total_ink_varnish_cost_rsd q == 0)%Q
  /\ (total_material_cost_rsd q == 0)%Q
  /\ (profit_rsd q == 0)%Q
  /\ (total_selling_price_rsd q
      == total_plate_cost_rsd q + total_machine_labor_cost_rsd q
         + total_tool_cost_rsd q)%Q.
Proof.
  unfold compute_quote; cbn -[waste_length setup_time colors_for_calc].
  rewrite !andb_false_r. repeat split; try reflexivity; ring.
Qed.

(** A label that cannot be placed, its height not positive or above the
    working width, still gets a results page.  Its layout count is 0, so
    no material width is required, no production length, area or time is
    computed, the message "y=0, consumption N/A." is set, and the costs of
    ink, varnish and material and the profit are 0: the selling price is
    made of plates, machine labour and tool only.  This holds on binary64
    and in exact arithmetic. *)
Theorem unplaceable_label_quote :
  (forall (i : Inputs float) (b : Solution float)
      (all : list (Solution float)) (q : Quote float),
      calculation i = Ok (Results b all q) ->
      (template_height_H_input i <=? of_int 0)%py = true
      \/ (of_int WORKING_WIDTH <? template_height_H_input i)%py = true ->
      number_across_width_y q = 0%Z
      /\ total_templates_per_cycle q = 0%Z
      /\ required_material_width_mm q = 0%float
      /\ material_width_exceeded q = false
      /\ total_production_length_m q = 0%float
      /\ total_production_area_m2 q = 0%float
      /\ production_consumption_message q = "y=0, consumption N/A."
      /\ waste_area_m2 q = 0%float
      /\ total_final_area_m2 q = 0%float
      /\ production_time_min q = 0%float
      /\ total_ink_varnish_cost_rsd q = 0%float
      /\ total_material_cost_rsd q = 0%float
      /\ profit_rsd q = 0%float
      /\ total_selling_price_rsd q
         = (0 + total_plate_cost_rsd q + 0 + total_machine_labor_cost_rsd q
            + total_tool_cost_rsd q + 0)%float)
  /\ (forall (i : Inputs Q) (b : Solution Q)
        (all : list (Solution Q)) (q : Quote Q),
        calculation i = Ok (Results b all q) ->
        (template_height_H_input i <=? of_int 0)%py = true
        \/ (of_int WORKING_WIDTH <? template_height_H_input i)%py = true ->
        number_across_width_y q = 0%Z
        /\ total_templates_per_cycle q = 0%Z
        /\ (required_material_width_mm q == 0)%Q
        /\ material_width_exceeded q = false
        /\ (total_production_length_m q == 0)%Q
        /\ (total_production_area_m2 q == 0)%Q
        /\ production_consumption_message q = "y=0, consumption N/A."
        /\ (waste_area_m2 q == 0)%Q
        /\ (total_final_area_m2 q == 0)%Q
        /\ (production_time_min q == 0)%Q
        /\ (total_ink_varnish_cost_rsd q == 0)%Q
        /\ (total_material_cost_rsd q == 0)%Q
        /\ (profit_rsd q == 0)%Q
        /\ (total_selling_price_rsd q
            == total_plate_cost_rsd q + total_machine_labor_cost_rsd q
               + total_tool_cost_rsd q)%Q).
Proof.
  split; intros i b all q H Htall;
    apply calculation_results in H;
    destruct H as (_ & y & msg & _ & Hy & ->);
    assert (y = 0%Z)
      by (destruct Htall as [Hlow|Htall];
          [exact (number_across_width_no_height _ _ _ _ Hlow Hy)
          | exact (number_across_width_too_tall _ _ _ _ Htall Hy)]);
    subst y.
  - pose proof (binary64_quote_of_no_column i b) as Hq. cbv zeta in Hq.
    split; [reflexivity|]. split; [reflexivity|]. tauto.
  - pose proof (exact_quote_of_no_column i b) as Hq. cbv zeta in Hq.
    split; [reflexivity|]. split; [reflexivity|]. tauto.
Qed.

Lemma unplaceable_label_quote_witness :
  exists (b : Solution float) (all : list (Solution float)) (q : Quote float),
    calculation (inputs_of_size 76%float 200%float) = Ok (Results b all q)
    /\ number_across_width_y q = 0%Z
    /\ total_material_cost_rsd q = 0%float
    /\ profit_rsd q = 0%float.
Proof.
  destruct unplaceable_label_quote as (Hbinary64 & _).
  assert (E : exists b all q,
             calculation (inputs_of_size 76%float 200%float)
             = Ok (Results b all q)).
  { vm_compute. do 3 eexists. reflexivity. }
  destruct E as (b & all & q & E). exists b, all, q.
  split; [exact E|].
  destruct (Hbinary64 _ b all q E (or_intror eq_refl)) as
    (Hy & _ & _ & _ & _ & _ & _ & _ & _ & _ & _ & Hm & Hp & _).
  auto.
Defined.

(** ** A label that fits across the web *)

(** On binary64, a label that fits across the usable width gets at least
    one column, whatever the rounding of the sums and of the quotient. *)
Lemma fitting_label_gets_a_column :
  forall H usable_width width_gap : float,
    (of_int 0 <? H)%py = true ->
    (H <=? usable_width)%py = true ->
    (tolerance <? H + width_gap)%py = true ->
    forall y : Z,
      calculate_number_across_width H usable_width width_gap = Ok y ->
      (1 <= y)%Z.
Proof.
  intros H u g Hpos Hfit Hden y.
  unfold calculate_number_across_width.
  cbn [leb ltb add mul div of_int math_floor Binary64.number] in *.
  assert (E0 : Prim2SF (Binary64.from_int 0) = S754_zero false)
    by (vm_compute; reflexivity).
  assert (Pt : pos_float (Prim2SF tolerance)) by (vm_compute; exact I).
  pose proof (Prim2SF_valid tolerance) as Vt.
  pose proof (Prim2SF_valid H) as VH. pose proof (Prim2SF_valid u) as Vu.
  pose proof (Prim2SF_valid (H + g)) as VP.
  pose proof (Prim2SF_valid (u + g)) as VA.
  pose proof (floor_div_finite (u + g) (H + g) y) as FF.
  pose proof (floor_div_xval (u + g) (H + g) y) as FX.
  rewrite ?FloatAxioms.leb_spec, ?FloatAxioms.ltb_spec,
    ?FloatAxioms.add_spec, ?FloatAxioms.mul_spec in *.
  rewrite ?E0 in *. unfold SF64add, SF64mul in *.
  set (h := Prim2SF H) in *. set (uu := Prim2SF u) in *.
  set (gg := Prim2SF g) in *. set (tol := Prim2SF tolerance) in *.
  clearbody h uu gg tol. clear E0.
  assert (Ph : pos_float h) by (apply lt_zero_pos; exact Hpos).
  destruct (le_pos h uu VH Vu Ph Hfit) as (Pu & Lu).
  destruct (lt_pos _ _ Vt VP Pt Hden) as (PP & Lt).
  destruct (SFadd_mono h uu gg VH Vu Ph Pu Lu PP) as (PA & LA).
  rewrite (pos_not_le_zero h false Ph).
  assert (U : SFltb uu h = false).
  { destruct (SFltb uu h) eqn:E; [|reflexivity].
    apply ltb_xval in E; auto using pos_nonneg. lra. }
  assert (G : SFleb (SFadd prec emax h gg) tol = false)
    by (apply xval_lt_not_le; auto using pos_nonneg).
  rewrite U, Hfit, G. cbn [andb].
  destruct (SFltb uu (SFadd _ _ _ _)); intros C.
  - injection C as <-. lia.
  - rewrite (FX C PA PP). apply Qfloor_ge_one.
    apply SFdiv_ge_one; auto.
Qed.

(** On binary64, for every positive height and every gap with
    [H + width_gap > 1e-9], a wider usable width never gives fewer columns:
    whenever the function returns for both widths, the count for the
    smaller one is at most the count for the greater one. *)
Theorem number_across_width_non_decreasing_in_usable_width :
  forall H usable1 usable2 width_gap : float,
    (of_int 0 <? H)%py = true ->
    (usable1 <=? usable2)%py = true ->
    (tolerance <? H + width_gap)%py = true ->
    forall n1 n2 : Z,
      calculate_number_across_width H usable1 width_gap = Ok n1 ->
      calculate_number_across_width H usable2 width_gap = Ok n2 ->
      (n1 <= n2)%Z.
Proof.
  intros H u1 u2 g Hpos Hle Hden n1 n2 C1 C2.
  destruct (PrimFloat.leb H u2) eqn:F2.
  - pose proof (fitting_label_gets_a_column H u2 g Hpos F2 Hden n2 C2) as Y2.
    destruct (PrimFloat.leb H u1) eqn:F1.
    + revert C1 C2. unfold calculate_number_across_width.
      cbn [leb ltb add mul div of_int math_floor Binary64.number] in *.
      assert (E0 : Prim2SF (Binary64.from_int 0) = S754_zero false)
        by (vm_compute; reflexivity).
      assert (E2 : Prim2SF (Binary64.from_int 2) = float_two)
        by (vm_compute; reflexivity).
      assert (Pt : pos_float (Prim2SF tolerance)) by (vm_compute; exact I).
      pose proof (Prim2SF_valid tolerance) as Vt.
      pose proof (Prim2SF_valid H) as VH.
      pose proof (Prim2SF_valid u1) as Vu1.
      pose proof (Prim2SF_valid u2) as Vu2.
      pose proof (Prim2SF_valid (H + g)) as VP.
      pose proof (Prim2SF_valid (u1 + g)) as VA1.
      pose proof (Prim2SF_valid (u2 + g)) as VA2.
      pose proof (Prim2SF_valid (H * Binary64.from_int 2 + g)) as VM.
      pose proof (floor_div_finite (u1 + g) (H + g) n1) as FF1.
      pose proof (floor_div_finite (u2 + g) (H + g) n2) as FF2.
      pose proof (floor_div_xval (u1 + g) (H + g) n1) as FX1.
      pose proof (floor_div_xval (u2 + g) (H + g) n2) as FX2.
      rewrite ?FloatAxioms.leb_spec, ?FloatAxioms.ltb_spec,
        ?FloatAxioms.add_spec, ?FloatAxioms.mul_spec in *.
      rewrite ?E0, ?E2 in *. unfold SF64add, SF64mul in *.
      set (h := Prim2SF H) in *. set (uu1 := Prim2SF u1) in *.
      set (uu2 := Prim2SF u2) in *.
      set (gg := Prim2SF g) in *. set (tol := Prim2SF tolerance) in *.
      clearbody h uu1 uu2 gg tol. clear E0 E2.
      assert (Ph : pos_float h) by (apply lt_zero_pos; exact Hpos).
      destruct (le_pos h uu1 VH Vu1 Ph F1) as (Pu1 & Lu1).
      destruct (le_pos h uu2 VH Vu2 Ph F2) as (Pu2 & Lu2).
      destruct (le_pos uu1 uu2 Vu1 Vu2 Pu1 Hle) as (_ & L12).
      destruct (lt_pos _ _ Vt VP Pt Hden) as (PP & Lt).
      destruct (SFadd_mono h uu1 gg VH Vu1 Ph Pu1 Lu1 PP) as (PA1 & LA1).
      destruct (SFadd_mono uu1 uu2 gg Vu1 Vu2 Pu1 Pu2 L12 PA1)
        as (PA2 & LA2).
      rewrite (pos_not_le_zero h false Ph).
      assert (U1 : SFltb uu1 h = false).
      { destruct (SFltb uu1 h) eqn:E; [|reflexivity].
        apply ltb_xval in E; auto using pos_nonneg. lra. }
      assert (U2 : SFltb uu2 h = false).
      { destruct (SFltb uu2 h) eqn:E; [|reflexivity].
        apply ltb_xval in E; auto using pos_nonneg. lra. }
      assert (G : SFleb (SFadd prec emax h gg) tol = false)
        by (apply xval_lt_not_le; auto using pos_nonneg).
      rewrite U1, U2, F1, F2, G. cbn [andb].
      destruct (SFltb uu1 (SFadd _ _ _ _)) eqn:T1.
      * intros C1 _. injection C1 as <-. exact Y2.
      * destruct (SFltb uu2 (SFadd _ _ _ _)) eqn:T2.
        -- exfalso.
           destruct (lt_pos _ _ Vu2 VM Pu2 T2) as (PM & LM).
           assert (T : SFltb uu1 (SFadd prec emax
                                    (SFmul prec emax h float_two) gg) = true).
           { apply ltb_xval; auto using pos_nonneg. lra. }
           congruence.
        -- intros C1 C2.
           rewrite (FX1 C1 PA1 PP), (FX2 C2 PA2 PP).
           apply Qfloor_resp_le. apply SFdiv_mono_num; auto.
    + assert (E : n1 = 0%Z); [|lia].
      revert C1. unfold calculate_number_across_width.
      cbn [leb ltb add mul div of_int math_floor Binary64.number] in *.
      assert (E0 : Prim2SF (Binary64.from_int 0) = S754_zero false)
        by (vm_compute; reflexivity).
      pose proof (Prim2SF_valid H) as VH.
      pose proof (Prim2SF_valid u1) as Vu1.
      rewrite ?FloatAxioms.leb_spec, ?FloatAxioms.ltb_spec in *.
      rewrite ?E0 in *.
      destruct (le_not_nan _ _ Hle) as (Hn & _).
      assert (Ph : pos_float (Prim2SF H)) by (apply lt_zero_pos; exact Hpos).
      rewrite (pos_not_le_zero _ false Ph).
      rewrite (not_le_lt _ _ Vu1 VH Ph Hn F1).
      intros C1. injection C1 as <-. reflexivity.
  - assert (E : n1 = 0%Z /\ n2 = 0%Z); [|lia].
    revert C1 C2. unfold calculate_number_across_width.
    cbn [leb ltb add mul div of_int math_floor Binary64.number] in *.
    assert (E0 : Prim2SF (Binary64.from_int 0) = S754_zero false)
      by (vm_compute; reflexivity).
    pose proof (Prim2SF_valid H) as VH.
    pose proof (Prim2SF_valid u1) as Vu1.
    pose proof (Prim2SF_valid u2) as Vu2.
    rewrite ?FloatAxioms.leb_spec, ?FloatAxioms.ltb_spec in *.
    rewrite ?E0 in *.
    destruct (le_not_nan _ _ Hle) as (_ & Hn).
    assert (Ph : pos_float (Prim2SF H)) by (apply lt_zero_pos; exact Hpos).
    rewrite (pos_not_le_zero _ false Ph).
    pose proof (not_le_lt _ _ Vu2 VH Ph Hn F2) as L2.
    rewrite L2, (le_lt_trans_pos _ _ _ Vu1 Vu2 VH Ph Hle L2).
    intros C1 C2. injection C1 as <-. injection C2 as <-. split; reflexivity.
Qed.

Lemma number_across_width_non_decreasing_in_usable_width_witness :
  calculate_number_across_width 76%float 100%float 5%float = Ok 1%Z
  /\ calculate_number_across_width 76%float 190%float 5%float = Ok 2%Z
  /\ (1 <= 2)%Z.
Proof.
  assert (E1 : calculate_number_across_width 76%float 100%float 5%float
               = Ok 1%Z) by (vm_compute; reflexivity).
  assert (E2 : calculate_number_across_width 76%float 190%float 5%float
               = Ok 2%Z) by (vm_compute; reflexivity).
  split; [exact E1|]. split; [exact E2|].
  apply (number_across_width_non_decreasing_in_usable_width
           76%float 100%float 190%float 5%float);
    solve [vm_compute; reflexivity | assumption].
Defined.

(** The layout count of the press, working width 190 and gap 5, on
    binary64: the function returns for every height that is not NaN. *)
Lemma press_layout_cases :
  forall H : float,
    (H =? H)%py = true ->
    exists y : Z,
      calculate_number_across_width H (of_int WORKING_WIDTH)
        (of_int WIDTH_GAP) = Ok y
      /\ (0 <= y <= 39)%Z
      /\ ((of_int 0 <? H)%py = true ->
          (H <=? of_int WORKING_WIDTH)%py = true -> (1 <= y)%Z).
Proof.
  intros H Hn.
  cbn [eqb Binary64.number] in Hn. apply eqb_refl_not_nan in Hn.
  unfold calculate_number_across_width.
  cbn [leb ltb add mul div of_int math_floor Binary64.number] in *.
  assert (E0 : Prim2SF (Binary64.from_int 0) = S754_zero false)
    by (vm_compute; reflexivity).
  assert (E2 : Prim2SF (Binary64.from_int 2) = float_two)
    by (vm_compute; reflexivity).
  assert (Eg : Prim2SF (Binary64.from_int WIDTH_GAP) = sf_gap)
    by (vm_compute; reflexivity).
  assert (Eu : Prim2SF (Binary64.from_int WORKING_WIDTH) = sf_working_width)
    by (vm_compute; reflexivity).
  assert (Et : Prim2SF tolerance = sf_tolerance)
    by (vm_compute; reflexivity).
  pose proof (Prim2SF_valid H) as VH.
  pose proof (Prim2SF_valid (H + Binary64.from_int WIDTH_GAP)) as VP.
  pose proof (floor_returns
                ((Binary64.from_int WORKING_WIDTH + Binary64.from_int WIDTH_GAP)
                 / (H + Binary64.from_int WIDTH_GAP))) as FR.
  pose proof (fun n => floor_div_xval
                (Binary64.from_int WORKING_WIDTH + Binary64.from_int WIDTH_GAP)
                (H + Binary64.from_int WIDTH_GAP) n) as FX.
  rewrite ?FloatAxioms.leb_spec, ?FloatAxioms.ltb_spec,
    ?FloatAxioms.div_spec, ?FloatAxioms.add_spec, ?FloatAxioms.mul_spec in *.
  rewrite ?E0, ?E2, ?Eg, ?Eu, ?Et in *.
  unfold SF64add, SF64mul, SF64div in *.
  change (SFadd prec emax sf_working_width sf_gap) with sf_195 in *.
  set (h := Prim2SF H) in *. clearbody h. clear E0 E2 Eg Eu Et.
  destruct (not_nan_cases h Hn) as [Hz0|Ph].
  - rewrite Hz0. exists 0%Z. split; [reflexivity|]. split; [lia|].
    intros Hp _. exfalso. apply lt_zero_pos in Hp.
    rewrite (pos_not_le_zero _ false Hp) in Hz0. discriminate.
  - rewrite (pos_not_le_zero _ false Ph).
    assert (Vu : valid_binary sf_working_width = true) by reflexivity.
    assert (Eu : (xval sf_working_width == 190)%Q) by reflexivity.
    destruct (SFltb sf_working_width h) eqn:U.
    + exists 0%Z. split; [reflexivity|]. split; [lia|].
      intros _ Hfit. exfalso.
      destruct (le_pos _ _ VH Vu Ph Hfit) as (Pu & Lu).
      apply ltb_xval in U; auto using pos_nonneg. lra.
    + assert (Nu : sf_working_width <> S754_nan) by discriminate.
      destruct (not_lt_pos _ _ Vu VH Ph Nu U) as (Pu & Lu).
      assert (B : SFleb h sf_working_width = true)
        by (apply leb_xval; auto using pos_nonneg).
      rewrite B. cbn [andb].
      destruct (SFltb sf_working_width (SFadd _ _ _ _)).
      * exists 1%Z. split; [reflexivity|]. split; lia.
      * assert (Hh : (xval h < bpow 1024)%Q).
        { assert (190 < bpow 1024)%Q
            by (apply Qlt_trans with (bpow 8);
                [reflexivity|apply bpow_lt; lia]).
          lra. }
        destruct (valid_pos_finite h VH Ph Hh) as (mh & eh & ->).
        assert (Vg : valid_binary sf_gap = true) by reflexivity.
        assert (Eg : (xval sf_gap == 5)%Q) by reflexivity.
        assert (V195 : valid_binary sf_195 = true) by reflexivity.
        assert (E195 : (xval sf_195 == 195)%Q) by reflexivity.
        assert (Etol : (xval sf_tolerance < 5)%Q) by reflexivity.
        assert (Vtol : valid_binary sf_tolerance = true) by reflexivity.
        destruct (SFadd_pos_ge (S754_finite false mh eh) sf_gap Vg I)
          as (PP & LP); [unfold sf_gap; eauto|].
        assert (UP : (xval (SFadd prec emax (S754_finite false mh eh) sf_gap)
                      <= xval sf_195)%Q).
        { pose proof (SFadd_pos_rounds mh eh 5629499534213120 (-50)) as R.
          assert (R195 : rounds_to (xval sf_195) sf_195)
            by (apply valid_rounds_to; reflexivity).
          apply (rounds_to_mono _ _ _ _ R R195).
          cbn [xval] in Lu. rewrite E195.
          change (inject_Z 5629499534213120 * bpow (-50))%Q
            with (xval sf_gap). lra. }
        assert (G : SFleb (SFadd prec emax (S754_finite false mh eh) sf_gap)
                      sf_tolerance = false).
        { apply xval_lt_not_le; auto using pos_nonneg; try exact I. lra. }
        rewrite G.
        set (P := SFadd prec emax (S754_finite false mh eh) sf_gap) in *.
        assert (P195 : pos_float sf_195) by exact I.
        assert (H195 : (xval sf_195 < bpow 1024)%Q).
        { rewrite E195. apply Qlt_trans with (bpow 8);
            [reflexivity|apply bpow_lt; lia]. }
        destruct (SFdiv_at_most sf_195 P 5488762045857792 (-47)
                    V195 P195 PP H195 eq_refl) as (Fc & Uc).
        { assert (E39 : (inject_Z 5488762045857792 * bpow (-47) == 39)%Q)
            by reflexivity.
          rewrite E39, E195. lra. }
        assert (E39 : (inject_Z 5488762045857792 * bpow (-47) == 39)%Q)
          by reflexivity.
        rewrite E39 in Uc.
        pose proof (SFdiv_ge_one sf_195 P V195 VP P195 PP UP Fc) as Lc.
        destruct (FR Fc) as (n & En).
        pose proof (FX n En P195 PP) as Hq.
        exists n. split; [exact En|].
        assert (Hn1 : (1 <= n)%Z)
          by (rewrite Hq; apply Qfloor_ge_one; exact Lc).
        assert (Hn2 : (n <= 39)%Z).
        { rewrite Hq. apply (Qfloor_resp_le _ 39). exact Uc. }
        split; [lia|]. intros _ _. exact Hn1.
Qed.

(** On binary64, for the working width 190 and the gap 5 of the press and
    every height that is not NaN, [calculate_number_across_width]
    returns: 0 for a height that is not positive or is above 190, and a
    count from 1 to 39 for a height in (0, 190]. *)
Theorem press_layout_count :
  forall H : float,
    (H =? H)%py = true ->
    exists y : Z,
      calculate_number_across_width H (of_int WORKING_WIDTH)
        (of_int WIDTH_GAP) = Ok y
      /\ ((H <=? of_int 0)%py = true \/ (of_int WORKING_WIDTH <? H)%py = true
          -> y = 0%Z)
      /\ ((of_int 0 <? H)%py = true ->
          (H <=? of_int WORKING_WIDTH)%py = true -> (1 <= y <= 39)%Z).
Proof.
  intros H Hn.
  destruct (press_layout_cases H Hn) as (y & E & Hb & Hfit).
  exists y. split; [exact E|]. split.
  - intros [Hz|Ht].
    + apply (number_across_width_no_height _ _ _ _ Hz E).
    + apply (number_across_width_too_tall _ _ _ _ Ht E).
  - intros Hp Hf. specialize (Hfit Hp Hf). lia.
Qed.

Lemma press_layout_count_witness :
  exists y : Z,
    calculate_number_across_width 76%float (of_int WORKING_WIDTH)
      (of_int WIDTH_GAP) = Ok y
    /\ (1 <= y <= 39)%Z.
Proof.
  destruct (press_layout_count 76%float) as (y & E & _ & Hfit).
  - vm_compute. reflexivity.
  - exists y. split; [exact E|].
    apply Hfit; vm_compute; reflexivity.
Defined.

(** ** The calculation returns *)






(** On a NaN the floors raise: the search for a NaN width, the layout
    for a NaN height. *)
Example calculation_raises_on_nan :
  find_cylinder_specifications PrimFloat.nan = Raise ValueError
  /\ calculate_number_across_width PrimFloat.nan
       (of_int WORKING_WIDTH) (of_int WIDTH_GAP) = Raise ValueError.
Proof. split; vm_compute; reflexivity. Qed.

(** ** The amounts of a quote *)

(** The signs of sums, products and quotients of the code's floats. *)
Lemma sc_add (x y : float) :
  sign_clear (Prim2SF x) -> sign_clear (Prim2SF y) ->
  sign_clear (Prim2SF (x + y)%float).
Proof.
  intros. rewrite FloatAxioms.add_spec. apply SFadd_sign_clear; assumption.
Qed.

Lemma sc_mul (x y : float) :
  sign_clear (Prim2SF x) -> sign_clear (Prim2SF y) ->
  sign_clear (Prim2SF (x * y)%float).
Proof.
  intros. rewrite FloatAxioms.mul_spec. apply SFmul_sign_clear; assumption.
Qed.

Lemma sc_div (x y : float) :
  sign_clear (Prim2SF x) -> above_zero (Prim2SF y) ->
  sign_clear (Prim2SF (x / y)%float).
Proof.
  intros. rewrite FloatAxioms.div_spec. apply SFdiv_sign_clear; assumption.
Qed.

Lemma sc_from_int (z : Z) :
  (0 <= z)%Z -> sign_clear (Prim2SF (Binary64.from_int z)).
Proof. intros H. apply nonneg_sign_clear, from_int_nonneg, H. Qed.

Lemma az_from_int (z : Z) :
  (0 < z)%Z -> above_zero (Prim2SF (Binary64.from_int z)).
Proof. intros H. apply pos_above_zero, from_int_pos, H. Qed.

Lemma az_guard (x : float) :
  PrimFloat.ltb (Binary64.from_int 0) x = true -> above_zero (Prim2SF x).
Proof. apply ltb_zero_above_zero. Qed.

(** One step in the proof that a float expression of the code is not
    below zero. *)
Ltac sign_clear_step :=
  first
    [ assumption
    | match goal with
      | |- sign_clear (Prim2SF (Binary64.from_literal _)) =>
          vm_compute; first [exact I | reflexivity]
      | |- above_zero (Prim2SF (Binary64.from_literal _)) =>
          vm_compute; reflexivity
      end
    | apply sc_from_int; lia
    | apply az_from_int; lia
    | apply sc_add | apply sc_mul | apply sc_div
    | apply above_zero_sign_clear; assumption ].

Ltac sign_clear_all := repeat sign_clear_step.

Ltac destruct_if :=
  match goal with
  | |- context [if ?c then _ else _] => destruct c
  end.

Lemma colors_for_calc_nonneg (blank : bool) (n : Z) :
  (0 <= colors_for_calc blank n)%Z.
Proof.
  unfold colors_for_calc. destruct blank; [lia|].
  destruct (Z.leb_spec 1 n); lia.
Qed.

Lemma setup_time_nonneg (blank : bool) (n : Z) :
  (0 <= setup_time blank n)%Z.
Proof.
  unfold setup_time, colors_for_waste_time, SETUP_TIME_PER_COLOR_OR_BASE.
  pose proof (colors_for_calc_nonneg blank n).
  destruct blank; lia.
Qed.

(** The amounts of a quote computed from a width, a gap and prices that
    are not below zero. *)
Lemma binary64_quote_amounts (i : Inputs float) (b : Solution float)
  (y : Z) :
  (0 < quantity_input i)%Z ->
  sign_clear (Prim2SF (template_width_W_input i)) ->
  sign_clear (Prim2SF (gap_G_circumference_mm b)) ->
  sign_clear (Prim2SF (ink_price_per_kg i)) ->
  sign_clear (Prim2SF (varnish_price_per_kg i)) ->
  sign_clear (Prim2SF (plate_price_per_color i)) ->
  sign_clear (Prim2SF (tool_price_semirotary i)) ->
  sign_clear (Prim2SF (tool_price_rotary i)) ->
  let q := compute_quote i b y in
  sign_clear (Prim2SF (total_production_length_m q))
  /\ sign_clear (Prim2SF (total_production_area_m2 q))
  /\ sign_clear (Prim2SF (waste_length_m q))
  /\ sign_clear (Prim2SF (waste_area_m2 q))
  /\ sign_clear (Prim2SF (total_final_length_m q))
  /\ sign_clear (Prim2SF (total_final_area_m2 q))
  /\ sign_clear (Prim2SF (production_time_min q))
  /\ sign_clear (Prim2SF (total_time_min q))
  /\ sign_clear (Prim2SF (total_ink_varnish_cost_rsd q))
  /\ sign_clear (Prim2SF (total_plate_cost_rsd q))
  /\ sign_clear (Prim2SF (total_material_cost_rsd q))
  /\ sign_clear (Prim2SF (total_machine_labor_cost_rsd q))
  /\ sign_clear (Prim2SF (total_tool_cost_rsd q))
  /\ sign_clear (Prim2SF (total_production_cost_rsd q))
  /\ sign_clear (Prim2SF (profit_rsd q))
  /\ sign_clear (Prim2SF (total_selling_price_rsd q))
  /\ sign_clear (Prim2SF (selling_price_per_piece_rsd q)).
Proof.
  intros Hqty HW Hgap Hink Hvar Hplate Hsemi Hrot q.
  pose proof (colors_for_calc_nonneg (is_blank i) (num_colors_input i))
    as Hcol.
  pose proof (setup_time_nonneg (is_blank i) (num_colors_input i)) as Hset.
  (* the equations of the fields *)
  assert (Elen : total_production_length_m q
                 = if (0 <? y)%Z
                   then (Binary64.from_int (quantity_input i)
                         / Binary64.from_int y
                         * (template_width_W_input i
                            + gap_G_circumference_mm b)
                         / Binary64.from_int 1000)%float
                   else Binary64.from_literal 0.0) by reflexivity.
  assert (Earea : total_production_area_m2 q
                  = if PrimFloat.ltb (Binary64.from_int 0)
                         (required_material_width_mm q)
                       && (0 <? y)%Z
                    then (total_production_length_m q
                          * (required_material_width_mm q
                             / Binary64.from_int 1000))%float
                    else Binary64.from_literal 0.0) by reflexivity.
  assert (Ewl : waste_length_m q
                = waste_length (is_blank i) (num_colors_input i))
    by reflexivity.
  assert (Ewaste : waste_area_m2 q
                   = if PrimFloat.ltb (Binary64.from_int 0)
                          (required_material_width_mm q)
                     then (waste_length_m q
                           * (required_material_width_mm q
                              / Binary64.from_int 1000))%float
                     else Binary64.from_literal 0.0) by reflexivity.
  assert (Efl : total_final_length_m q
                = (total_production_length_m q + waste_length_m q)%float)
    by reflexivity.
  assert (Efa : total_final_area_m2 q
                = (total_production_area_m2 q + waste_area_m2 q)%float)
    by reflexivity.
  assert (Ept : production_time_min q
                = if PrimFloat.ltb (Binary64.from_int 0)
                       (total_production_length_m q)
                     && (0 <? machine_speed_m_min i)%Z
                  then (total_production_length_m q
                        / Binary64.from_int (machine_speed_m_min i))%float
                  else Binary64.from_literal 0.0) by reflexivity.
  assert (Ett : total_time_min q
                = (Binary64.from_int
                     (setup_time (is_blank i) (num_colors_input i))
                   + production_time_min q
                   + Binary64.from_int CLEANUP_TIME_MIN)%float)
    by reflexivity.
  assert (Eiv : total_ink_varnish_cost_rsd q
                = ((if negb (is_blank i)
                       && (0 <? valid_num_colors_for_calc q)%Z
                       && PrimFloat.ltb (Binary64.from_int 0)
                            (total_production_area_m2 q)
                    then total_production_area_m2 q
                         * Binary64.from_int (valid_num_colors_for_calc q)
                         * Binary64.from_literal 3.0
                         / Binary64.from_literal 1000.0
                         * ink_price_per_kg i
                    else Binary64.from_literal 0.0)
                   + (if is_uv_varnish_input i
                         && PrimFloat.ltb (Binary64.from_int 0)
                              (total_production_area_m2 q)
                      then total_production_area_m2 q
                           * Binary64.from_literal 4.0
                           / Binary64.from_literal 1000.0
                           * varnish_price_per_kg i
                      else Binary64.from_literal 0.0))%float) by reflexivity.
  assert (Ecol : valid_num_colors_for_calc q
                 = colors_for_calc (is_blank i) (num_colors_input i))
    by reflexivity.
  assert (Epl : total_plate_cost_rsd q
                = if negb (is_blank i)
                     && (0 <? valid_num_colors_for_calc q)%Z
                  then (Binary64.from_int (valid_num_colors_for_calc q)
                        * plate_price_per_color i)%float
                  else Binary64.from_literal 0.0) by reflexivity.
  assert (Emat : total_material_cost_rsd q
                 = material_cost (total_final_area_m2 q)
                     (price_per_m2_input i)) by reflexivity.
  assert (Elab : total_machine_labor_cost_rsd q
                 = machine_labor_cost (total_time_min q)
                     (machine_labor_price_per_hour i)) by reflexivity.
  assert (Etool : total_tool_cost_rsd q
                  = match selected_tool_key i with
                    | Semirotary => tool_price_semirotary i
                    | Rotary => tool_price_rotary i
                    | ToolNone => Binary64.from_literal 0.0
                    end) by reflexivity.
  assert (Epc : total_production_cost_rsd q
                = (total_ink_varnish_cost_rsd q + total_plate_cost_rsd q
                   + total_material_cost_rsd q
                   + total_machine_labor_cost_rsd q
                   + total_tool_cost_rsd q)%float) by reflexivity.
  assert (Eprofit : profit_rsd q
                    = profit (total_material_cost_rsd q)
                        (profit_coefficient_input i)) by reflexivity.
  assert (Esell : total_selling_price_rsd q
                  = (total_production_cost_rsd q + profit_rsd q)%float)
    by reflexivity.
  assert (Epiece : selling_price_per_piece_rsd q
                   = if (0 <? quantity_input i)%Z
                     then (total_selling_price_rsd q
                           / Binary64.from_int (quantity_input i))%float
                     else Binary64.from_literal 0.0) by reflexivity.
  clearbody q.
  (* the signs, field by field *)
  assert (Slen : sign_clear (Prim2SF (total_production_length_m q))).
  { rewrite Elen. destruct (Z.ltb_spec 0 y); sign_clear_all. }
  assert (Sarea : sign_clear (Prim2SF (total_production_area_m2 q))).
  { rewrite Earea.
    destruct (PrimFloat.ltb _ (required_material_width_mm q)) eqn:G;
      [apply az_guard in G|]; destruct (0 <? y)%Z; cbn [andb];
      sign_clear_all. }
  assert (Swl : sign_clear (Prim2SF (waste_length_m q))).
  { rewrite Ewl. unfold waste_length.
    cbn [add mul of_int Binary64.number].
    unfold BASE_WASTE_LENGTH, WASTE_LENGTH_PER_COLOR.
    cbn [literal Binary64.number].
    destruct (is_blank i); sign_clear_all. }
  assert (Swaste : sign_clear (Prim2SF (waste_area_m2 q))).
  { rewrite Ewaste.
    destruct (PrimFloat.ltb _ (required_material_width_mm q)) eqn:G;
      [apply az_guard in G|]; sign_clear_all. }
  assert (Sfl : sign_clear (Prim2SF (total_final_length_m q)))
    by (rewrite Efl; sign_clear_all).
  assert (Sfa : sign_clear (Prim2SF (total_final_area_m2 q)))
    by (rewrite Efa; sign_clear_all).
  assert (Spt : sign_clear (Prim2SF (production_time_min q))).
  { rewrite Ept.
    destruct (PrimFloat.ltb _ (total_production_length_m q));
      destruct (Z.ltb_spec 0 (machine_speed_m_min i)); cbn [andb];
      sign_clear_all. }
  assert (Stt : sign_clear (Prim2SF (total_time_min q))).
  { rewrite Ett. unfold CLEANUP_TIME_MIN. sign_clear_all. }
  assert (Siv : sign_clear (Prim2SF (total_ink_varnish_cost_rsd q))).
  { rewrite Eiv, Ecol. apply sc_add.
    - destruct_if; sign_clear_all.
    - destruct_if; sign_clear_all. }
  assert (Spl : sign_clear (Prim2SF (total_plate_cost_rsd q))).
  { rewrite Epl, Ecol. destruct_if; sign_clear_all. }
  assert (Smat : sign_clear (Prim2SF (total_material_cost_rsd q))).
  { rewrite Emat. apply not_below_zero_sign_clear.
    exact (proj1 (binary64_material_cost (total_final_area_m2 q)
                    (price_per_m2_input i))). }
  assert (Slab : sign_clear (Prim2SF (total_machine_labor_cost_rsd q))).
  { rewrite Elab. apply not_below_zero_sign_clear.
    exact (proj1 (binary64_machine_labor_cost (total_time_min q)
                    (machine_labor_price_per_hour i))). }
  assert (Stool : sign_clear (Prim2SF (total_tool_cost_rsd q))).
  { rewrite Etool. destruct (selected_tool_key i); sign_clear_all. }
  assert (Spc : sign_clear (Prim2SF (total_production_cost_rsd q)))
    by (rewrite Epc; sign_clear_all).
  assert (Sprofit : sign_clear (Prim2SF (profit_rsd q))).
  { rewrite Eprofit. unfold profit.
    cbn [ltb mul of_int literal Binary64.number].
    match goal with
    | |- context [if ?c then _ else _] => destruct c eqn:G
    end; [|sign_clear_all].
    apply andb_true_iff in G. destruct G as (_ & G).
    apply az_guard in G. sign_clear_all. }
  assert (Ssell : sign_clear (Prim2SF (total_selling_price_rsd q)))
    by (rewrite Esell; sign_clear_all).
  assert (Spiece : sign_clear (Prim2SF (selling_price_per_piece_rsd q))).
  { rewrite Epiece. destruct (Z.ltb_spec 0 (quantity_input i));
      sign_clear_all. }
  repeat split; assumption.
Qed.

(** What a results page tells about its inputs and its best solution. *)
Lemma results_best_enumerated {T : Type} {num : Number T} (i : Inputs T)
  (b : Solution T) (all : list (Solution T)) (q : Quote T) :
  calculation i = Ok (Results b all q) ->
  (0 < quantity_input i)%Z
  /\ (template_width_W_input i <=? of_int 0)%py = false
  /\ enumerated (template_width_W_input i) b
  /\ exists y : Z,
      calculate_number_across_width (template_height_H_input i)
        (of_int WORKING_WIDTH) (of_int WIDTH_GAP) = Ok y
      /\ q = compute_quote i b y.
Proof.
  intros H. apply calculation_results in H.
  destruct H as (Hvalid & y & msg & Hfind & Hy & ->).
  unfold inputs_valid in Hvalid.
  repeat (apply andb_true_iff in Hvalid; destruct Hvalid as (Hvalid & ?)).
  assert (Hqty : (0 < quantity_input i)%Z) by (apply Z.ltb_lt; assumption).
  pose proof (find_cylinder_specifications_returns _ _ _ _ Hfind) as Hret.
  destruct Hret as [(_ & Hb & _)|(Guard & valid & _ & Hret)]; [discriminate|].
  split; [exact Hqty|]. split; [exact Guard|]. split; [|exists y; auto].
  apply (returned_solution_enumerated _ _ _ _ b Hfind Guard).
  destruct Hret as [(_ & Hb & _)|(_ & _ & Hb & _)]; [discriminate|].
  destruct all as [|b' rest]; [discriminate|].
  injection Hb as ->. left. reflexivity.
Qed.

Lemma not_leb_zero_sign_clear (x : float) :
  PrimFloat.leb x (Binary64.from_int 0) = false -> sign_clear (Prim2SF x).
Proof.
  rewrite FloatAxioms.leb_spec.
  change (Prim2SF (Binary64.from_int 0)) with (S754_zero false).
  destruct (Prim2SF x) as [s|[|]| |[|] m e]; cbn; auto; discriminate.
Qed.

(** A gap that passes the test is above zero. *)
Lemma accepted_gap_above_zero (g : float) :
  @gap_accepted float Binary64.number g = true -> above_zero (Prim2SF g).
Proof.
  unfold gap_accepted. intros H. apply andb_true_iff in H.
  destruct H as (H & _).
  cbn [leb ltb sub Binary64.number] in H.
  rewrite FloatAxioms.leb_spec in H.
  apply pos_above_zero.
  apply (le_pos _ _ (Prim2SF_valid _) (Prim2SF_valid g)) in H.
  - apply H.
  - vm_compute. exact I.
Qed.

(** On binary64, for every results page computed from ink, varnish, plate
    and tool prices that are not below zero, whatever the material price,
    the labour price and the profit coefficient: no length, area, time,
    cost or price of the quote is below zero. *)
Theorem quote_never_below_zero :
  forall (i : Inputs float) (b : Solution float)
    (all : list (Solution float)) (q : Quote float),
    calculation i = Ok (Results b all q) ->
    PrimFloat.ltb (ink_price_per_kg i) 0 = false ->
    PrimFloat.ltb (varnish_price_per_kg i) 0 = false ->
    PrimFloat.ltb (plate_price_per_color i) 0 = false ->
    PrimFloat.ltb (tool_price_semirotary i) 0 = false ->
    PrimFloat.ltb (tool_price_rotary i) 0 = false ->
    PrimFloat.ltb (total_production_length_m q) 0 = false
    /\ PrimFloat.ltb (total_production_area_m2 q) 0 = false
    /\ PrimFloat.ltb (waste_length_m q) 0 = false
    /\ PrimFloat.ltb (waste_area_m2 q) 0 = false
    /\ PrimFloat.ltb (total_final_length_m q) 0 = false
    /\ PrimFloat.ltb (total_final_area_m2 q) 0 = false
    /\ PrimFloat.ltb (production_time_min q) 0 = false
    /\ PrimFloat.ltb (total_time_min q) 0 = false
    /\ PrimFloat.ltb (total_ink_varnish_cost_rsd q) 0 = false
    /\ PrimFloat.ltb (total_plate_cost_rsd q) 0 = false
    /\ PrimFloat.ltb (total_material_cost_rsd q) 0 = false
    /\ PrimFloat.ltb (total_machine_labor_cost_rsd q) 0 = false
    /\ PrimFloat.ltb (total_tool_cost_rsd q) 0 = false
    /\ PrimFloat.ltb (total_production_cost_rsd q) 0 = false
    /\ PrimFloat.ltb (profit_rsd q) 0 = false
    /\ PrimFloat.ltb (total_selling_price_rsd q) 0 = false
    /\ PrimFloat.ltb (selling_price_per_piece_rsd q) 0 = false.
Proof.
  intros i b all q H Hink Hvar Hplate Hsemi Hrot.
  apply results_best_enumerated in H.
  destruct H as (Hqty & Guard & Hb & y & _ & ->).
  destruct Hb as (_ & _ & _ & _ & _ & Hacc).
  cbn [leb of_int Binary64.number] in Guard.
  pose proof (binary64_quote_amounts i b y Hqty
                (not_leb_zero_sign_clear _ Guard)
                (above_zero_sign_clear _ (accepted_gap_above_zero _ Hacc))
                (not_below_zero_sign_clear _ Hink)
                (not_below_zero_sign_clear _ Hvar)
                (not_below_zero_sign_clear _ Hplate)
                (not_below_zero_sign_clear _ Hsemi)
                (not_below_zero_sign_clear _ Hrot)) as S.
  cbv zeta in S.
  repeat match type of S with
         | _ /\ _ => destruct S as (?S & S)
         end.
  repeat split; apply sign_clear_not_below_zero; assumption.
Qed.

Lemma quote_never_below_zero_witness :
  exists (b : Solution float) (all : list (Solution float)) (q : Quote float),
    calculation (default_inputs false 4) = Ok (Results b all q)
    /\ PrimFloat.ltb (total_selling_price_rsd q) 0 = false
    /\ PrimFloat.ltb (selling_price_per_piece_rsd q) 0 = false.
Proof.
  assert (E : exists b all q,
             calculation (default_inputs false 4) = Ok (Results b all q)).
  { vm_compute. do 3 eexists. reflexivity. }
  destruct E as (b & all & q & E). exists b, all, q.
  split; [exact E|].
  assert (Hink : PrimFloat.ltb (ink_price_per_kg (default_inputs false 4)) 0
                 = false) by reflexivity.
  assert (Hvar : PrimFloat.ltb
                   (varnish_price_per_kg (default_inputs false 4)) 0
                 = false) by reflexivity.
  assert (Hplate : PrimFloat.ltb
                     (plate_price_per_color (default_inputs false 4)) 0
                   = false) by reflexivity.
  assert (Hsemi : PrimFloat.ltb
                    (tool_price_semirotary (default_inputs false 4)) 0
                  = false) by reflexivity.
  assert (Hrot : PrimFloat.ltb
                   (tool_price_rotary (default_inputs false 4)) 0
                 = false) by reflexivity.
  destruct (quote_never_below_zero _ b all q E Hink Hvar Hplate Hsemi Hrot)
    as (_ & _ & _ & _ & _ & _ & _ & _ & _ & _ & _ & _ & _ & _ & _ & Hs & Hp).
  split; assumption.
Defined.

(** ** The material width limit on binary64 *)

(** On binary64 the material width limit can be exceeded by rounding: at
    the height 60.00000000000001 the denominator [H + 5] rounds to 65, the
    quotient 195 / 65 is 3, so the layout count is 3 although three labels
    and two gaps take more than 190, and the required width is above
    200. *)
Example material_width_exceeded_by_rounding :
  calculate_number_across_width height_60_up
    (of_int WORKING_WIDTH) (of_int WIDTH_GAP) = Ok 3%Z
  /\ PrimFloat.ltb 190%float
       (calculate_material_width 3 height_60_up (of_int WIDTH_GAP) 0%float)
     = true
  /\ exists (b : Solution float) (all : list (Solution float))
       (q : Quote float),
       calculation (inputs_of_size 76%float height_60_up)
       = Ok (Results b all q)
       /\ material_width_exceeded q = true.
Proof.
  split; [vm_compute; reflexivity|]. split; [vm_compute; reflexivity|].
  assert (E : exists b all q,
             calculation (inputs_of_size 76%float height_60_up)
             = Ok (Results b all q)).
  { vm_compute. do 3 eexists. reflexivity. }
  destruct E as (b & all & q & E). exists b, all, q.
  split; [exact E|].
  destruct (calculation_results _ _ _ _ E) as (_ & y & msg & _ & Hy & ->).
  assert (Ey : calculate_number_across_width height_60_up
                 (of_int WORKING_WIDTH) (of_int WIDTH_GAP) = Ok 3%Z)
    by (vm_compute; reflexivity).
  cbn [template_height_H_input inputs_of_size] in Hy.
  rewrite Ey in Hy. injection Hy as <-.
  vm_compute. reflexivity.
Qed.

(** ** Colours, plates and set-up *)

(** For every number model and every quote.  A blank job counts no colour
    and pays no plates, whatever the colour count of the inputs, and
    without UV varnish it pays no ink or varnish.  A printed job counts
    the colour count of the inputs, raised to 1 when that is below 1; it
    pays that many plates, its set-up takes that many times 30 minutes and
    its waste is the base length plus that many lengths per colour.  In
    both cases the set-up takes at least 30 minutes. *)
Theorem colors_plates_and_setup :
  forall (T : Type) (num : Number T) (i : Inputs T) (b : Solution T) (y : Z),
    let q := compute_quote i b y in
    let n := Z.max 1 (num_colors_input i) in
    (is_blank i = true ->
     valid_num_colors_for_calc q = 0%Z
     /\ total_plate_cost_rsd q = literal 0.0
     /\ (is_uv_varnish_input i = false ->
         total_ink_varnish_cost_rsd q = (literal 0.0 + literal 0.0)%py))
    /\ (is_blank i = false ->
        valid_num_colors_for_calc q = n
        /\ num_colors_for_waste_time q = n
        /\ setup_time_min q = (n * SETUP_TIME_PER_COLOR_OR_BASE)%Z
        /\ total_plate_cost_rsd q = (of_int n * plate_price_per_color i)%py
        /\ waste_length_m q
           = (BASE_WASTE_LENGTH + of_int n * WASTE_LENGTH_PER_COLOR)%py)
    /\ (30 <= setup_time_min q)%Z.
Proof.
  intros T num i b y q n. unfold q, n, compute_quote.
  cbn [valid_num_colors_for_calc total_plate_cost_rsd
       total_ink_varnish_cost_rsd num_colors_for_waste_time setup_time_min
       waste_length_m].
  unfold setup_time, waste_length, colors_for_waste_time, colors_for_calc,
    SETUP_TIME_PER_COLOR_OR_BASE.
  split; [|split].
  - intros ->. cbn [negb andb]. split; [reflexivity|].
    split; [reflexivity|]. intros ->. reflexivity.
  - intros ->. cbn [negb andb].
    destruct (Z.leb_spec 1 (num_colors_input i)) as [Hn|Hn].
    + rewrite Z.max_r by lia.
      destruct (Z.ltb_spec 0 (num_colors_input i)); [|lia].
      repeat split.
    + rewrite Z.max_l by lia. repeat split.
  - destruct (is_blank i); [lia|].
    destruct (Z.leb_spec 1 (num_colors_input i)); lia.
Qed.

Lemma colors_plates_and_setup_witness :
  valid_num_colors_for_calc
    (compute_quote (default_inputs true 4) (hd (solution_of 76%float 75 3)
                                               solutions_76) 2) = 0%Z
  /\ total_plate_cost_rsd
       (compute_quote (default_inputs true 4) (hd (solution_of 76%float 75 3)
                                                  solutions_76) 2)
     = literal 0.0.
Proof.
  destruct (colors_plates_and_setup float Binary64.number
              (default_inputs true 4)
              (hd (solution_of 76%float 75 3) solutions_76) 2)
    as (Hblank & _).
  destruct (Hblank eq_refl) as (Hcolors & Hplates & _).
  exact (conj Hcolors Hplates).
Defined.

(** ** The consumption warning of the details *)

(** For every number model and every quote: with a layout count above 0
    no consumption warning is shown, also when the message "Width=0, area
    N/A." was set, because the display leaves out a message that contains
    "N/A"; with a layout count of 0 the warning is "y=0, consumption
    N/A.". *)
Theorem production_warning_only_without_column :
  forall (T : Type) (num : Number T) (i : Inputs T) (b : Solution T) (y : Z),
    production_warning (compute_quote i b y)
    = if (0 <? y)%Z then None else Some "y=0, consumption N/A.".
Proof.
  intros T num i b y. unfold production_warning, compute_quote.
  cbn [production_consumption_message number_across_width_y].
  destruct (0 <? y)%Z.
  - rewrite andb_true_r.
    destruct (_ <? _)%py; reflexivity.
  - rewrite andb_false_r. reflexivity.
Qed.

(** ** Time formatting: the text tells the rounded minutes *)

Lemma to_int_not_nil (n : Z) :
  Z.to_int n <> Decimal.Pos Decimal.Nil
  /\ Z.to_int n <> Decimal.Neg Decimal.Nil.
Proof.
  destruct n as [|p|p]; cbn [Z.to_int]; split; try discriminate;
    intros E; injection E as E; exact (Unsigned.to_uint_nonnil p E).
Qed.

Lemma str_of_int_inj (a b : Z) : str_of_int a = str_of_int b -> a = b.
Proof.
  unfold str_of_int. intros E.
  destruct (to_int_not_nil a) as (Ha1 & Ha2).
  destruct (to_int_not_nil b) as (Hb1 & Hb2).
  pose proof (NilZero.isi (Z.to_int a) Ha1 Ha2) as Ea.
  pose proof (NilZero.isi (Z.to_int b) Hb1 Hb2) as Eb.
  rewrite E, Eb in Ea. injection Ea as Ea.
  symmetry. apply to_int_inj, Ea.
Qed.

Lemma split_at_char (c : ascii) (s1 s2 r1 r2 : string) :
  has_char c s1 = false -> has_char c s2 = false ->
  s1 ++ String c r1 = s2 ++ String c r2 -> s1 = s2 /\ r1 = r2.
Proof.
  revert s2. induction s1 as [|a s1 IH]; intros [|a2 s2];
    cbn [has_char append]; intros H1 H2 E.
  - injection E as ->. auto.
  - injection E as <- _. rewrite Ascii.eqb_refl in H2. discriminate.
  - injection E as -> _. rewrite Ascii.eqb_refl in H1. discriminate.
  - injection E as -> E.
    apply orb_false_iff in H1. apply orb_false_iff in H2.
    destruct (IH s2 (proj2 H1) (proj2 H2) E) as (-> & ->). auto.
Qed.

Lemma no_space_in_str_of_int (n : Z) : has_char " " (str_of_int n) = false.
Proof. apply has_char_str_of_int. reflexivity. Qed.

Lemma format_minutes_inj (r1 r2 : Z) :
  format_minutes r1 = format_minutes r2 -> r1 = r2.
Proof.
  assert (Hzero : forall r, (r =? 0)%Z = true ->
            "0 min" = str_of_int r ++ " min").
  { intros r Hr. apply Z.eqb_eq in Hr. subst r. reflexivity. }
  assert (Hform : forall r,
            ((r < 60)%Z /\ format_minutes r = str_of_int r ++ " min")
            \/ ((60 <= r)%Z /\ (r mod 60 = 0)%Z
                /\ format_minutes r = str_of_int (r / 60) ++ " h")
            \/ ((60 <= r)%Z /\ (r mod 60 <> 0)%Z
                /\ format_minutes r
                   = str_of_int (r / 60) ++ " h "
                     ++ str_of_int (r mod 60) ++ " min")).
  { intros r. unfold format_minutes.
    destruct (Z.eqb_spec r 0) as [->|Hr]; [left; split; [lia|reflexivity]|].
    destruct (Z.ltb_spec r 60); [left; auto|].
    right. destruct (Z.eqb_spec (r mod 60) 0); [left|right]; auto. }
  pose proof no_space_in_str_of_int as Hsp.
  destruct (Hform r1) as [(H1 & ->)|[(H1 & M1 & ->)|(H1 & M1 & ->)]];
    destruct (Hform r2) as [(H2 & ->)|[(H2 & M2 & ->)|(H2 & M2 & ->)]];
    intros E;
    apply (split_at_char " " _ _ _ _ (Hsp _) (Hsp _)) in E;
    destruct E as (Ehead & Etail);
    try discriminate Etail;
    apply str_of_int_inj in Ehead.
  - exact Ehead.
  - rewrite (Z.div_mod r1 60), (Z.div_mod r2 60) by lia. lia.
  - injection Etail as Etail.
    apply (split_at_char " " _ _ _ _ (Hsp _) (Hsp _)) in Etail.
    destruct Etail as (Emin & _). apply str_of_int_inj in Emin.
    rewrite (Z.div_mod r1 60), (Z.div_mod r2 60) by lia. lia.
Qed.

Lemma format_time_rounded {T : Type} {num : Number T} (x : T) (s : string) :
  (x <? of_int 0)%py = false -> format_time x = Ok s ->
  exists r : Z, py_round x = Ok r /\ s = format_minutes r.
Proof.
  unfold format_time. intros ->. intros H.
  apply bind_Ok in H. destruct H as (r & Hr & H).
  exists r. split; [exact Hr|]. unfold format_minutes.
  destruct (r =? 0)%Z; [congruence|].
  destruct (r <? 60)%Z; [congruence|]. cbv zeta.
  destruct (r mod 60 =? 0)%Z; congruence.
Qed.

Lemma space_in_format_minutes (r : Z) :
  has_char " " (format_minutes r) = true.
Proof.
  unfold format_minutes.
  destruct (r =? 0)%Z; [reflexivity|].
  destruct (r <? 60)%Z; [|cbv zeta; destruct (r mod 60 =? 0)%Z];
    rewrite has_char_app, no_space_in_str_of_int; reflexivity.
Qed.

(** For every number model: two durations that are not below zero and are
    shown with the same text were rounded to the same number of minutes,
    so the text tells the rounded minutes; and such a text is never
    "N/A", the text of a duration below zero. *)
Theorem format_time_text_tells_minutes :
  forall (T : Type) (num : Number T) (a b : T) (s : string),
    (a <? of_int 0)%py = false -> (b <? of_int 0)%py = false ->
    format_time a = Ok s -> format_time b = Ok s ->
    s <> "N/A"
    /\ exists r : Z, py_round a = Ok r /\ py_round b = Ok r.
Proof.
  intros T num a b s Ha Hb Hsa Hsb.
  destruct (format_time_rounded a s Ha Hsa) as (ra & Hra & Ea).
  destruct (format_time_rounded b s Hb Hsb) as (rb & Hrb & Eb).
  split.
  - intros E. pose proof (space_in_format_minutes ra) as Hsp.
    rewrite <- Ea, E in Hsp. discriminate.
  - exists ra. split; [exact Hra|].
    rewrite Hrb. f_equal. apply format_minutes_inj. congruence.
Qed.

Lemma format_time_text_tells_minutes_witness :
  "4 h 42 min" <> "N/A"
  /\ exists r : Z,
      py_round 282.25%float = Ok r /\ py_round 281.5%float = Ok r.
Proof.
  apply (format_time_text_tells_minutes float Binary64.number
           282.25%float 281.5%float "4 h 42 min");
    vm_compute; reflexivity.
Defined.

(** ** The material prices of the session *)

Section MaterialPrices.

Context {T : Type} {num : Number T}.

Lemma dict_set_keys (d : @dict T) (k : string) (v : T) :
  In k (dict_keys d) -> dict_keys (dict_set d k v) = dict_keys d.
Proof.
  induction d as [|[k' v'] d IH]; cbn [dict_keys map fst dict_set In];
    [intros []|].
  intros Hin. destruct (String.eqb_spec k' k) as [->|Hne]; [reflexivity|].
  cbn [map fst]. f_equal. apply IH.
  destruct Hin as [E|Hin]; [contradiction | exact Hin].
Qed.

Lemma dict_get_set_same (d : @dict T) (k : string) (v default : T) :
  dict_get (dict_set d k v) k default = v.
Proof.
  induction d as [|[k' v'] d IH]; cbn [dict_set dict_get].
  - rewrite String.eqb_refl. reflexivity.
  - destruct (String.eqb_spec k' k) as [->|Hne]; cbn [dict_get].
    + rewrite String.eqb_refl. reflexivity.
    + apply String.eqb_neq in Hne. rewrite Hne. exact IH.
Qed.

Lemma dict_get_set_other (d : @dict T) (k k0 : string) (v default : T) :
  k0 <> k -> dict_get (dict_set d k v) k0 default = dict_get d k0 default.
Proof.
  intros Hne. induction d as [|[k' v'] d IH]; cbn [dict_set dict_get].
  - destruct (String.eqb_spec k k0); [congruence | reflexivity].
  - destruct (String.eqb_spec k' k) as [->|Hk]; cbn [dict_get].
    + destruct (String.eqb_spec k k0); [congruence | reflexivity].
    + destruct (String.eqb k' k0); [reflexivity | exact IH].
Qed.

Lemma material_block_keys (d : @dict T) (choice : nat) (price : T) :
  dict_keys (snd (material_block d choice price)) = dict_keys d.
Proof.
  unfold material_block.
  destruct (nth_error (dict_keys d) choice) as [selected|] eqn:E;
    [|reflexivity].
  cbn [snd]. destruct (negb _); [|reflexivity].
  apply dict_set_keys. apply (nth_error_In _ _ E).
Qed.

Lemma material_prices_after_keys (runs : list (nat * T)) :
  dict_keys (material_prices_after runs)
  = ["Paper (chrome)"; "Plastic (PPW)"; "Thermal Paper"].
Proof.
  unfold material_prices_after.
  change ["Paper (chrome)"; "Plastic (PPW)"; "Thermal Paper"]
    with (dict_keys (@DEFAULT_MATERIALS_PRICES T num)).
  generalize (@DEFAULT_MATERIALS_PRICES T num).
  induction runs as [|[choice price] runs IH]; intros d; [reflexivity|].
  cbn [fold_left fst snd]. rewrite IH. apply material_block_keys.
Qed.

End MaterialPrices.

(** For every number model.  One run of the material block keeps the
    materials and their order; it gives a material that is one of them;
    it leaves the prices of the other materials as they were; and the
    price stored for the selected material after the run is the price of
    the price field, or the price stored before when the two compared
    equal.  So after any sequence of runs from the defaults the materials
    are the three default ones, and a selected material is one of these
    and not the empty text. *)
Theorem material_prices_bookkeeping :
  forall (T : Type) (num : Number T),
    (forall (d : @dict T) (choice : nat) (price : T)
        (selected : string) (d' : @dict T),
        material_block d choice price = (Some selected, d') ->
        In selected (dict_keys d)
        /\ dict_keys d' = dict_keys d
        /\ (forall (k : string) (default : T), k <> selected ->
              dict_get d' k default = dict_get d k default)
        /\ (dict_get d' selected (literal 0.0) = price
            \/ (dict_get d' selected (literal 0.0)
                = dict_get d selected (literal 0.0)
                /\ (price =? dict_get d selected (literal 0.0))%py = true)))
    /\ (forall (runs : list (nat * T)) (choice : nat) (price : T)
          (selected : string) (d' : @dict T),
          dict_keys (material_prices_after runs)
          = ["Paper (chrome)"; "Plastic (PPW)"; "Thermal Paper"]
          /\ (material_block (material_prices_after runs) choice price
              = (Some selected, d') ->
              In selected ["Paper (chrome)"; "Plastic (PPW)"; "Thermal Paper"]
              /\ String.eqb selected "" = false)).
Proof.
  intros T num.
  assert (Hblock : forall (d : @dict T) choice price selected d',
            material_block d choice price = (Some selected, d') ->
            In selected (dict_keys d)).
  { intros d choice price selected d'. unfold material_block.
    destruct (nth_error (dict_keys d) choice) as [k|] eqn:E; [|discriminate].
    intros H. injection H as <- _. apply (nth_error_In _ _ E). }
  split.
  - intros d choice price selected d' H.
    split; [apply (Hblock d choice price selected d' H)|].
    split.
    { rewrite <- (material_block_keys d choice price), H. reflexivity. }
    revert H. unfold material_block.
    destruct (nth_error (dict_keys d) choice) as [k|] eqn:E; [|discriminate].
    intros H. injection H as <- <-.
    destruct (price =? dict_get d k (literal 0.0))%py eqn:Eq; cbn [negb].
    + split; [reflexivity|]. right. auto.
    + split; [intros k0 default Hk0; apply dict_get_set_other, Hk0|].
      left. apply dict_get_set_same.
  - intros runs choice price selected d'.
    pose proof (material_prices_after_keys runs) as Hkeys.
    split; [exact Hkeys|]. intros H.
    apply Hblock in H. rewrite Hkeys in H.
    split; [exact H|].
    cbn [In] in H.
    destruct H as [<-|[<-|[<-|[]]]]; reflexivity.
Qed.

Lemma material_prices_bookkeeping_witness :
  dict_keys (snd (material_block (@DEFAULT_MATERIALS_PRICES Q _) 1 60))
  = dict_keys (@DEFAULT_MATERIALS_PRICES Q _)
  /\ (dict_get (snd (material_block (@DEFAULT_MATERIALS_PRICES Q _) 1 60))
        "Plastic (PPW)" 0.0 = 60%Q
      \/ (dict_get (snd (material_block (@DEFAULT_MATERIALS_PRICES Q _) 1 60))
            "Plastic (PPW)" 0.0
          = dict_get (@DEFAULT_MATERIALS_PRICES Q _) "Plastic (PPW)" 0.0
          /\ (60 =? dict_get (@DEFAULT_MATERIALS_PRICES Q _)
                      "Plastic (PPW)" 0.0)%py = true)).
Proof.
  destruct (material_prices_bookkeeping Q Exact.number) as (Hrun & _).
  destruct (Hrun DEFAULT_MATERIALS_PRICES 1%nat 60%Q "Plastic (PPW)"
              (snd (material_block (@DEFAULT_MATERIALS_PRICES Q _) 1 60)))
    as (_ & Hkeys & _ & Hprice).
  - reflexivity.
  - exact (conj Hkeys Hprice).
Defined.
